(** * Janggi-Engine: a shallow embedding of Board.py, BoardPieces.py and Main.py

    The Python program is embedded as follows.
    - Exceptions are values: a computation that reads only returns
      [result A]; a method that writes to the board is a function from the
      object to a result and the object as the method leaves it (the object
      outlives a raised exception).
    - Piece objects live in a store indexed by object identity; the grid
      holds references, so the [!=] of the source on pieces is identity.
    - The grid is the dictionary of dictionaries of the source, kept as an
      insertion-ordered association list: the loops of the source walk
      [values()] in that order.
    - Strings and characters are 8-bit; [print] calls are left out. *)

From Stdlib Require Import ZArith List String Ascii Bool Lia.
Import ListNotations.
Local Open Scope string_scope.
Local Open Scope list_scope.
Local Open Scope Z_scope.

(** ** Python values and exceptions *)

Inductive exn : Type :=
| IndexError
| ValueError
| KeyError
| AttributeError.

Inductive result (A : Type) : Type :=
| Ok (a : A)
| Raise (e : exn).

Arguments Ok {A} a.
Arguments Raise {A} e.

Definition rbind {A B : Type} (m : result A) (f : A -> result B) : result B :=
  match m with
  | Ok a => f a
  | Raise e => Raise e
  end.

Notation "x <- m ;; k" := (rbind m (fun x => k))
  (at level 61, m at next level, right associativity).

Definition is_ok {A : Type} (m : result A) : bool :=
  match m with Ok _ => true | Raise _ => false end.

Module Py.

(** [s.index(c)] for a one-character [c]. *)
Fixpoint index_from (s : string) (c : ascii) (i : Z) : result Z :=
  match s with
  | EmptyString => Raise ValueError
  | String a s' => if Ascii.eqb a c then Ok i else index_from s' c (i + 1)
  end.

Definition index (s : string) (c : ascii) : result Z := index_from s c 0.

Definition len (s : string) : Z := Z.of_nat (String.length s).

(** [s[i]]: negative indices count from the end. *)
Definition getitem (s : string) (i : Z) : result ascii :=
  let j := if i <? 0 then i + len s else i in
  if (j <? 0) || (len s <=? j) then Raise IndexError
  else match String.get (Z.to_nat j) s with
       | Some a => Ok a
       | None => Raise IndexError
       end.

(** [range(a, b, 1)] and [range(a, b, -1)]. *)
Definition range_up (a b : Z) : list Z :=
  map (fun i => a + Z.of_nat i) (seq 0 (Z.to_nat (b - a))).

Definition range_down (a b : Z) : list Z :=
  map (fun i => a - Z.of_nat i) (seq 0 (Z.to_nat (a - b))).

(** [s[start:stop:]]: both bounds are normalised as CPython does. *)
Definition clamp_up (n i : Z) : Z :=
  let j := if i <? 0 then i + n else i in
  if j <? 0 then 0 else if n <? j then n else j.

Definition slice (s : string) (start stop : Z) : list ascii :=
  let a := clamp_up (len s) start in
  let b := clamp_up (len s) stop in
  firstn (Z.to_nat (b - a)) (skipn (Z.to_nat a) (list_ascii_of_string s)).

(** [s[start:stop:-1]]. *)
Definition clamp_down (n i : Z) : Z :=
  let j := if i <? 0 then i + n else i in
  if j <? 0 then -1 else if n <=? j then n - 1 else j.

Definition slice_rev (s : string) (start stop : Z) : list ascii :=
  let a := clamp_down (len s) start in
  let b := clamp_down (len s) stop in
  flat_map (fun i => match String.get (Z.to_nat i) s with
                     | Some c => [c]
                     | None => []
                     end)
           (range_down a b).

(** [sub in s] on strings. *)
Fixpoint contains (sub s : string) : bool :=
  if String.prefix sub s then true
  else match s with
       | EmptyString => false
       | String _ s' => contains sub s'
       end.

(** Comparison of one-character strings is comparison of code points. *)
Definition char_ltb (a b : ascii) : bool := (N_of_ascii a <? N_of_ascii b)%N.

(** [c.lower()] on the ASCII letters. *)
Definition lower (c : ascii) : ascii :=
  let n := N_of_ascii c in
  if ((65 <=? n) && (n <=? 90))%N then ascii_of_N (n + 32) else c.

(** [int(s)] on a string of 8-bit characters: surrounding whitespace, an
    optional sign, decimal digits with single underscores between them. *)
Definition is_space (c : ascii) : bool :=
  let n := N_of_ascii c in
  ((9 <=? n) && (n <=? 13) || (28 <=? n) && (n <=? 32) || (n =? 133) || (n =? 160))%N.

Definition digit_val (c : ascii) : option Z :=
  let n := N_of_ascii c in
  if ((48 <=? n) && (n <=? 57))%N then Some (Z.of_N n - 48) else None.

Fixpoint lstrip (l : list ascii) : list ascii :=
  match l with
  | c :: l' => if is_space c then lstrip l' else l
  | [] => []
  end.

Definition strip (l : list ascii) : list ascii := rev (lstrip (rev (lstrip l))).

(** [digits acc after_digit l]: [after_digit] tells whether the previous
    character was a digit (an underscore is only allowed there). *)
Fixpoint digits (acc : Z) (after_digit : bool) (l : list ascii) : result Z :=
  match l with
  | [] => if after_digit then Ok acc else Raise ValueError
  | c :: l' =>
      match digit_val c with
      | Some d => digits (10 * acc + d) true l'
      | None =>
          if Ascii.eqb c "_"%char && after_digit
          then match l' with
               | c' :: _ => match digit_val c' with
                            | Some _ => digits acc false l'
                            | None => Raise ValueError
                            end
               | [] => Raise ValueError
               end
          else Raise ValueError
      end
  end.

Definition int (s : string) : result Z :=
  match strip (list_ascii_of_string s) with
  | c :: l =>
      if Ascii.eqb c "-"%char then (n <- digits 0 false l ;; Ok (- n))
      else if Ascii.eqb c "+"%char then digits 0 false l
      else digits 0 false (c :: l)
  | [] => Raise ValueError
  end.

End Py.

(** ** BoardPieces.py *)

Definition coord : Type := Z * ascii.

Definition coord_eqb (a b : coord) : bool :=
  (fst a =? fst b) && Ascii.eqb (snd a) (snd b).

Definition coord_in (k : coord) (l : list coord) : bool := existsb (coord_eqb k) l.

Inductive Color : Type := RED | BLUE.

Definition Color_eqb (a b : Color) : bool :=
  match a, b with
  | RED, RED | BLUE, BLUE => true
  | _, _ => false
  end.

Definition color_str (c : Color) : string :=
  match c with RED => "RED" | BLUE => "BLUE" end.

(** The subclass of [BoardPiece] an object belongs to. *)
Inductive Kind : Type :=
| General | Guard | Horse | Elephant | Chariot | Cannon | Soldier.

(** The [name] each subclass hands to [BoardPiece.__init__]. *)
Definition kind_name (k : Kind) : string :=
  match k with
  | General => "GENERAL"
  | Guard => "GUARD"
  | Horse => "HORSE"
  | Elephant => "ELEPHANT"
  | Chariot => "CHARIOT"
  | Cannon => "CANNON"
  | Soldier => "SOLDIER"
  end.

Record BoardPiece : Type := mkPiece {
  current_pos : coord;
  color : Color;
  kind : Kind
}.

Definition alphabet : string := "abcdefghi".

Definition y_movement_direction (p : BoardPiece) : Z :=
  match color p with RED => 1 | BLUE => -1 end.

Definition update_current_pos (p : BoardPiece) (location : coord) : BoardPiece :=
  mkPiece location (color p) (kind p).

Definition get_current_pos (p : BoardPiece) : coord := current_pos p.

Definition get_color (p : BoardPiece) : Color := color p.

Definition get_name (p : BoardPiece) : string :=
  (color_str (color p) ++ " " ++ kind_name (kind p))%string.

Definition is_general (p : BoardPiece) : bool :=
  match kind p with General => true | _ => false end.

(** [if b: movement_range.append(...)] *)
Definition when {A : Type} (b : bool) (l : list A) : list A := if b then l else [].

Definition at_ (current : coord) (r : Z) (c : ascii) : bool := coord_eqb current (r, c).

(** [General.get_movement_range]; [Guard.get_movement_range] has the same body. *)
Definition palace_movement_range (p : BoardPiece) : result (list coord) :=
  let current := get_current_pos p in
  let current_row := fst current in
  let current_column := snd current in
  current_column_index <- Py.index alphabet current_column ;;
  let up := when (current_row - 1 >? 0) [(current_row - 1, current_column)] in
  let down := when (current_row + 1 <=? 10) [(current_row + 1, current_column)] in
  right <- Py.getitem alphabet (current_column_index + 1) ;;
  left <- Py.getitem alphabet (current_column_index - 1) ;;
  let blue :=
    when (Color_eqb (get_color p) BLUE)
      (when (at_ current 8 "d" || at_ current 8 "f") [(9, "e"%char)]
       ++ when (at_ current 9 "e")
            [(8, "d"%char); (8, "f"%char); (10, "d"%char); (10, "f"%char)]
       ++ when (at_ current 10 "d" || at_ current 10 "f") [(9, "e"%char)]) in
  let red :=
    when (Color_eqb (get_color p) RED)
      (when (at_ current 3 "d" || at_ current 3 "f") [(2, "e"%char)]
       ++ when (at_ current 2 "e")
            [(1, "d"%char); (1, "f"%char); (3, "d"%char); (3, "f"%char)]
       ++ when (at_ current 1 "d" || at_ current 1 "f") [(2, "e"%char)]) in
  Ok (up ++ down ++ [(current_row, right); (current_row, left)] ++ blue ++ red).

(** One guarded [append] of [Horse] and [Elephant]: the column is only
    indexed when the guard holds. *)
Definition jump (guard : bool) (row : Z) (column_index : Z) : result (list coord) :=
  if guard then (c <- Py.getitem alphabet column_index ;; Ok [(row, c)]) else Ok [].

Definition rapp {A : Type} (a b : result (list A)) : result (list A) :=
  x <- a ;; y <- b ;; Ok (x ++ y).

Infix "+++" := rapp (at level 60, right associativity).

Definition rwhen {A : Type} (b : bool) (l : result (list A)) : result (list A) :=
  if b then l else Ok [].

Definition Horse_movement_range (p : BoardPiece) : result (list coord) :=
  let current := get_current_pos p in
  let current_row := fst current in
  let current_column := snd current in
  current_column_index <- Py.index alphabet current_column ;;
  let last := Py.len alphabet - 1 in
  rwhen (current_row + 2 <=? 10)
    (jump (current_column_index + 1 <=? last) (current_row + 2) (current_column_index + 1)
     +++ jump (current_column_index - 1 >=? 0) (current_row + 2) (current_column_index - 1))
  +++ rwhen (current_row - 2 >? 0)
    (jump (current_column_index + 1 <=? last) (current_row - 2) (current_column_index + 1)
     +++ jump (current_column_index - 1 >=? 0) (current_row - 2) (current_column_index - 1))
  +++ rwhen (current_column_index + 2 <=? last)
    (jump (current_row + 1 <=? 10) (current_row + 1) (current_column_index + 2)
     +++ jump (current_row - 1 >? 0) (current_row - 1) (current_column_index + 2))
  +++ rwhen (current_column_index - 2 >=? 0)
    (jump (current_row + 1 <=? 10) (current_row + 1) (current_column_index - 2)
     +++ jump (current_row - 1 >? 0) (current_row - 1) (current_column_index - 2)).

Definition Elephant_movement_range (p : BoardPiece) : result (list coord) :=
  let current := get_current_pos p in
  let current_row := fst current in
  let current_column := snd current in
  current_column_index <- Py.index alphabet current_column ;;
  let last := Py.len alphabet - 1 in
  rwhen (current_row + 3 <=? 10)
    (jump (current_column_index + 2 <=? last) (current_row + 3) (current_column_index + 2)
     +++ jump (current_column_index - 2 >=? 0) (current_row + 3) (current_column_index - 2))
  +++ rwhen (current_row - 3 >? 0)
    (jump (current_column_index + 2 <=? last) (current_row - 3) (current_column_index + 2)
     +++ jump (current_column_index - 2 >=? 0) (current_row - 3) (current_column_index - 2))
  +++ rwhen (current_column_index + 3 <=? last)
    (jump (current_row + 2 <=? 10) (current_row + 2) (current_column_index + 3)
     +++ jump (current_row - 2 >? 0) (current_row - 2) (current_column_index + 3))
  +++ rwhen (current_column_index - 3 >=? 0)
    (jump (current_row + 2 <=? 10) (current_row + 2) (current_column_index - 3)
     +++ jump (current_row - 2 >? 0) (current_row - 2) (current_column_index - 3)).

(** [Chariot.get_movement_range]; [Cannon.get_movement_range] has the same body. *)
Definition line_movement_range (p : BoardPiece) : result (list coord) :=
  let current := get_current_pos p in
  let current_row := fst current in
  let current_column := snd current in
  let rows :=
    flat_map (fun row => when (negb (row =? current_row)) [(row, current_column)])
             (Py.range_up 1 11) in
  let columns :=
    flat_map (fun column => when (negb (Ascii.eqb column (snd current)))
                              [(current_row, column)])
             (list_ascii_of_string alphabet) in
  Ok (rows ++ columns
      ++ when (at_ current 8 "f") [(10, "d"%char)]
      ++ when (at_ current 8 "d") [(10, "f"%char)]
      ++ when (at_ current 10 "d") [(8, "f"%char)]
      ++ when (at_ current 10 "f") [(8, "d"%char)]
      ++ when (at_ current 3 "f") [(1, "d"%char)]
      ++ when (at_ current 3 "d") [(1, "f"%char)]
      ++ when (at_ current 1 "d") [(3, "f"%char)]
      ++ when (at_ current 1 "f") [(3, "d"%char)]).

Definition Soldier_movement_range (p : BoardPiece) : result (list coord) :=
  let current := get_current_pos p in
  let current_row := fst current in
  current_column <- Py.index alphabet (snd current) ;;
  let forward :=
    if Color_eqb (color p) BLUE && (current_row =? 1) then None
    else if Color_eqb (get_color p) RED && (current_row =? 10) then None
    else Some (current_row + y_movement_direction p, snd current) in
  left <- (if current_column =? 0 then Ok None
           else (c <- Py.getitem alphabet (current_column - 1) ;; Ok (Some (current_row, c)))) ;;
  right <- (if current_column =? 8 then Ok None
            else (c <- Py.getitem alphabet (current_column + 1) ;; Ok (Some (current_row, c)))) ;;
  let directions :=
    [forward; left; right]
    ++ when (Color_eqb (get_color p) RED)
         (when (at_ current 8 "d" || at_ current 8 "f") [Some (9, "e"%char)]
          ++ when (at_ current 9 "e") [Some (10, "d"%char); Some (10, "f"%char)])
    ++ when (Color_eqb (get_color p) BLUE)
         (when (at_ current 3 "d" || at_ current 3 "f") [Some (2, "e"%char)]
          ++ when (at_ current 2 "e") [Some (1, "d"%char); Some (1, "f"%char)]) in
  Ok (flat_map (fun direction => match direction with
                                 | Some d => [d]
                                 | None => []
                                 end) directions).

(** Dynamic dispatch of [get_movement_range] on the class of the object. *)
Definition get_movement_range (p : BoardPiece) : result (list coord) :=
  match kind p with
  | General | Guard => palace_movement_range p
  | Horse => Horse_movement_range p
  | Elephant => Elephant_movement_range p
  | Chariot | Cannon => line_movement_range p
  | Soldier => Soldier_movement_range p
  end.

(** ** The 10x9 board *)

Definition rows : list Z := [1; 2; 3; 4; 5; 6; 7; 8; 9; 10].

Definition columns : list ascii :=
  ["a"; "b"; "c"; "d"; "e"; "f"; "g"; "h"; "i"]%char.

Definition on_board (k : coord) : Prop :=
  1 <= fst k <= 10 /\ In (snd k) columns.

Definition on_boardb (k : coord) : bool :=
  (1 <=? fst k) && (fst k <=? 10) && existsb (Ascii.eqb (snd k)) columns.

Definition all_squares : list coord := list_prod rows columns.

(** ** Python dictionaries

    A dictionary keeps its keys in insertion order; assigning to a key that
    is present replaces the value in place, assigning to a new key appends. *)

Module Dict.
Section Dict.
Context {K V : Type} (eqb : K -> K -> bool).

Fixpoint get (k : K) (d : list (K * V)) : option V :=
  match d with
  | [] => None
  | (k', v) :: d' => if eqb k k' then Some v else get k d'
  end.

Fixpoint set (k : K) (v : V) (d : list (K * V)) : list (K * V) :=
  match d with
  | [] => [(k, v)]
  | (k', v') :: d' => if eqb k k' then (k', v) :: d' else (k', v') :: set k v d'
  end.

Definition keys (d : list (K * V)) : list K := map fst d.

Definition values (d : list (K * V)) : list V := map snd d.
End Dict.
End Dict.

(** ** Board.py *)

(** A reference to a piece object. *)
Definition ref : Type := nat.

Definition row_dict : Type := list (ascii * option ref).

Definition board_dict : Type := list (Z * row_dict).

Record Locations : Type := mkLocations {
  loc_BLUE : coord;
  loc_RED : coord
}.

Definition loc_get (l : Locations) (c : Color) : coord :=
  match c with BLUE => loc_BLUE l | RED => loc_RED l end.

Definition loc_set (l : Locations) (c : Color) (k : coord) : Locations :=
  match c with
  | BLUE => mkLocations k (loc_RED l)
  | RED => mkLocations (loc_BLUE l) k
  end.

(** A [JanggiBoard] object together with the piece objects it refers to. *)
Record JanggiBoard : Type := mkBoard {
  board : board_dict;
  store : ref -> BoardPiece;
  general_locations : Locations;
  checkmate : bool
}.

Definition red_palace : list coord :=
  [(1, "d"); (1, "e"); (1, "f");
   (2, "d"); (2, "e"); (2, "f");
   (3, "d"); (3, "e"); (3, "f")]%char.

Definition blue_palace : list coord :=
  [(8, "d"); (8, "e"); (8, "f");
   (9, "d"); (9, "e"); (9, "f");
   (10, "d"); (10, "e"); (10, "f")]%char.

Definition with_board (s : JanggiBoard) (b : board_dict) : JanggiBoard :=
  mkBoard b (store s) (general_locations s) (checkmate s).

(** [self._board[coordinates[0]][coordinates[1]]] *)
Definition board_get (b : board_dict) (coordinates : coord) : result (option ref) :=
  match Dict.get Z.eqb (fst coordinates) b with
  | None => Raise KeyError
  | Some row =>
      match Dict.get Ascii.eqb (snd coordinates) row with
      | None => Raise KeyError
      | Some item => Ok item
      end
  end.

(** [self._board[coordinates[0]][coordinates[1]] = item] *)
Definition board_set (b : board_dict) (coordinates : coord) (item : option ref)
  : result board_dict :=
  match Dict.get Z.eqb (fst coordinates) b with
  | None => Raise KeyError
  | Some row =>
      Ok (Dict.set Z.eqb (fst coordinates)
            (Dict.set Ascii.eqb (snd coordinates) item row) b)
  end.

Definition get_location_contents (s : JanggiBoard) (coordinates : coord)
  : result (option ref) :=
  board_get (board s) coordinates.

(** The items met by [for row in self._board.values(): for item in row.values()]. *)
Definition board_items (s : JanggiBoard) : list (option ref) :=
  flat_map (fun row => Dict.values row) (Dict.values (board s)).

(** The same walk, by key. *)
Definition board_keys (s : JanggiBoard) : list coord :=
  flat_map (fun r => map (fun c => (fst r, c)) (Dict.keys (snd r))) (board s).

(** A loop whose body may [return True]; [False] is returned after it. *)
Fixpoint any_r {A : Type} (f : A -> result bool) (l : list A) : result bool :=
  match l with
  | [] => Ok false
  | x :: l' => b <- f x ;; if b then Ok true else any_r f l'
  end.

(** A loop that appends to a list. *)
Fixpoint collect_r {A B : Type} (f : A -> result (list B)) (l : list A)
  : result (list B) :=
  match l with
  | [] => Ok []
  | x :: l' => ys <- f x ;; zs <- collect_r f l' ;; Ok (ys ++ zs)
  end.

(** What [pieces_in_orthogonal_path] returns: a count, [True], or [None]
    when the last loop falls through. *)
Inductive path_answer : Type :=
| Count (n : Z)
| PTrue
| PNone.

Definition answer_truthy (a : path_answer) : bool :=
  match a with
  | Count n => negb (n =? 0)
  | PTrue => true
  | PNone => false
  end.

Definition answer_is (a : path_answer) (n : Z) : bool :=
  match a with
  | Count m => m =? n
  | PTrue => n =? 1
  | PNone => false
  end.

(** [if contents(square) is not None: found.append(contents(square).get_name())] *)
Definition found_at (s : JanggiBoard) (square : coord) : result (list string) :=
  item <- get_location_contents s square ;;
  match item with
  | Some q => Ok [get_name (store s q)]
  | None => Ok []
  end.

Definition pieces_in_orthogonal_path (s : JanggiBoard) (move_from move_to : coord)
    (searching_for : string) : result path_answer :=
  found <-
    (if fst move_from =? fst move_to then
       from_index <- Py.index alphabet (snd move_from) ;;
       to_index <- Py.index alphabet (snd move_to) ;;
       east <- (if Py.char_ltb (snd move_from) (snd move_to)
                then collect_r (fun column => found_at s (fst move_from, column))
                       (Py.slice alphabet (from_index + 1) to_index)
                else Ok []) ;;
       west <- (if Py.char_ltb (snd move_to) (snd move_from)
                then collect_r (fun column => found_at s (fst move_from, column))
                       (Py.slice_rev alphabet (from_index - 1) to_index)
                else Ok []) ;;
       Ok (east ++ west)
     else if Ascii.eqb (snd move_from) (snd move_to) then
       let from_index := fst move_from in
       let to_index := fst move_to in
       north <- (if from_index >? to_index
                 then collect_r (fun row => found_at s (row, snd move_from))
                        (Py.range_down (from_index - 1) to_index)
                 else Ok []) ;;
       south <- (if from_index <? to_index
                 then collect_r (fun row => found_at s (row, snd move_from))
                        (Py.range_up (from_index + 1) to_index)
                 else Ok []) ;;
       Ok (north ++ south)
     else if Ascii.eqb (snd move_from) "d" || Ascii.eqb (snd move_from) "f" then
       if fst move_from <=? 3 then found_at s (2, "e"%char)
       else found_at s (9, "e"%char)
     else Ok []) ;;
  if String.eqb searching_for "ANY" then Ok (Count (Z.of_nat (List.length found)))
  else if existsb (Py.contains "CANNON") found then Ok PTrue
  else Ok PNone.

Definition is_elephant_path_blocked (s : JanggiBoard) (elephant : ref) (move_to : coord)
  : result bool :=
  let move_from := get_current_pos (store s elephant) in
  move_from_column_index <- Py.index alphabet (snd move_from) ;;
  move_to_column_index <- Py.index alphabet (snd move_to) ;;
  let north_south := fst move_to - fst move_from in
  let east_west := move_to_column_index - move_from_column_index in
  items_found <-
    (if Z.abs north_south =? 3 then
       if north_south >? 0 then
         first <- get_location_contents s (fst move_from + 1, snd move_from) ;;
         if east_west >? 0 then
           column <- Py.getitem alphabet (move_from_column_index + 1) ;;
           second <- get_location_contents s (fst move_from + 2, column) ;;
           Ok [first; second]
         else
           column <- Py.getitem alphabet (move_from_column_index - 1) ;;
           second <- get_location_contents s (fst move_from + 2, column) ;;
           Ok [first; second]
       else
         first <- get_location_contents s (fst move_from - 1, snd move_from) ;;
         if east_west >? 0 then
           column <- Py.getitem alphabet (move_from_column_index + 1) ;;
           second <- get_location_contents s (fst move_from - 2, column) ;;
           Ok [first; second]
         else
           column <- Py.getitem alphabet (move_from_column_index - 1) ;;
           second <- get_location_contents s (fst move_from - 2, column) ;;
           Ok [first; second]
     else
       if east_west >? 0 then
         column1 <- Py.getitem alphabet (move_from_column_index + 1) ;;
         first <- get_location_contents s (fst move_from, column1) ;;
         if north_south >? 0 then
           column2 <- Py.getitem alphabet (move_from_column_index + 2) ;;
           second <- get_location_contents s (fst move_from + 1, column2) ;;
           Ok [first; second]
         else
           column2 <- Py.getitem alphabet (move_from_column_index + 2) ;;
           second <- get_location_contents s (fst move_from - 1, column2) ;;
           Ok [first; second]
       else
         column1 <- Py.getitem alphabet (move_from_column_index - 1) ;;
         first <- get_location_contents s (fst move_from, column1) ;;
         if north_south >? 0 then
           column2 <- Py.getitem alphabet (move_from_column_index - 2) ;;
           second <- get_location_contents s (fst move_from + 1, column2) ;;
           Ok [first; second]
         else
           column2 <- Py.getitem alphabet (move_from_column_index - 2) ;;
           second <- get_location_contents s (fst move_from - 1, column2) ;;
           Ok [first; second]) ;;
  Ok (existsb (fun item => match item with Some _ => true | None => false end)
        items_found).

Definition is_horse_path_blocked (s : JanggiBoard) (horse : ref) (move_to : coord)
  : result bool :=
  let move_from := get_current_pos (store s horse) in
  move_from_column_index <- Py.index alphabet (snd move_from) ;;
  move_to_column_index <- Py.index alphabet (snd move_to) ;;
  let north_south := fst move_to - fst move_from in
  let east_west := move_to_column_index - move_from_column_index in
  item_found <-
    (if Z.abs north_south =? 2 then
       if north_south >? 0
       then get_location_contents s (fst move_from + 1, snd move_from)
       else get_location_contents s (fst move_from - 1, snd move_from)
     else
       if east_west >? 0 then
         column <- Py.getitem alphabet (move_from_column_index + 1) ;;
         get_location_contents s (fst move_from, column)
       else
         column <- Py.getitem alphabet (move_from_column_index - 1) ;;
         get_location_contents s (fst move_from, column)) ;;
  Ok (match item_found with None => false | Some _ => true end).

Definition opposite (c : Color) : Color :=
  match c with BLUE => RED | RED => BLUE end.

Definition occupied_by (s : JanggiBoard) (item : option ref) (f : BoardPiece -> bool)
  : bool :=
  match item with
  | Some q => f (store s q)
  | None => false
  end.

(** The rules of [pass_legality_check] that follow the
    [if not hypothetical_movement] block. *)
Definition legality_rules (s : JanggiBoard) (move_to : coord) (piece : ref)
    (current_turn : Color) (movement_range : list coord) : result bool :=
  let p := store s piece in
  let piece_color := get_color p in
  if negb (Color_eqb piece_color current_turn) then Ok false
  else if negb (coord_in move_to movement_range) then Ok false
  else
    target <- get_location_contents s move_to ;;
    if occupied_by s target (fun q => Color_eqb piece_color (get_color q)) then Ok false
    else if occupied_by s target
              (fun q => Py.contains "CANNON" (get_name p)
                        && Py.contains "CANNON" (get_name q)) then Ok false
    else if (Py.contains "GENERAL" (get_name p) || Py.contains "GUARD" (get_name p))
            && (negb (coord_in move_to blue_palace)
                && negb (coord_in move_to red_palace)) then Ok false
    else
      chariot_blocked <-
        (if Py.contains "CHARIOT" (get_name p) then
           n <- pieces_in_orthogonal_path s (get_current_pos p) move_to "ANY" ;;
           Ok (negb (answer_is n 0))
         else Ok false) ;;
      if chariot_blocked then Ok false
      else
        cannon_blocked <-
          (if Py.contains "CANNON" (get_name p) then
             n <- pieces_in_orthogonal_path s (get_current_pos p) move_to "ANY" ;;
             if negb (answer_is n 1) then Ok true
             else
               c <- pieces_in_orthogonal_path s (get_current_pos p) move_to "CANNON" ;;
               Ok (answer_truthy c)
           else Ok false) ;;
        if cannon_blocked then Ok false
        else
          elephant_blocked <-
            (if Py.contains "ELEPHANT" (get_name p)
             then is_elephant_path_blocked s piece move_to
             else Ok false) ;;
          if elephant_blocked then Ok false
          else
            horse_blocked <-
              (if Py.contains "HORSE" (get_name p)
               then is_horse_path_blocked s piece move_to
               else Ok false) ;;
            if horse_blocked then Ok false else Ok true.

(** [pass_legality_check(move_to, piece, current_turn, True)]: the check
    block is skipped, so the call reads the board and never writes to it. *)
Definition pass_legality_check_hypothetical (s : JanggiBoard) (move_to : coord)
    (piece : ref) (current_turn : Color) : result bool :=
  movement_range <- get_movement_range (store s piece) ;;
  general <- get_location_contents s (loc_get (general_locations s) current_turn) ;;
  legality_rules s move_to piece current_turn movement_range.

Definition get_general_check_status (s : JanggiBoard) (general_color : Color)
  : result bool :=
  let general_location := loc_get (general_locations s) general_color in
  let enemy_color := match general_color with BLUE => RED | _ => BLUE end in
  any_r (fun item =>
           match item with
           | Some q =>
               if negb (Color_eqb (get_color (store s q)) general_color) then
                 movement_range <- get_movement_range (store s q) ;;
                 any_r (fun potential_move =>
                          if coord_eqb potential_move general_location
                          then pass_legality_check_hypothetical s potential_move q
                                 enemy_color
                          else Ok false)
                       movement_range
               else Ok false
           | None => Ok false
           end)
        (board_items s).

Definition safe_general_move_check (s : JanggiBoard) (opposing_color : Color)
    (move_to : coord) : result bool :=
  check_zone <-
    collect_r (fun item =>
                 match item with
                 | Some q =>
                     if Color_eqb (get_color (store s q)) opposing_color
                     then get_movement_range (store s q)
                     else Ok []
                 | None => Ok []
                 end)
              (board_items s) ;;
  if coord_in move_to check_zone then Ok false else Ok true.

(** The [check_zone] list built by the first loop of [is_general_stuck]. *)
Definition stuck_check_zone (s : JanggiBoard) (opposing_color : Color)
  : result (list coord) :=
  collect_r (fun item =>
               match item with
               | Some q =>
                   if Color_eqb (get_color (store s q)) opposing_color then
                     movement_range <- get_movement_range (store s q) ;;
                     collect_r (fun location =>
                                  legal <- pass_legality_check_hypothetical s location q
                                             opposing_color ;;
                                  Ok (when legal [location]))
                               movement_range
                   else Ok []
               | None => Ok []
               end)
            (board_items s).

Definition is_general_stuck (s : JanggiBoard) (general : option ref)
    (opposing_color : Color) : result bool :=
  match general with
  | None => Raise AttributeError
  | Some g =>
      general_range <- get_movement_range (store s g) ;;
      let general_color := get_color (store s g) in
      check_zone <- stuck_check_zone s opposing_color ;;
      escape_options <-
        collect_r (fun option =>
                     if negb (coord_in option check_zone) then
                       legal <- pass_legality_check_hypothetical s option g general_color ;;
                       Ok (when legal [option])
                     else Ok [])
                  general_range ;;
      if Z.of_nat (List.length escape_options) =? 0 then Ok true else Ok false
  end.

Definition get_checkmate_status (s : JanggiBoard) : bool := checkmate s.

(** *** Methods that write to the board *)

(** A method runs on the object and leaves it behind, also when it raises. *)
Definition SE (S A : Type) : Type := S -> result A * S.

Definition mret {S A : Type} (a : A) : SE S A := fun s => (Ok a, s).

Definition mraise {S A : Type} (e : exn) : SE S A := fun s => (Raise e, s).

Definition mbind {S A B : Type} (m : SE S A) (f : A -> SE S B) : SE S B :=
  fun s =>
    match m s with
    | (Ok a, s') => f a s'
    | (Raise e, s') => (Raise e, s')
    end.

Notation "x <~ m ;; k" := (mbind m (fun x => k))
  (at level 61, m at next level, right associativity).

(** A call that only reads the object. *)
Definition read {S A : Type} (f : S -> result A) : SE S A := fun s => (f s, s).

Definition gets {S A : Type} (f : S -> A) : SE S A := fun s => (Ok (f s), s).

Definition M (A : Type) : Type := SE JanggiBoard A.

Definition write_cell (coordinates : coord) (item : option ref) : M unit :=
  fun s =>
    match board_set (board s) coordinates item with
    | Ok b => (Ok tt, with_board s b)
    | Raise e => (Raise e, s)
    end.

Fixpoint any_M {S A : Type} (f : A -> SE S bool) (l : list A) : SE S bool :=
  match l with
  | [] => mret false
  | x :: l' => b <~ f x ;; if b then mret true else any_M f l'
  end.

Definition test_save_general_movement (friendly_piece : ref) (save_general_move : coord)
    (general_color : Color) : M bool :=
  save_item <~ read (fun s => get_location_contents s save_general_move) ;;
  original_location <~ gets (fun s => get_current_pos (store s friendly_piece)) ;;
  _ <~ write_cell save_general_move (Some friendly_piece) ;;
  _ <~ write_cell original_location None ;;
  general_still_checked <~ read (fun s => get_general_check_status s general_color) ;;
  _ <~ write_cell save_general_move save_item ;;
  _ <~ write_cell original_location (Some friendly_piece) ;;
  if general_still_checked then mret false else mret true.

Definition ref_is (item : option ref) (r : ref) : bool :=
  match item with
  | Some q => Nat.eqb q r
  | None => false
  end.

Definition can_friendly_break_check (general : option ref) : M bool :=
  match general with
  | None => mraise AttributeError
  | Some g =>
      general_color <~ gets (fun s => get_color (store s g)) ;;
      general_location <~ gets (fun s => get_current_pos (store s g)) ;;
      keys <~ gets board_keys ;;
      any_M (fun key =>
               item <~ read (fun s => get_location_contents s key) ;;
               match item with
               | Some q =>
                   if negb (Nat.eqb q g) then
                     item_color <~ gets (fun s => get_color (store s q)) ;;
                     if Color_eqb item_color general_color then
                       movement_range <~ read (fun s => get_movement_range (store s q)) ;;
                       any_M (fun potential_move =>
                                if negb (coord_eqb potential_move general_location) then
                                  legal <~ read (fun s =>
                                    pass_legality_check_hypothetical s potential_move q
                                      general_color) ;;
                                  if legal
                                  then test_save_general_movement q potential_move
                                         general_color
                                  else mret false
                                else mret false)
                             movement_range
                     else mret false
                   else mret false
               | None => mret false
               end)
            keys
  end.

(** The [if not hypothetical_movement] block; [true] stands for its
    [return False]. *)
Definition check_block (move_to : coord) (piece : ref) (current_turn : Color)
    (general : option ref) : M bool :=
  piece_color <~ gets (fun s => get_color (store s piece)) ;;
  let opposing_color := match piece_color with BLUE => RED | _ => BLUE end in
  in_check <~ read (fun s => get_general_check_status s current_turn) ;;
  if in_check && negb (ref_is general piece) then
    can_break <~ can_friendly_break_check general ;;
    if negb can_break then mret true
    else
      saves <~ test_save_general_movement piece move_to piece_color ;;
      if negb saves then mret true else mret false
  else
    in_check' <~ read (fun s => get_general_check_status s current_turn) ;;
    if in_check' then
      safe <~ read (fun s => safe_general_move_check s opposing_color move_to) ;;
      if negb safe then mret true else mret false
    else mret false.

Definition pass_legality_check (move_to : coord) (piece : ref) (current_turn : Color)
    (hypothetical_movement : bool) : M bool :=
  movement_range <~ read (fun s => get_movement_range (store s piece)) ;;
  general <~ read (fun s =>
    get_location_contents s (loc_get (general_locations s) current_turn)) ;;
  rejected <~ (if negb hypothetical_movement
               then check_block move_to piece current_turn general
               else mret false) ;;
  if rejected then mret false
  else read (fun s => legality_rules s move_to piece current_turn movement_range).

Definition set_current_pos (piece : ref) (location : coord) : M unit :=
  fun s =>
    (Ok tt,
     mkBoard (board s)
       (fun r => if Nat.eqb r piece then update_current_pos (store s r) location
                 else store s r)
       (general_locations s) (checkmate s)).

Definition set_general_location (c : Color) (location : coord) : M unit :=
  fun s =>
    (Ok tt,
     mkBoard (board s) (store s) (loc_set (general_locations s) c location)
       (checkmate s)).

Definition move_piece (move_from move_to : coord) (current_turn : Color) : M bool :=
  board_piece <~ read (fun s => get_location_contents s move_from) ;;
  match board_piece with
  | None => mret false
  | Some bp =>
      legal <~ pass_legality_check move_to bp current_turn false ;;
      if negb legal then mret false
      else
        _ <~ write_cell move_to (Some bp) ;;
        _ <~ write_cell move_from None ;;
        _ <~ set_current_pos bp move_to ;;
        general_moved <~ gets (fun s => is_general (store s bp)) ;;
        _ <~ (if general_moved then set_general_location current_turn move_to
              else mret tt) ;;
        mret true
  end.

Definition set_checkmate : M unit :=
  fun s => (Ok tt, mkBoard (board s) (store s) (general_locations s) true).

Definition update_checkmate_status : M unit :=
  red_general <~ read (fun s =>
    get_location_contents s (loc_get (general_locations s) RED)) ;;
  blue_general <~ read (fun s =>
    get_location_contents s (loc_get (general_locations s) BLUE)) ;;
  red_stuck <~ read (fun s => is_general_stuck s red_general BLUE) ;;
  red_mated <~ (if red_stuck
                then (b <~ can_friendly_break_check red_general ;; mret (negb b))
                else mret false) ;;
  _ <~ (if red_mated then set_checkmate else mret tt) ;;
  blue_stuck <~ read (fun s => is_general_stuck s blue_general RED) ;;
  blue_mated <~ (if blue_stuck
                 then (b <~ can_friendly_break_check blue_general ;; mret (negb b))
                 else mret false) ;;
  if blue_mated then set_checkmate else mret tt.

(** *** The starting position *)

Definition pieces_generator : list (option BoardPiece) :=
  let P (k : Kind) (c : Color) (row : Z) (column : ascii) :=
    Some (mkPiece (row, column) c k) in
  [P Chariot RED 1 "a"; P Elephant RED 1 "b"; P Horse RED 1 "c"; P Guard RED 1 "d"; None;
   P Guard RED 1 "f"; P Elephant RED 1 "g"; P Horse RED 1 "h"; P Chariot RED 1 "i";
   None; None; None; None; P General RED 2 "e"; None; None; None; None;
   None; P Cannon RED 3 "b"; None; None; None; None; None; P Cannon RED 3 "h"; None;
   P Soldier RED 4 "a"; None; P Soldier RED 4 "c"; None; P Soldier RED 4 "e"; None;
   P Soldier RED 4 "g"; None; P Soldier RED 4 "i"; None; None; None; None; None; None;
   None; None;
   None; None; None; None; None; None; None; None; None; None; P Soldier BLUE 7 "a"; None;
   P Soldier BLUE 7 "c"; None; P Soldier BLUE 7 "e"; None; P Soldier BLUE 7 "g"; None;
   P Soldier BLUE 7 "i"; None; P Cannon BLUE 8 "b"; None; None; None; None; None;
   P Cannon BLUE 8 "h"; None; None; None; None; None; P General BLUE 9 "e"; None; None;
   None; None;
   P Chariot BLUE 10 "a"; P Elephant BLUE 10 "b"; P Horse BLUE 10 "c"; P Guard BLUE 10 "d";
   None; P Guard BLUE 10 "f"; P Elephant BLUE 10 "g"; P Horse BLUE 10 "h";
   P Chariot BLUE 10 "i"]%char.

(** The object yielded at step [n] of the generator gets the reference [n]. *)
Definition new_store (r : ref) : BoardPiece :=
  match nth r pieces_generator None with
  | Some p => p
  | None => mkPiece (0, "a"%char) RED Soldier
  end.

Definition new_item (n : nat) : option ref :=
  match nth n pieces_generator None with
  | Some _ => Some n
  | None => None
  end.

Definition new_board_dict : board_dict :=
  map (fun i =>
         (Z.of_nat i + 1,
          map (fun j => (nth j columns "a"%char, new_item (9 * i + j))) (seq 0 9)))
      (seq 0 10).

(** [JanggiBoard.__init__] *)
Definition new_JanggiBoard : JanggiBoard :=
  mkBoard new_board_dict new_store (mkLocations (9, "e"%char) (2, "e"%char)) false.

(** [JanggiBoard.parse_coordinate] *)
Definition parse_coordinate (string_location : string) : result coord :=
  column <- Py.getitem string_location 0 ;;
  row <- Py.int (string_of_list_ascii
                   (Py.slice string_location 1 (Py.len string_location))) ;;
  Ok (row, column).

(** ** Main.py *)

Inductive GameState : Type := UNFINISHED | RED_WON | BLUE_WON.

Record Checks : Type := mkChecks {
  check_BLUE : bool;
  check_RED : bool
}.

Record JanggiGame : Type := mkGame {
  current_board : JanggiBoard;
  game_state : GameState;
  current_turn : Color;
  in_check : Checks
}.

Definition G (A : Type) : Type := SE JanggiGame A.

Definition new_JanggiGame : JanggiGame :=
  mkGame new_JanggiBoard UNFINISHED BLUE (mkChecks false false).

Definition get_game_state (g : JanggiGame) : GameState := game_state g.

Definition get_current_turn (g : JanggiGame) : Color := current_turn g.

(** [is_in_check]; the player is given by colour. *)
Definition is_in_check (g : JanggiGame) (player : Color) : bool :=
  match player with
  | BLUE => check_BLUE (in_check g)
  | RED => check_RED (in_check g)
  end.

(** A board method called on [self._current_board]. *)
Definition on_board_object {A : Type} (m : M A) : G A :=
  fun g =>
    let (r, b) := m (current_board g) in
    (r, mkGame b (game_state g) (current_turn g) (in_check g)).

Definition checkmate_game (loser : Color) : G unit :=
  fun g =>
    (Ok tt,
     mkGame (current_board g)
       (match loser with RED => BLUE_WON | _ => RED_WON end)
       (current_turn g) (in_check g)).

Definition change_turn : G unit :=
  fun g =>
    (Ok tt,
     mkGame (current_board g) (game_state g)
       (match current_turn g with BLUE => RED | _ => BLUE end)
       (in_check g)).

Definition set_in_check (red blue : bool) : G unit :=
  fun g =>
    (Ok tt, mkGame (current_board g) (game_state g) (current_turn g)
              (mkChecks blue red)).

Definition update_check_status : G unit :=
  red_checked <~ on_board_object (read (fun s => get_general_check_status s RED)) ;;
  if red_checked then
    _ <~ set_in_check true false ;;
    _ <~ on_board_object update_checkmate_status ;;
    game_over <~ gets (fun g => get_checkmate_status (current_board g)) ;;
    if game_over then checkmate_game RED else mret tt
  else
    blue_checked <~ on_board_object (read (fun s => get_general_check_status s BLUE)) ;;
    if blue_checked then
      _ <~ set_in_check false true ;;
      _ <~ on_board_object update_checkmate_status ;;
      game_over <~ gets (fun g => get_checkmate_status (current_board g)) ;;
      if game_over then checkmate_game BLUE else mret tt
    else set_in_check false false.

Definition one_char (c : ascii) : string := String c EmptyString.

Definition char_neqb (a b : ascii) : bool := negb (Ascii.eqb a b).

(** The input validation of [make_move]; [false] stands for its
    [return False].  [or] evaluates its right operand only when the left
    one is false. *)
Definition input_validation (move_from move_to : string) : result bool :=
  from0 <- Py.getitem move_from 0 ;;
  bad_column <-
    (if negb (Py.contains (one_char (Py.lower from0)) "abcdefghi") then Ok true
     else (to0 <- Py.getitem move_to 0 ;;
           Ok (negb (Py.contains (one_char (Py.lower to0)) "abcdefghi")))) ;;
  if bad_column then Ok false
  else if (Py.len move_from <? 2) || (Py.len move_to <? 2) then Ok false
  else if Py.len move_from =? 3 then
    from1 <- Py.getitem move_from 1 ;;
    bad <- (if char_neqb from1 "1" then Ok true
            else (from2 <- Py.getitem move_from 2 ;; Ok (char_neqb from2 "0"))) ;;
    Ok (negb bad)
  else if Py.len move_to =? 3 then
    to1 <- Py.getitem move_to 1 ;;
    bad <- (if char_neqb to1 "1" then Ok true
            else (to2 <- Py.getitem move_to 2 ;; Ok (char_neqb to2 "0"))) ;;
    Ok (negb bad)
  else Ok true.

Definition GameState_eqb (a b : GameState) : bool :=
  match a, b with
  | UNFINISHED, UNFINISHED | RED_WON, RED_WON | BLUE_WON, BLUE_WON => true
  | _, _ => false
  end.

Definition make_move (move_from move_to : string) : G bool :=
  valid <~ read (fun _ => input_validation move_from move_to) ;;
  if negb valid then mret false
  else
    state <~ gets get_game_state ;;
    if negb (GameState_eqb state UNFINISHED) then mret false
    else
      turn <~ gets get_current_turn ;;
      checked <~ gets (fun g => is_in_check g turn) ;;
      if String.eqb move_from move_to && negb checked then
        _ <~ change_turn ;;
        mret true
      else
        parsed_move_from <~ read (fun _ => parse_coordinate move_from) ;;
        parsed_move_to <~ read (fun _ => parse_coordinate move_to) ;;
        move_made <~ on_board_object (move_piece parsed_move_from parsed_move_to turn) ;;
        if move_made then
          _ <~ change_turn ;;
          _ <~ update_check_status ;;
          mret true
        else mret false.

(** * Properties *)

(** ** Squares and pieces by enumeration *)

Lemma coord_eqb_eq (a b : coord) : coord_eqb a b = true <-> a = b.
Proof.
  destruct a as [r c], b as [r' c']; unfold coord_eqb; simpl.
  rewrite andb_true_iff, Z.eqb_eq, Ascii.eqb_eq.
  split; [intros [-> ->]; reflexivity | intros H; inversion H; auto].
Qed.

Lemma coord_eqb_refl (a : coord) : coord_eqb a a = true.
Proof. apply coord_eqb_eq; reflexivity. Qed.

Lemma coord_eqb_neq (a b : coord) : coord_eqb a b = false <-> a <> b.
Proof.
  rewrite <- coord_eqb_eq. destruct (coord_eqb a b); split; congruence.
Qed.

Lemma coord_in_In (k : coord) (l : list coord) : coord_in k l = true <-> In k l.
Proof.
  unfold coord_in. rewrite existsb_exists. split.
  - intros [x [Hx He]]. apply coord_eqb_eq in He. subst. exact Hx.
  - intros H. exists k. split; [exact H | apply coord_eqb_refl].
Qed.

Lemma in_columns_b (c : ascii) : existsb (Ascii.eqb c) columns = true <-> In c columns.
Proof.
  rewrite existsb_exists. split.
  - intros [x [Hx He]]. apply Ascii.eqb_eq in He. subst. exact Hx.
  - intros H. exists c. split; [exact H | apply Ascii.eqb_refl].
Qed.

Lemma on_boardb_iff (k : coord) : on_boardb k = true <-> on_board k.
Proof.
  unfold on_boardb, on_board.
  rewrite !andb_true_iff, !Z.leb_le, in_columns_b. tauto.
Qed.

Lemma in_rows (r : Z) : 1 <= r <= 10 <-> In r rows.
Proof.
  unfold rows; simpl. split; intros H; [| lia].
  assert (r = 1 \/ r = 2 \/ r = 3 \/ r = 4 \/ r = 5 \/ r = 6 \/ r = 7 \/ r = 8
          \/ r = 9 \/ r = 10) by lia.
  intuition.
Qed.

Lemma on_board_squares (k : coord) : on_board k <-> In k all_squares.
Proof.
  destruct k as [r c]. unfold on_board, all_squares. cbn [fst snd].
  rewrite in_rows. split.
  - intros [Hr Hc]. apply in_prod; assumption.
  - intros H. apply in_prod_iff in H. exact H.
Qed.

Lemma all_squares_forall (P : coord -> bool) :
  forallb P all_squares = true -> forall k, on_board k -> P k = true.
Proof.
  intros H k Hk. rewrite forallb_forall in H. apply H, on_board_squares, Hk.
Qed.

Definition colors : list Color := [RED; BLUE].

Definition kinds : list Kind :=
  [General; Guard; Horse; Elephant; Chariot; Cannon; Soldier].

(** Every piece that stands on a board square. *)
Definition pieces_on_squares : list BoardPiece :=
  flat_map (fun k => flat_map (fun c => map (mkPiece k c) kinds) colors) all_squares.

Lemma pieces_forall (P : BoardPiece -> bool) :
  forallb P pieces_on_squares = true ->
  forall p, on_board (current_pos p) -> P p = true.
Proof.
  intros H [k c kd] Hk. simpl in Hk. rewrite forallb_forall in H. apply H.
  unfold pieces_on_squares. apply in_flat_map. exists k. split.
  - apply on_board_squares, Hk.
  - apply in_flat_map. exists c. split.
    + destruct c; simpl; auto.
    + apply in_map. destruct kd; simpl; tauto.
Qed.

(** ** Movement ranges stay on the board *)

Definition in_palace (k : coord) : bool := coord_in k blue_palace || coord_in k red_palace.

Definition palace_kind (k : Kind) : bool :=
  match k with General | Guard => true | _ => false end.

(** The result of [get_movement_range] is a list of board squares. *)
Definition range_on_board (p : BoardPiece) : Prop :=
  exists l, get_movement_range p = Ok l /\ Forall on_board l.

Definition range_on_boardb (p : BoardPiece) : bool :=
  match get_movement_range p with
  | Ok l => forallb on_boardb l
  | Raise _ => false
  end.

Lemma range_on_boardb_iff (p : BoardPiece) :
  range_on_boardb p = true <-> range_on_board p.
Proof.
  unfold range_on_boardb, range_on_board. split.
  - destruct (get_movement_range p) as [l | e]; [| discriminate].
    intros H. exists l. split; [reflexivity |].
    apply Forall_forall. intros k Hk. rewrite forallb_forall in H.
    apply on_boardb_iff, H, Hk.
  - intros [l [-> H]]. apply forallb_forall. intros k Hk.
    rewrite Forall_forall in H. apply on_boardb_iff, H, Hk.
Qed.

Lemma range_on_board_all :
  forallb (fun p => (palace_kind (kind p) && Ascii.eqb (snd (current_pos p)) "i")
                    || range_on_boardb p)
          pieces_on_squares = true.
Proof. vm_compute. reflexivity. Qed.

Lemma range_on_board_except_i (p : BoardPiece) :
  on_board (current_pos p) ->
  (palace_kind (kind p) = true -> snd (current_pos p) <> "i"%char) ->
  range_on_board p.
Proof.
  intros Hpos Hcol.
  pose proof (pieces_forall _ range_on_board_all p Hpos) as H.
  cbv beta in H. apply orb_true_iff in H. destruct H as [H | H].
  - apply andb_true_iff in H. destruct H as [Hk Hc].
    apply Ascii.eqb_eq in Hc. exfalso. exact (Hcol Hk Hc).
  - apply range_on_boardb_iff, H.
Qed.

(** ** Dictionaries *)

Module DictFacts.
Section Facts.
Context {K V : Type} (eqb : K -> K -> bool).
Hypothesis eqb_eq : forall a b, eqb a b = true <-> a = b.

Lemma eqb_refl (k : K) : eqb k k = true.
Proof. apply eqb_eq. reflexivity. Qed.

Lemma eqb_neq (a b : K) : a <> b -> eqb a b = false.
Proof.
  intros H. destruct (eqb a b) eqn:E; [| reflexivity].
  apply eqb_eq in E. contradiction.
Qed.

Lemma get_set_same (k : K) (v : V) (d : list (K * V)) :
  Dict.get eqb k (Dict.set eqb k v d) = Some v.
Proof.
  induction d as [| [k' v'] d IH]; simpl.
  - rewrite eqb_refl. reflexivity.
  - destruct (eqb k k') eqn:E; simpl; rewrite E; auto.
Qed.

Lemma get_set_other (k k' : K) (v : V) (d : list (K * V)) :
  k <> k' -> Dict.get eqb k' (Dict.set eqb k v d) = Dict.get eqb k' d.
Proof.
  intros Hne. induction d as [| [k0 v0] d IH]; simpl.
  - rewrite eqb_neq; auto.
  - destruct (eqb k k0) eqn:E; simpl.
    + apply eqb_eq in E. subst k0. rewrite eqb_neq; auto.
    + rewrite IH. reflexivity.
Qed.

Lemma keys_set (k : K) (v : V) (d : list (K * V)) :
  In k (Dict.keys d) -> Dict.keys (Dict.set eqb k v d) = Dict.keys d.
Proof.
  induction d as [| [k0 v0] d IH]; simpl; [tauto |].
  intros H. destruct (eqb k k0) eqn:E; simpl; [reflexivity |].
  f_equal. apply IH. destruct H as [H | H]; [| exact H].
  subst k0. rewrite eqb_refl in E. discriminate.
Qed.

Lemma get_some_in (k : K) (v : V) (d : list (K * V)) :
  Dict.get eqb k d = Some v -> In (k, v) d.
Proof.
  induction d as [| [k0 v0] d IH]; simpl; [discriminate |].
  destruct (eqb k k0) eqn:E.
  - intros H. inversion H. apply eqb_eq in E. subst. left. reflexivity.
  - intros H. right. apply IH, H.
Qed.

Lemma in_keys_get (k : K) (d : list (K * V)) :
  In k (Dict.keys d) -> exists v, Dict.get eqb k d = Some v.
Proof.
  induction d as [| [k0 v0] d IH]; simpl; [tauto |].
  intros H. destruct (eqb k k0) eqn:E; [eauto |].
  destruct H as [H | H]; [| auto].
  subst k0. rewrite eqb_refl in E. discriminate.
Qed.

Lemma get_none_keys (k : K) (d : list (K * V)) :
  ~ In k (Dict.keys d) -> Dict.get eqb k d = None.
Proof.
  induction d as [| [k0 v0] d IH]; simpl; [reflexivity |].
  intros H. rewrite eqb_neq; [apply IH | ]; intuition.
Qed.

Lemma in_get (k : K) (v : V) (d : list (K * V)) :
  NoDup (Dict.keys d) -> In (k, v) d -> Dict.get eqb k d = Some v.
Proof.
  induction d as [| [k0 v0] d IH]; simpl; [tauto |].
  intros Hnd H. inversion Hnd as [| ? ? Hni Hnd']; subst.
  destruct H as [H | H].
  - inversion H; subst. rewrite eqb_refl. reflexivity.
  - destruct (eqb k k0) eqn:E.
    + apply eqb_eq in E. subst k0. exfalso. apply Hni.
      apply (in_map fst) in H. exact H.
    + apply IH; assumption.
Qed.

(** Two dictionaries with the same keys in the same order and the same
    value at every key are equal. *)
Lemma ext (d d' : list (K * V)) :
  NoDup (Dict.keys d) ->
  Dict.keys d = Dict.keys d' ->
  (forall k, In k (Dict.keys d) -> Dict.get eqb k d = Dict.get eqb k d') ->
  d = d'.
Proof.
  revert d'. induction d as [| [k v] d IH]; intros [| [k' v'] d'] Hnd Hk Hg;
    simpl in *; try discriminate; [reflexivity |].
  inversion Hk; subst k'. inversion Hnd as [| ? ? Hni Hnd']; subst.
  pose proof (Hg k (or_introl eq_refl)) as Hv. rewrite eqb_refl in Hv.
  inversion Hv; subst v'. f_equal.
  apply IH; auto. intros k0 Hk0.
  specialize (Hg k0 (or_intror Hk0)).
  destruct (eqb k0 k) eqn:E; [| exact Hg].
  apply eqb_eq in E. subst k0. contradiction.
Qed.
End Facts.
End DictFacts.

(** ** The grid *)

Definition board_complete (b : board_dict) : Prop :=
  Dict.keys b = rows /\ Forall (fun r => Dict.keys (snd r) = columns) b.

Lemma rows_NoDup : NoDup rows.
Proof. unfold rows. repeat constructor; simpl; intuition; discriminate. Qed.

Lemma columns_NoDup : NoDup columns.
Proof. unfold columns. repeat constructor; simpl; intuition; discriminate. Qed.

Lemma set_row_columns (r : Z) (row : row_dict) (b : board_dict) :
  Forall (fun x => Dict.keys (snd x) = columns) b ->
  Dict.keys row = columns ->
  Forall (fun x => Dict.keys (snd x) = columns) (Dict.set Z.eqb r row b).
Proof.
  intros Hf Hrow. induction b as [| [r0 row0] b0 IH]; simpl.
  - constructor; [exact Hrow | constructor].
  - inversion Hf; subst. destruct (r =? r0); constructor; auto.
Qed.

Section Grid.
Variable b : board_dict.
Hypothesis Hb : board_complete b.

Lemma row_get (r : Z) :
  1 <= r <= 10 ->
  exists row, Dict.get Z.eqb r b = Some row /\ Dict.keys row = columns.
Proof.
  intros Hr. destruct Hb as [Hk Hrows].
  destruct (DictFacts.in_keys_get Z.eqb Z.eqb_eq r b) as [row Hrow].
  - rewrite Hk. apply in_rows, Hr.
  - exists row. split; [exact Hrow |].
    apply DictFacts.get_some_in in Hrow; [| apply Z.eqb_eq].
    rewrite Forall_forall in Hrows. apply (Hrows _ Hrow).
Qed.

Lemma board_get_on_board (k : coord) :
  on_board k -> exists item, board_get b k = Ok item.
Proof.
  intros [Hr Hc]. unfold board_get.
  destruct (row_get _ Hr) as [row [-> Hrow]].
  destruct (DictFacts.in_keys_get Ascii.eqb Ascii.eqb_eq (snd k) row) as [item ->].
  - rewrite Hrow. exact Hc.
  - eauto.
Qed.

Lemma board_get_ok_on_board (k : coord) (item : option ref) :
  board_get b k = Ok item -> on_board k.
Proof.
  unfold board_get. destruct Hb as [Hk Hrows].
  destruct (Dict.get Z.eqb (fst k) b) as [row |] eqn:Er; [| discriminate].
  destruct (Dict.get Ascii.eqb (snd k) row) as [v |] eqn:Ec; [| discriminate].
  intros _. apply DictFacts.get_some_in in Er; [| apply Z.eqb_eq].
  split.
  - apply in_rows. rewrite <- Hk. apply (in_map fst) in Er. exact Er.
  - rewrite Forall_forall in Hrows. specialize (Hrows _ Er). simpl in Hrows.
    rewrite <- Hrows. apply DictFacts.get_some_in in Ec; [| apply Ascii.eqb_eq].
    apply (in_map fst) in Ec. exact Ec.
Qed.

Lemma board_get_off_board (k : coord) :
  ~ on_board k -> board_get b k = Raise KeyError.
Proof.
  intros Hk. destruct (board_get b k) as [item | e] eqn:E.
  - exfalso. apply Hk. eapply board_get_ok_on_board; eauto.
  - unfold board_get in E.
    destruct (Dict.get Z.eqb (fst k) b) as [row |]; [| congruence].
    destruct (Dict.get Ascii.eqb (snd k) row); congruence.
Qed.

Lemma board_set_on_board (k : coord) (v : option ref) :
  on_board k ->
  exists b', board_set b k v = Ok b'
             /\ board_complete b'
             /\ board_get b' k = Ok v
             /\ forall k', k' <> k -> board_get b' k' = board_get b k'.
Proof.
  intros [Hr Hc]. unfold board_set.
  destruct (row_get _ Hr) as [row [Hrow Hkeys]]. rewrite Hrow.
  eexists. split; [reflexivity |]. destruct Hb as [Hk Hrows].
  assert (Hin : In (fst k) (Dict.keys b)) by (rewrite Hk; apply in_rows, Hr).
  assert (Hinc : In (snd k) (Dict.keys row)) by (rewrite Hkeys; exact Hc).
  split; [| split].
  - split.
    + rewrite DictFacts.keys_set; auto. apply Z.eqb_eq.
    + apply set_row_columns; [exact Hrows |].
      rewrite DictFacts.keys_set; auto. apply Ascii.eqb_eq.
  - unfold board_get.
    rewrite DictFacts.get_set_same by apply Z.eqb_eq.
    rewrite DictFacts.get_set_same by apply Ascii.eqb_eq. reflexivity.
  - intros [r' c'] Hne. unfold board_get. simpl.
    destruct (Z.eq_dec (fst k) r') as [E | E].
    + subst r'. rewrite DictFacts.get_set_same by apply Z.eqb_eq. rewrite Hrow.
      rewrite DictFacts.get_set_other; [reflexivity | apply Ascii.eqb_eq |].
      intros Ec. apply Hne. destruct k; simpl in *; subst; reflexivity.
    + rewrite DictFacts.get_set_other; [reflexivity | apply Z.eqb_eq | exact E].
Qed.

Lemma board_ext (b' : board_dict) :
  board_complete b' ->
  (forall k, on_board k -> board_get b k = board_get b' k) ->
  b = b'.
Proof.
  intros Hb' Hget. destruct Hb as [Hk Hrows]. destruct Hb' as [Hk' Hrows'].
  apply (DictFacts.ext Z.eqb Z.eqb_eq).
  - rewrite Hk. apply rows_NoDup.
  - congruence.
  - intros r Hr. rewrite Hk in Hr. apply in_rows in Hr.
    destruct (row_get _ Hr) as [row [Hrow Hkeys]]. rewrite Hrow.
    destruct (DictFacts.in_keys_get Z.eqb Z.eqb_eq r b') as [row' Hrow'].
    { rewrite Hk'. apply in_rows, Hr. }
    rewrite Hrow'. f_equal.
    assert (Hkeys' : Dict.keys row' = columns).
    { pose proof Hrow' as Hi. apply DictFacts.get_some_in in Hi; [| apply Z.eqb_eq].
      rewrite Forall_forall in Hrows'. apply (Hrows' _ Hi). }
    apply (DictFacts.ext Ascii.eqb Ascii.eqb_eq).
    + rewrite Hkeys. apply columns_NoDup.
    + congruence.
    + intros c Hc. rewrite Hkeys in Hc.
      assert (Hon : on_board (r, c)) by (split; assumption).
      specialize (Hget _ Hon). unfold board_get in Hget. simpl in Hget.
      rewrite Hrow, Hrow' in Hget.
      destruct (DictFacts.in_keys_get Ascii.eqb Ascii.eqb_eq c row) as [v Hv];
        [rewrite Hkeys; exact Hc |].
      destruct (DictFacts.in_keys_get Ascii.eqb Ascii.eqb_eq c row') as [v' Hv'];
        [rewrite Hkeys'; exact Hc |].
      rewrite Hv, Hv' in *. congruence.
Qed.
End Grid.

Lemma board_keys_flat (b : board_dict) :
  Forall (fun r => Dict.keys (snd r) = columns) b ->
  flat_map (fun r => map (fun c => (fst r, c)) (Dict.keys (snd r))) b
  = list_prod (Dict.keys b) columns.
Proof.
  induction 1 as [| [r row] b0 Hrow Hf IH]; simpl; [reflexivity |].
  simpl in Hrow. rewrite Hrow, IH. reflexivity.
Qed.

Lemma board_keys_complete (s : JanggiBoard) :
  board_complete (board s) -> board_keys s = all_squares.
Proof.
  intros [Hk Hrows]. unfold board_keys, all_squares.
  rewrite board_keys_flat by exact Hrows. rewrite Hk. reflexivity.
Qed.

Lemma board_get_items (s : JanggiBoard) (k : coord) (item : option ref) :
  board_get (board s) k = Ok item -> In item (board_items s).
Proof.
  unfold board_get, board_items.
  destruct (Dict.get Z.eqb (fst k) (board s)) as [row |] eqn:Er; [| discriminate].
  destruct (Dict.get Ascii.eqb (snd k) row) as [v |] eqn:Ec; [| discriminate].
  intros H. inversion H; subst v.
  apply DictFacts.get_some_in in Er; [| apply Z.eqb_eq].
  apply DictFacts.get_some_in in Ec; [| apply Ascii.eqb_eq].
  apply in_flat_map. exists row. split.
  - apply (in_map snd) in Er. exact Er.
  - apply (in_map snd) in Ec. exact Ec.
Qed.

Lemma board_items_get (s : JanggiBoard) (item : option ref) :
  board_complete (board s) ->
  In item (board_items s) ->
  exists k, on_board k /\ board_get (board s) k = Ok item.
Proof.
  intros Hb Hin. pose proof Hb as [Hk Hrows].
  unfold board_items in Hin. apply in_flat_map in Hin.
  destruct Hin as [row [Hrow Hitem]].
  apply in_map_iff in Hrow. destruct Hrow as [[r row'] [E Hrow]]. simpl in E. subst row'.
  apply in_map_iff in Hitem. destruct Hitem as [[c v] [E Hitem]]. simpl in E. subst v.
  assert (Hg : board_get (board s) (r, c) = Ok item).
  { assert (Er : Dict.get Z.eqb r (board s) = Some row).
    { apply DictFacts.in_get; auto using Z.eqb_eq. rewrite Hk. apply rows_NoDup. }
    assert (Ec : Dict.get Ascii.eqb c row = Some item).
    { apply DictFacts.in_get; auto using Ascii.eqb_eq.
      rewrite Forall_forall in Hrows. specialize (Hrows _ Hrow). simpl in Hrows.
      rewrite Hrows. apply columns_NoDup. }
    unfold board_get. simpl. rewrite Er, Ec. reflexivity. }
  exists (r, c). split; [| exact Hg].
  eapply board_get_ok_on_board; eauto.
Qed.

(** ** Invariants of the board object *)

(** A piece stands on a board square, a General or Guard inside a palace. *)
Definition piece_ok (p : BoardPiece) : Prop :=
  on_board (current_pos p)
  /\ (palace_kind (kind p) = true -> in_palace (current_pos p) = true).

Definition piece_okb (p : BoardPiece) : bool :=
  on_boardb (current_pos p)
  && implb (palace_kind (kind p)) (in_palace (current_pos p)).

Lemma piece_okb_iff (p : BoardPiece) : piece_okb p = true <-> piece_ok p.
Proof.
  unfold piece_okb, piece_ok. rewrite andb_true_iff, on_boardb_iff.
  destruct (palace_kind (kind p)); simpl; intuition congruence.
Qed.

(** The grid has its 90 cells, the General locations are board squares, and
    each piece on the grid is [piece_ok]. *)
Record well_formed (s : JanggiBoard) : Prop := {
  wf_complete : board_complete (board s);
  wf_locations : forall c, on_board (loc_get (general_locations s) c);
  wf_pieces : forall k q, board_get (board s) k = Ok (Some q) -> piece_ok (store s q)
}.

(** A piece on the grid records the cell it stands on. *)
Definition positions_consistent (s : JanggiBoard) : Prop :=
  forall k q, board_get (board s) k = Ok (Some q) -> current_pos (store s q) = k.

(** The cell at each General location is occupied. *)
Definition locations_occupied (s : JanggiBoard) : Prop :=
  forall c, exists g,
    board_get (board s) (loc_get (general_locations s) c) = Ok (Some g).

Record invariant (s : JanggiBoard) : Prop := {
  inv_wf : well_formed s;
  inv_positions : positions_consistent s;
  inv_occupied : locations_occupied s
}.

(** ** Reading the board never raises on a well-formed board *)

Lemma any_r_total {A : Type} (f : A -> result bool) (l : list A) :
  (forall x, In x l -> exists b, f x = Ok b) -> exists b, any_r f l = Ok b.
Proof.
  induction l as [| x l IH]; simpl; intros H; [eauto |].
  destruct (H x (or_introl eq_refl)) as [b ->]. simpl.
  destruct b; [eauto |]. apply IH. intros y Hy. apply H. right. exact Hy.
Qed.

Lemma collect_r_total {A B : Type} (f : A -> result (list B)) (l : list A) :
  (forall x, In x l -> exists ys, f x = Ok ys) -> exists r, collect_r f l = Ok r.
Proof.
  induction l as [| x l IH]; simpl; intros H; [eauto |].
  destruct (H x (or_introl eq_refl)) as [ys ->]. simpl.
  destruct IH as [zs ->]; [intros y Hy; apply H; right; exact Hy |].
  simpl. eauto.
Qed.

Lemma index_columns (c : ascii) :
  In c columns -> exists i, Py.index alphabet c = Ok i /\ 0 <= i <= 8.
Proof.
  unfold columns. simpl. intros H.
  repeat (destruct H as [<- | H]; [eexists; split; [reflexivity | lia] |]).
  contradiction.
Qed.

Lemma getitem_alphabet (i : Z) :
  -9 <= i <= 8 -> exists c, Py.getitem alphabet i = Ok c /\ In c columns.
Proof.
  intros H.
  assert (E : In i [-9; -8; -7; -6; -5; -4; -3; -2; -1; 0; 1; 2; 3; 4; 5; 6; 7; 8]).
  { simpl. lia. }
  simpl in E.
  repeat (destruct E as [<- | E];
          [eexists; split; [reflexivity | unfold columns; simpl; tauto] |]).
  contradiction.
Qed.

Lemma alphabet_chars (c : ascii) :
  In c (list_ascii_of_string alphabet) <-> In c columns.
Proof. reflexivity. Qed.

Lemma in_firstn {A : Type} (n : nat) (l : list A) (x : A) :
  In x (firstn n l) -> In x l.
Proof.
  intros H. rewrite <- (firstn_skipn n l). apply in_or_app. left. exact H.
Qed.

Lemma in_skipn {A : Type} (n : nat) (l : list A) (x : A) :
  In x (skipn n l) -> In x l.
Proof.
  intros H. rewrite <- (firstn_skipn n l). apply in_or_app. right. exact H.
Qed.

Lemma slice_alphabet (a b : Z) (c : ascii) :
  In c (Py.slice alphabet a b) -> In c columns.
Proof.
  unfold Py.slice. intros H. apply in_firstn, in_skipn in H.
  apply alphabet_chars, H.
Qed.

Lemma get_alphabet (n : nat) (c : ascii) :
  String.get n alphabet = Some c -> In c columns.
Proof.
  unfold alphabet, columns.
  do 9 (destruct n as [| n]; [simpl; intros H; inversion H; simpl; tauto |]).
  simpl. discriminate.
Qed.

Lemma slice_rev_alphabet (a b : Z) (c : ascii) :
  In c (Py.slice_rev alphabet a b) -> In c columns.
Proof.
  unfold Py.slice_rev. intros H. apply in_flat_map in H.
  destruct H as [i [_ H]].
  destruct (String.get (Z.to_nat i) alphabet) as [c' |] eqn:E; simpl in H; [| tauto].
  destruct H as [<- | []]. eapply get_alphabet; eauto.
Qed.

Lemma range_up_bounds (a b r : Z) : In r (Py.range_up a b) -> a <= r < b.
Proof.
  unfold Py.range_up. intros H. apply in_map_iff in H.
  destruct H as [i [<- Hi]]. apply in_seq in Hi. lia.
Qed.

Lemma range_down_bounds (a b r : Z) : In r (Py.range_down a b) -> b < r <= a.
Proof.
  unfold Py.range_down. intros H. apply in_map_iff in H.
  destruct H as [i [<- Hi]]. apply in_seq in Hi. lia.
Qed.

Lemma rbind_total {A B : Type} (P : A -> Prop) (m : result A) (f : A -> result B) :
  (exists a, m = Ok a /\ P a) ->
  (forall a, P a -> exists b, f a = Ok b) ->
  exists b, rbind m f = Ok b.
Proof. intros [a [-> Ha]] Hf. simpl. apply Hf, Ha. Qed.

Lemma rbind_total' {A B : Type} (m : result A) (f : A -> result B) :
  (exists a, m = Ok a) ->
  (forall a, exists b, f a = Ok b) ->
  exists b, rbind m f = Ok b.
Proof. intros [a ->] Hf. simpl. apply Hf. Qed.

Section Reads.
Variable s : JanggiBoard.
Hypothesis Hb : board_complete (board s).

Lemma contents_on_board (k : coord) :
  on_board k -> exists item, get_location_contents s k = Ok item.
Proof. apply board_get_on_board, Hb. Qed.

Lemma found_at_total (k : coord) :
  on_board k -> exists l, found_at s k = Ok l.
Proof.
  intros Hk. unfold found_at.
  apply rbind_total'; [apply contents_on_board, Hk |].
  intros [q |]; eauto.
Qed.

Lemma pieces_in_orthogonal_path_total (move_from move_to : coord) (sf : string) :
  on_board move_from -> on_board move_to ->
  exists a, pieces_in_orthogonal_path s move_from move_to sf = Ok a.
Proof.
  intros [Hfr Hfc] [Htr Htc]. unfold pieces_in_orthogonal_path.
  apply rbind_total'.
  - destruct (fst move_from =? fst move_to).
    + apply (rbind_total (fun i => True)).
      { destruct (index_columns _ Hfc) as [i [-> _]]. eauto. }
      intros i _. apply rbind_total'.
      { destruct (index_columns _ Htc) as [j [-> _]]. eauto. }
      intros j. apply rbind_total'.
      { destruct (Py.char_ltb _ _); [| eauto]. apply collect_r_total.
        intros c Hc. apply found_at_total. split; [exact Hfr |].
        eapply slice_alphabet; eauto. }
      intros east. apply rbind_total'; [| eauto].
      destruct (Py.char_ltb _ _); [| eauto]. apply collect_r_total.
      intros c Hc. apply found_at_total. split; [exact Hfr |].
      eapply slice_rev_alphabet; eauto.
    + destruct (Ascii.eqb (snd move_from) (snd move_to)).
      * cbv zeta. apply rbind_total'.
        { destruct (_ >? _); [| eauto]. apply collect_r_total.
          intros r Hr. apply range_down_bounds in Hr.
          apply found_at_total. split; simpl; [lia | exact Hfc]. }
        intros north. apply rbind_total'; [| eauto].
        destruct (_ <? _); [| eauto]. apply collect_r_total.
        intros r Hr. apply range_up_bounds in Hr.
        apply found_at_total. split; simpl; [lia | exact Hfc].
      * destruct (_ || _); [| eauto].
        destruct (_ <=? _); apply found_at_total; apply on_boardb_iff; reflexivity.
  - intros found. destruct (String.eqb sf "ANY"); [eauto |].
    destruct (existsb _ found); eauto.
Qed.

Lemma is_horse_path_blocked_total (horse : ref) (move_to : coord) :
  on_board (current_pos (store s horse)) -> on_board move_to ->
  exists b, is_horse_path_blocked s horse move_to = Ok b.
Proof.
  intros [Hfr Hfc] [Htr Htc]. unfold is_horse_path_blocked, get_current_pos.
  apply (rbind_total (fun i => 0 <= i <= 8)); [apply index_columns, Hfc |].
  intros i Hi.
  apply (rbind_total (fun j => 0 <= j <= 8)); [apply index_columns, Htc |].
  intros j Hj. apply rbind_total'; [| eauto].
  destruct (Z.eqb_spec (Z.abs (fst move_to - fst (current_pos (store s horse)))) 2).
  - destruct (Z.gtb_spec (fst move_to - fst (current_pos (store s horse))) 0);
      apply contents_on_board; split; simpl; try lia; exact Hfc.
  - destruct (Z.gtb_spec (j - i) 0).
    + apply (rbind_total (fun c => In c columns)); [apply getitem_alphabet; lia |].
      intros c Hc. apply contents_on_board. split; simpl; assumption.
    + apply (rbind_total (fun c => In c columns)); [apply getitem_alphabet; lia |].
      intros c Hc. apply contents_on_board. split; simpl; assumption.
Qed.
End Reads.

Definition Kind_eqb (a b : Kind) : bool :=
  match a, b with
  | General, General | Guard, Guard | Horse, Horse | Elephant, Elephant
  | Chariot, Chariot | Cannon, Cannon | Soldier, Soldier => true
  | _, _ => false
  end.

Lemma Kind_eqb_eq (a b : Kind) : Kind_eqb a b = true <-> a = b.
Proof. destruct a, b; simpl; split; congruence. Qed.

(** The substring tests of the source on [get_name] tell the class. *)
Lemma contains_kind (p : BoardPiece) (k : Kind) :
  Py.contains (kind_name k) (get_name p) = Kind_eqb (kind p) k.
Proof. destruct p as [pos c kd]. destruct c, kd, k; reflexivity. Qed.

Lemma Color_eqb_eq (a b : Color) : Color_eqb a b = true <-> a = b.
Proof. destruct a, b; simpl; split; congruence. Qed.

(** An Elephant destination is a (3,2) or a (2,3) jump away. *)
Definition elephant_shapeb (p : BoardPiece) : bool :=
  match get_movement_range p, Py.index alphabet (snd (current_pos p)) with
  | Ok l, Ok i =>
      forallb (fun m =>
                 match Py.index alphabet (snd m) with
                 | Ok j =>
                     let ns := Z.abs (fst m - fst (current_pos p)) in
                     let ew := Z.abs (j - i) in
                     ((ns =? 3) && (ew =? 2)) || ((ns =? 2) && (ew =? 3))
                 | Raise _ => false
                 end) l
  | _, _ => false
  end.

Lemma elephant_shape_all :
  forallb (fun p => implb (Kind_eqb (kind p) Elephant) (elephant_shapeb p))
          pieces_on_squares = true.
Proof. vm_compute. reflexivity. Qed.

Lemma elephant_shape (p : BoardPiece) (l : list coord) (m : coord) :
  on_board (current_pos p) -> kind p = Elephant ->
  get_movement_range p = Ok l -> In m l ->
  exists i j,
    Py.index alphabet (snd (current_pos p)) = Ok i
    /\ Py.index alphabet (snd m) = Ok j
    /\ ((Z.abs (fst m - fst (current_pos p)) = 3 /\ Z.abs (j - i) = 2)
        \/ (Z.abs (fst m - fst (current_pos p)) = 2 /\ Z.abs (j - i) = 3)).
Proof.
  intros Hpos Hk Hl Hm.
  pose proof (pieces_forall _ elephant_shape_all p Hpos) as H.
  cbv beta in H. rewrite Hk in H. simpl in H. unfold elephant_shapeb in H. rewrite Hl in H.
  destruct (Py.index alphabet (snd (current_pos p))) as [i | e]; [| discriminate].
  rewrite forallb_forall in H. specialize (H m Hm).
  destruct (Py.index alphabet (snd m)) as [j | e]; [| discriminate].
  exists i, j. split; [reflexivity |]. split; [reflexivity |].
  cbv zeta in H. apply orb_true_iff in H.
  destruct H as [H | H]; apply andb_true_iff in H; destruct H as [H1 H2];
    apply Z.eqb_eq in H1, H2; [left | right]; split; assumption.
Qed.

Section ReadsElephant.
Variable s : JanggiBoard.
Hypothesis Hb : board_complete (board s).

Lemma is_elephant_path_blocked_total (elephant : ref) (l : list coord)
    (move_to : coord) :
  on_board (current_pos (store s elephant)) ->
  kind (store s elephant) = Elephant ->
  get_movement_range (store s elephant) = Ok l ->
  In move_to l -> on_board move_to ->
  exists b, is_elephant_path_blocked s elephant move_to = Ok b.
Proof.
  intros Hfrom Hk Hl Hin Hto.
  destruct (elephant_shape _ _ _ Hfrom Hk Hl Hin) as [i [j [Hi [Hj Hshape]]]].
  destruct Hfrom as [Hfr Hfc]. destruct Hto as [Htr Htc].
  destruct (index_columns _ Hfc) as [i' [Hi' Hib]].
  destruct (index_columns _ Htc) as [j' [Hj' Hjb]].
  assert (i' = i) by congruence. assert (j' = j) by congruence. subst i' j'.
  unfold is_elephant_path_blocked, get_current_pos.
  rewrite Hi, Hj. cbn [rbind].
  apply rbind_total'; [| eauto].
  set (r := fst (current_pos (store s elephant))) in *.
  set (c := snd (current_pos (store s elephant))) in *.
  assert (Hcell : forall r' x, 1 <= r' <= 10 -> -9 <= x <= 8 ->
            forall (k : option ref -> result (list (option ref))),
              (forall item, exists v, k item = Ok v) ->
              exists v, (column <- Py.getitem alphabet x ;;
                         second <- get_location_contents s (r', column) ;;
                         k second) = Ok v).
  { intros r' x Hr' Hx k Hkk.
    apply (rbind_total (fun c => In c columns)); [apply getitem_alphabet, Hx |].
    intros c0 Hc0. apply rbind_total'; [| exact Hkk].
    apply (contents_on_board s Hb). split; simpl; assumption. }
  assert (Hfirst : forall r' c', 1 <= r' <= 10 -> In c' columns ->
            forall (k : option ref -> result (list (option ref))),
              (forall item, exists v, k item = Ok v) ->
              exists v, (first <- get_location_contents s (r', c') ;; k first) = Ok v).
  { intros r' c' Hr' Hc' k Hkk. apply rbind_total'; [| exact Hkk].
    apply (contents_on_board s Hb). split; simpl; assumption. }
  destruct (Z.eqb_spec (Z.abs (fst move_to - r)) 3) as [E3 | E3].
  - destruct (Z.gtb_spec (fst move_to - r) 0).
    + apply Hfirst; [lia | exact Hfc |]. intros first.
      destruct (Z.gtb_spec (j - i) 0); apply Hcell; eauto; lia.
    + apply Hfirst; [lia | exact Hfc |]. intros first.
      destruct (Z.gtb_spec (j - i) 0); apply Hcell; eauto; lia.
  - destruct (Z.gtb_spec (j - i) 0).
    + apply (rbind_total (fun c => In c columns)); [apply getitem_alphabet; lia |].
      intros c1 Hc1. apply Hfirst; [lia | exact Hc1 |]. intros first.
      destruct (Z.gtb_spec (fst move_to - r) 0); apply Hcell; eauto; lia.
    + apply (rbind_total (fun c => In c columns)); [apply getitem_alphabet; lia |].
      intros c1 Hc1. apply Hfirst; [lia | exact Hc1 |]. intros first.
      destruct (Z.gtb_spec (fst move_to - r) 0); apply Hcell; eauto; lia.
Qed.

(** The rules of the legality check read squares of the board only. *)
Lemma legality_rules_total (move_to : coord) (piece : ref) (current_turn : Color)
    (l : list coord) :
  on_board (current_pos (store s piece)) ->
  get_movement_range (store s piece) = Ok l ->
  Forall on_board l ->
  exists b, legality_rules s move_to piece current_turn l = Ok b.
Proof.
  intros Hpos Hl Hon. unfold legality_rules.
  destruct (negb (Color_eqb _ _)); [eauto |].
  destruct (coord_in move_to l) eqn:Hin; simpl; [| eauto].
  apply coord_in_In in Hin.
  assert (Hto : on_board move_to) by (rewrite Forall_forall in Hon; auto).
  apply rbind_total'; [apply (contents_on_board s Hb), Hto |].
  intros target.
  destruct (occupied_by s target _); [eauto |].
  destruct (occupied_by s target _); [eauto |].
  destruct (_ && _); [eauto |].
  pose proof (contains_kind (store s piece) Elephant) as HE.
  pose proof (contains_kind (store s piece) Horse) as HH.
  simpl kind_name in HE, HH.
  apply rbind_total'.
  { destruct (Py.contains "CHARIOT" _); [| eauto].
    apply rbind_total'; [| eauto].
    apply pieces_in_orthogonal_path_total; assumption. }
  intros [|]; [eauto |].
  apply rbind_total'.
  { destruct (Py.contains "CANNON" _); [| eauto].
    apply rbind_total'; [apply pieces_in_orthogonal_path_total; assumption |].
    intros n. destruct (negb _); [eauto |].
    apply rbind_total'; [| eauto].
    apply pieces_in_orthogonal_path_total; assumption. }
  intros [|]; [eauto |].
  apply rbind_total'.
  { rewrite HE. destruct (Kind_eqb _ Elephant) eqn:E; [| eauto].
    apply Kind_eqb_eq in E.
    eapply is_elephant_path_blocked_total; eauto. }
  intros [|]; [eauto |].
  apply rbind_total'.
  { rewrite HH. destruct (Kind_eqb _ Horse) eqn:E; [| eauto].
    apply is_horse_path_blocked_total; assumption. }
  intros [|]; eauto.
Qed.
End ReadsElephant.

Lemma palace_not_column_i (k : coord) : in_palace k = true -> snd k <> "i"%char.
Proof.
  unfold in_palace. rewrite orb_true_iff, !coord_in_In.
  unfold blue_palace, red_palace. simpl.
  intros [H | H];
    repeat (destruct H as [<- | H]; [simpl; discriminate |]); contradiction.
Qed.

Lemma piece_ok_range (p : BoardPiece) : piece_ok p -> range_on_board p.
Proof.
  intros [Hpos Hpal]. apply range_on_board_except_i; [exact Hpos |].
  intros Hk. apply palace_not_column_i, Hpal, Hk.
Qed.

Section ReadsWellFormed.
Variable s : JanggiBoard.
Hypothesis Hwf : well_formed s.

Lemma pass_legality_check_hypothetical_total (move_to : coord) (piece : ref)
    (current_turn : Color) :
  piece_ok (store s piece) ->
  exists b, pass_legality_check_hypothetical s move_to piece current_turn = Ok b.
Proof.
  intros Hp. destruct (piece_ok_range _ Hp) as [l [Hl Hon]].
  unfold pass_legality_check_hypothetical. rewrite Hl. cbn [rbind].
  apply rbind_total'.
  - apply contents_on_board; [apply Hwf | apply Hwf].
  - intros _. apply legality_rules_total; auto; [apply Hwf | apply Hp].
Qed.

Lemma item_piece_ok (q : ref) : In (Some q) (board_items s) -> piece_ok (store s q).
Proof.
  intros H. destruct (board_items_get s _ (wf_complete s Hwf) H) as [k [_ Hk]].
  eapply wf_pieces; eauto.
Qed.

Lemma get_general_check_status_total (general_color : Color) :
  exists b, get_general_check_status s general_color = Ok b.
Proof.
  unfold get_general_check_status. apply any_r_total.
  intros [q |] Hq; [| eauto].
  destruct (negb _); [| eauto].
  pose proof (item_piece_ok q Hq) as Hp.
  destruct (piece_ok_range _ Hp) as [l [-> Hon]]. cbn [rbind].
  apply any_r_total. intros m Hm.
  destruct (coord_eqb _ _); [| eauto].
  apply pass_legality_check_hypothetical_total, Hp.
Qed.

Lemma safe_general_move_check_total (opposing_color : Color) (move_to : coord) :
  exists b, safe_general_move_check s opposing_color move_to = Ok b.
Proof.
  unfold safe_general_move_check. apply rbind_total'.
  - apply collect_r_total. intros [q |] Hq; [| eauto].
    destruct (Color_eqb _ _); [| eauto].
    destruct (piece_ok_range _ (item_piece_ok q Hq)) as [l [-> _]]. eauto.
  - intros zone. destruct (coord_in _ _); eauto.
Qed.

Lemma stuck_check_zone_total (opposing_color : Color) :
  exists zone, stuck_check_zone s opposing_color = Ok zone.
Proof.
  unfold stuck_check_zone. apply collect_r_total.
  intros [q |] Hq; [| eauto].
  destruct (Color_eqb _ _); [| eauto].
  pose proof (item_piece_ok q Hq) as Hp.
  destruct (piece_ok_range _ Hp) as [l [-> _]]. cbn [rbind].
  apply collect_r_total. intros m Hm.
  apply rbind_total'; [| eauto].
  apply pass_legality_check_hypothetical_total, Hp.
Qed.

Lemma is_general_stuck_total (g : ref) (opposing_color : Color) :
  piece_ok (store s g) ->
  exists b, is_general_stuck s (Some g) opposing_color = Ok b.
Proof.
  intros Hp. unfold is_general_stuck.
  destruct (piece_ok_range _ Hp) as [l [-> _]]. cbn [rbind]. cbv zeta.
  apply rbind_total'; [apply stuck_check_zone_total |].
  intros zone. apply rbind_total'.
  - apply collect_r_total. intros m Hm.
    destruct (negb _); [| eauto].
    apply rbind_total'; [| eauto].
    apply pass_legality_check_hypothetical_total, Hp.
  - intros esc. destruct (_ =? _); eauto.
Qed.
End ReadsWellFormed.

(** ** Methods that write and restore *)

(** [lands ok m s]: run from [s], the method [m] leaves the object as it
    found it, and returns a value whenever [ok] holds. *)
Definition lands {A : Type} (ok : Prop) (m : M A) (s : JanggiBoard) : Prop :=
  exists r, m s = (r, s) /\ (ok -> exists a, r = Ok a).

Lemma lands_ret {A : Type} (ok : Prop) (a : A) (s : JanggiBoard) :
  lands ok (mret a) s.
Proof. exists (Ok a). split; [reflexivity | eauto]. Qed.

Lemma lands_bind {A B : Type} (ok : Prop) (m : M A) (f : A -> M B) (s : JanggiBoard) :
  lands ok m s ->
  (forall a, m s = (Ok a, s) -> lands ok (f a) s) ->
  lands ok (mbind m f) s.
Proof.
  intros [r [Hm Hok]] Hf. destruct r as [a | e].
  - destruct (Hf a Hm) as [r' [Hr' Hok']]. exists r'. split; [| exact Hok'].
    unfold mbind. rewrite Hm. exact Hr'.
  - exists (Raise e). split; [unfold mbind; rewrite Hm; reflexivity |].
    intros H. destruct (Hok H) as [a Ha]. discriminate.
Qed.

Lemma lands_read {A : Type} (ok : Prop) (f : JanggiBoard -> result A) (s : JanggiBoard) :
  (ok -> exists a, f s = Ok a) -> lands ok (read f) s.
Proof. intros H. exists (f s). split; [reflexivity | exact H]. Qed.

Lemma lands_gets {A : Type} (ok : Prop) (f : JanggiBoard -> A) (s : JanggiBoard) :
  lands ok (gets f) s.
Proof. exists (Ok (f s)). split; [reflexivity | eauto]. Qed.

Lemma lands_any_M {A : Type} (ok : Prop) (f : A -> M bool) (l : list A)
    (s : JanggiBoard) :
  (forall x, In x l -> lands ok (f x) s) -> lands ok (any_M f l) s.
Proof.
  induction l as [| x l IH]; intros H; simpl.
  - apply lands_ret.
  - apply lands_bind; [apply H; left; reflexivity |].
    intros [|] _; [apply lands_ret |].
    apply IH. intros y Hy. apply H. right. exact Hy.
Qed.

Lemma lands_weaken {A : Type} (ok ok' : Prop) (m : M A) (s : JanggiBoard) :
  (ok' -> ok) -> lands ok m s -> lands ok' m s.
Proof. intros H [r [Hm Hr]]. exists r. split; auto. Qed.

Lemma read_value {A : Type} (f : JanggiBoard -> result A) (s : JanggiBoard) (a : A) :
  read f s = (Ok a, s) -> f s = Ok a.
Proof. unfold read. intros H. inversion H. reflexivity. Qed.

Lemma gets_value {A : Type} (f : JanggiBoard -> A) (s : JanggiBoard) (a : A) :
  gets f s = (Ok a, s) -> a = f s.
Proof. unfold gets. intros H. inversion H. reflexivity. Qed.

Lemma with_board_same (s : JanggiBoard) : with_board s (board s) = s.
Proof. destruct s. reflexivity. Qed.

Lemma with_board_twice (s : JanggiBoard) (b b' : board_dict) :
  with_board (with_board s b) b' = with_board s b'.
Proof. reflexivity. Qed.

Section Simulation.
Variable s : JanggiBoard.
Hypothesis Hwf : well_formed s.
Variable friendly_piece : ref.
Hypothesis Hplace :
  board_get (board s) (current_pos (store s friendly_piece)) = Ok (Some friendly_piece).

Let original_location : coord := current_pos (store s friendly_piece).

Lemma original_on_board : on_board original_location.
Proof. eapply board_get_ok_on_board; [apply Hwf | exact Hplace]. Qed.

(** The two writes of the simulation and the two writes that undo them. *)
Lemma simulate_and_restore (save_general_move : coord) (save_item : option ref) :
  on_board save_general_move ->
  board_get (board s) save_general_move = Ok save_item ->
  exists b1 b2 b3,
    board_set (board s) save_general_move (Some friendly_piece) = Ok b1
    /\ board_set b1 original_location None = Ok b2
    /\ well_formed (with_board s b2)
    /\ board_set b2 save_general_move save_item = Ok b3
    /\ board_set b3 original_location (Some friendly_piece) = Ok (board s).
Proof.
  intros Hto Hsave. pose proof original_on_board as Hfrom.
  pose proof (wf_complete s Hwf) as Hb.
  destruct (board_set_on_board _ Hb save_general_move (Some friendly_piece) Hto)
    as [b1 [E1 [C1 [G1 O1]]]].
  destruct (board_set_on_board _ C1 original_location None Hfrom)
    as [b2 [E2 [C2 [G2 O2]]]].
  destruct (board_set_on_board _ C2 save_general_move save_item Hto)
    as [b3 [E3 [C3 [G3 O3]]]].
  destruct (board_set_on_board _ C3 original_location (Some friendly_piece) Hfrom)
    as [b4 [E4 [C4 [G4 O4]]]].
  exists b1, b2, b3.
  split; [exact E1 |]. split; [exact E2 |]. split; [| split; [exact E3 |]].
  - constructor; [exact C2 | intros c; apply Hwf |].
    intros k q Hk. simpl in Hk.
    destruct (coord_eqb k original_location) eqn:Eo.
    + apply coord_eqb_eq in Eo. subst k. rewrite G2 in Hk. discriminate.
    + apply coord_eqb_neq in Eo. rewrite (O2 _ Eo) in Hk.
      destruct (coord_eqb k save_general_move) eqn:Ed.
      * apply coord_eqb_eq in Ed. subst k. rewrite G1 in Hk.
        inversion Hk; subst q. eapply (wf_pieces s Hwf); eauto.
      * apply coord_eqb_neq in Ed. rewrite (O1 _ Ed) in Hk.
        eapply (wf_pieces s Hwf); eauto.
  - rewrite E4. f_equal. symmetry. apply board_ext; auto.
    intros k Hk.
    destruct (coord_eqb k original_location) eqn:Eo.
    + apply coord_eqb_eq in Eo. subst k. rewrite G4. exact Hplace.
    + apply coord_eqb_neq in Eo. rewrite (O4 _ Eo).
      destruct (coord_eqb k save_general_move) eqn:Ed.
      * apply coord_eqb_eq in Ed. subst k. rewrite G3. exact Hsave.
      * apply coord_eqb_neq in Ed.
        rewrite (O3 _ Ed), (O2 _ Eo), (O1 _ Ed). reflexivity.
Qed.

Lemma test_save_general_movement_runs (save_general_move : coord)
    (general_color : Color) :
  on_board save_general_move ->
  exists b1 b2 checked,
    board_set (board s) save_general_move (Some friendly_piece) = Ok b1
    /\ board_set b1 original_location None = Ok b2
    /\ get_general_check_status (with_board s b2) general_color = Ok checked
    /\ test_save_general_movement friendly_piece save_general_move general_color s
       = (Ok (negb checked), s).
Proof.
  intros Hto.
  destruct (board_get_on_board _ (wf_complete s Hwf) _ Hto) as [save_item Hsave].
  destruct (simulate_and_restore _ _ Hto Hsave)
    as [b1 [b2 [b3 [E1 [E2 [Hwf2 [E3 E4]]]]]]].
  destruct (get_general_check_status_total _ Hwf2 general_color) as [checked Hc].
  exists b1, b2, checked. repeat split; auto.
  unfold test_save_general_movement, mbind, read, gets, write_cell,
    get_location_contents, get_current_pos.
  rewrite Hsave. fold original_location. rewrite E1.
  cbn [board with_board]. rewrite E2. rewrite !with_board_twice.
  rewrite Hc. cbn [board with_board]. rewrite E3.
  cbn [board with_board]. rewrite E4. rewrite !with_board_twice.
  rewrite with_board_same. destruct checked; reflexivity.
Qed.

Lemma test_save_general_movement_off_board (save_general_move : coord)
    (general_color : Color) :
  ~ on_board save_general_move ->
  test_save_general_movement friendly_piece save_general_move general_color s
  = (Raise KeyError, s).
Proof.
  intros Hto.
  unfold test_save_general_movement, mbind, read, get_location_contents.
  rewrite (board_get_off_board _ (wf_complete s Hwf) _ Hto). reflexivity.
Qed.

Lemma test_save_general_movement_lands (save_general_move : coord)
    (general_color : Color) :
  lands (on_board save_general_move)
    (test_save_general_movement friendly_piece save_general_move general_color) s.
Proof.
  destruct (on_boardb save_general_move) eqn:E.
  - apply on_boardb_iff in E.
    destruct (test_save_general_movement_runs _ general_color E)
      as [b1 [b2 [checked [_ [_ [_ H]]]]]].
    exists (Ok (negb checked)). split; eauto.
  - assert (Hoff : ~ on_board save_general_move).
    { intros H. apply on_boardb_iff in H. congruence. }
    exists (Raise KeyError). split.
    + apply test_save_general_movement_off_board, Hoff.
    + intros H. contradiction.
Qed.
End Simulation.

Section Legality.
Variable s : JanggiBoard.
Hypothesis Hinv : invariant s.

Let Hwf : well_formed s := inv_wf s Hinv.

Lemma placed (k : coord) (q : ref) :
  board_get (board s) k = Ok (Some q) ->
  board_get (board s) (current_pos (store s q)) = Ok (Some q).
Proof. intros H. rewrite (inv_positions s Hinv k q H). exact H. Qed.

Lemma can_friendly_break_check_lands (g : ref) :
  lands True (can_friendly_break_check (Some g)) s.
Proof.
  unfold can_friendly_break_check.
  apply lands_bind; [apply lands_gets |]. intros general_color _.
  apply lands_bind; [apply lands_gets |]. intros general_location _.
  apply lands_bind; [apply lands_gets |]. intros keys Hkeys.
  apply gets_value in Hkeys. subst keys.
  rewrite (board_keys_complete s (wf_complete s Hwf)).
  apply lands_any_M. intros key Hkey. apply on_board_squares in Hkey.
  apply lands_bind.
  { apply lands_read. intros _. apply contents_on_board; [apply Hwf | exact Hkey]. }
  intros [q |] Hitem; [| apply lands_ret].
  apply read_value in Hitem.
  destruct (negb (Nat.eqb q g)); [| apply lands_ret].
  apply lands_bind; [apply lands_gets |]. intros item_color _.
  destruct (Color_eqb item_color general_color); [| apply lands_ret].
  pose proof (wf_pieces s Hwf key q Hitem) as Hp.
  destruct (piece_ok_range _ Hp) as [l [Hl Hon]].
  apply lands_bind; [apply lands_read; intros _; eauto |].
  intros l' Hl'. apply read_value in Hl'. rewrite Hl in Hl'.
  inversion Hl'; subst l'. clear Hl'.
  apply lands_any_M. intros potential_move Hm.
  destruct (negb (coord_eqb potential_move general_location)); [| apply lands_ret].
  apply lands_bind.
  { apply lands_read. intros _.
    apply pass_legality_check_hypothetical_total; assumption. }
  intros [|] _; [| apply lands_ret].
  apply (lands_weaken (on_board potential_move)).
  - intros _. rewrite Forall_forall in Hon. apply Hon, Hm.
  - apply test_save_general_movement_lands; [exact Hwf |].
    eapply placed; eauto.
Qed.

Lemma check_block_lands (move_to : coord) (piece : ref) (current_turn : Color)
    (g : ref) :
  board_get (board s) (current_pos (store s piece)) = Ok (Some piece) ->
  lands (on_board move_to) (check_block move_to piece current_turn (Some g)) s.
Proof.
  intros Hplace. unfold check_block.
  apply lands_bind; [apply lands_gets |]. intros piece_color _.
  apply lands_bind.
  { apply lands_read. intros _. apply get_general_check_status_total, Hwf. }
  intros in_check _.
  destruct (in_check && negb (ref_is (Some g) piece)).
  - apply lands_bind.
    { apply (lands_weaken True); [tauto |]. apply can_friendly_break_check_lands. }
    intros can_break _. destruct (negb can_break); [apply lands_ret |].
    apply lands_bind.
    { apply test_save_general_movement_lands; assumption. }
    intros saves _. destruct (negb saves); apply lands_ret.
  - apply lands_bind.
    { apply lands_read. intros _. apply get_general_check_status_total, Hwf. }
    intros [|] _; [| apply lands_ret].
    apply lands_bind.
    { apply lands_read. intros _. apply safe_general_move_check_total, Hwf. }
    intros safe _. destruct (negb safe); apply lands_ret.
Qed.

(** The legality check leaves the board as it found it, and returns a
    boolean when the destination is a board square. *)
Lemma pass_legality_check_lands (move_to : coord) (piece : ref)
    (current_turn : Color) (hypothetical_movement : bool) :
  board_get (board s) (current_pos (store s piece)) = Ok (Some piece) ->
  lands (on_board move_to)
    (pass_legality_check move_to piece current_turn hypothetical_movement) s.
Proof.
  intros Hplace. unfold pass_legality_check.
  pose proof (wf_pieces s Hwf _ _ Hplace) as Hp.
  destruct (piece_ok_range _ Hp) as [l [Hl Hon]].
  apply lands_bind; [apply lands_read; intros _; eauto |].
  intros l' Hl'. apply read_value in Hl'. rewrite Hl in Hl'.
  inversion Hl'; subst l'. clear Hl'.
  destruct (inv_occupied s Hinv current_turn) as [g Hg].
  apply lands_bind.
  { apply lands_read. intros _. unfold get_location_contents. eauto. }
  intros general Hgen. apply read_value in Hgen.
  unfold get_location_contents in Hgen. rewrite Hg in Hgen.
  inversion Hgen; subst general. clear Hgen.
  apply lands_bind.
  { destruct (negb hypothetical_movement); [| apply lands_ret].
    apply check_block_lands, Hplace. }
  intros [|] _; [apply lands_ret |].
  apply lands_read. intros _.
  apply legality_rules_total; auto; [apply Hwf | apply Hp].
Qed.
End Legality.

(** The read-only definition used by the loops is the method called with
    [hypothetical_movement=True]. *)
Lemma pass_legality_check_hypothetical_eq (s : JanggiBoard) (move_to : coord)
    (piece : ref) (current_turn : Color) :
  pass_legality_check move_to piece current_turn true s
  = (pass_legality_check_hypothetical s move_to piece current_turn, s).
Proof.
  unfold pass_legality_check, pass_legality_check_hypothetical, mbind, read, mret.
  destruct (get_movement_range (store s piece)) as [l | e]; [| reflexivity].
  cbn [rbind].
  destruct (get_location_contents s (loc_get (general_locations s) current_turn))
    as [general | e]; reflexivity.
Qed.

(** What a [True] from the rules says about the move. *)
Lemma legality_rules_true (s : JanggiBoard) (move_to : coord) (piece : ref)
    (current_turn : Color) (l : list coord) :
  legality_rules s move_to piece current_turn l = Ok true ->
  color (store s piece) = current_turn
  /\ In move_to l
  /\ (exists target,
        get_location_contents s move_to = Ok target
        /\ occupied_by s target
             (fun q => Color_eqb (color (store s piece)) (get_color q)) = false
        /\ occupied_by s target
             (fun q => Py.contains "CANNON" (get_name (store s piece))
                       && Py.contains "CANNON" (get_name q)) = false)
  /\ (palace_kind (kind (store s piece)) = true -> in_palace move_to = true).
Proof.
  unfold legality_rules, get_color.
  destruct (Color_eqb (color (store s piece)) current_turn) eqn:Ec;
    cbn [negb]; [| discriminate].
  destruct (coord_in move_to l) eqn:Ein; cbn [negb]; [| discriminate].
  destruct (get_location_contents s move_to) as [target | e]; cbn [rbind];
    [| discriminate].
  match goal with
  | |- (if ?c then _ else _) = _ -> _ => destruct c eqn:Eown; [discriminate |]
  end.
  match goal with
  | |- (if ?c then _ else _) = _ -> _ => destruct c eqn:Ecannon; [discriminate |]
  end.
  pose proof (contains_kind (store s piece) General) as HG.
  pose proof (contains_kind (store s piece) Guard) as HU.
  simpl kind_name in HG, HU. rewrite HG, HU.
  destruct ((Kind_eqb (kind (store s piece)) General
             || Kind_eqb (kind (store s piece)) Guard)
            && (negb (coord_in move_to blue_palace)
                && negb (coord_in move_to red_palace))) eqn:Epal; [discriminate |].
  intros _. split; [apply Color_eqb_eq, Ec |].
  split; [apply coord_in_In, Ein |].
  split; [exists target; auto |].
  intros Hk. unfold in_palace.
  destruct (kind (store s piece)); cbn [palace_kind] in Hk; try discriminate;
    cbn [Kind_eqb orb andb] in Epal;
    destruct (coord_in move_to blue_palace), (coord_in move_to red_palace);
    cbn [negb orb andb] in *; congruence.
Qed.

Section LegalityShape.
Variable s : JanggiBoard.
Hypothesis Hinv : invariant s.

(** On a board that satisfies the invariant the legality check is the
    check block followed by the rules, all run on the same board. *)
Lemma pass_legality_check_shape (move_to : coord) (piece : ref)
    (current_turn : Color) (hypothetical_movement : bool) :
  board_get (board s) (current_pos (store s piece)) = Ok (Some piece) ->
  exists l r,
    get_movement_range (store s piece) = Ok l
    /\ Forall on_board l
    /\ (on_board move_to -> exists b, r = Ok b)
    /\ pass_legality_check move_to piece current_turn hypothetical_movement s
       = match r with
         | Ok true => (Ok false, s)
         | Ok false => (legality_rules s move_to piece current_turn l, s)
         | Raise e => (Raise e, s)
         end.
Proof.
  intros Hplace. pose proof (inv_wf s Hinv) as Hwf.
  pose proof (wf_pieces s Hwf _ _ Hplace) as Hp.
  destruct (piece_ok_range _ Hp) as [l [Hl Hon]].
  destruct (inv_occupied s Hinv current_turn) as [g Hg].
  assert (Hgoal : exists r,
            (on_board move_to -> exists b, r = Ok b)
            /\ pass_legality_check move_to piece current_turn hypothetical_movement s
               = match r with
                 | Ok true => (Ok false, s)
                 | Ok false => (legality_rules s move_to piece current_turn l, s)
                 | Raise e => (Raise e, s)
                 end).
  { unfold pass_legality_check, mbind, read, get_location_contents.
    rewrite Hl. cbv beta iota. rewrite Hg. cbv beta iota.
    match goal with
    | |- exists r, _ /\ (let (_, _) := ?blk s in _) = _ =>
        assert (Hblock : lands (on_board move_to) blk s)
    end.
    { destruct (negb hypothetical_movement); [| apply lands_ret].
      apply check_block_lands; assumption. }
    destruct Hblock as [r [Hr Hok]]. exists r. split; [exact Hok |].
    rewrite Hr. destruct r as [[|] | e]; reflexivity. }
  destruct Hgoal as [r [Hok Hr]].
  exists l, r. auto.
Qed.

Lemma pass_legality_check_frame (move_to : coord) (piece : ref)
    (current_turn : Color) (hypothetical_movement : bool) :
  board_get (board s) (current_pos (store s piece)) = Ok (Some piece) ->
  snd (pass_legality_check move_to piece current_turn hypothetical_movement s) = s.
Proof.
  intros Hplace.
  destruct (pass_legality_check_lands s Hinv move_to piece current_turn
              hypothetical_movement Hplace) as [r [-> _]].
  reflexivity.
Qed.
End LegalityShape.

(** The object [move_piece] leaves behind on its successful path. *)
Definition moved (s : JanggiBoard) (b : board_dict) (piece : ref) (move_to : coord)
    (current_turn : Color) : JanggiBoard :=
  mkBoard b
    (fun r => if Nat.eqb r piece then update_current_pos (store s r) move_to
              else store s r)
    (if is_general (store s piece)
     then loc_set (general_locations s) current_turn move_to
     else general_locations s)
    (checkmate s).

Section MovePiece.
Variable s : JanggiBoard.
Hypothesis Hinv : invariant s.
Variables (move_from move_to : coord) (current_turn : Color).

Lemma move_piece_empty :
  get_location_contents s move_from = Ok None ->
  move_piece move_from move_to current_turn s = (Ok false, s).
Proof.
  intros H. unfold move_piece, mbind, read. rewrite H. reflexivity.
Qed.

Lemma move_piece_illegal (board_piece : ref) :
  get_location_contents s move_from = Ok (Some board_piece) ->
  fst (pass_legality_check move_to board_piece current_turn false s) = Ok false ->
  move_piece move_from move_to current_turn s = (Ok false, s).
Proof.
  intros H Hl. unfold move_piece, mbind, read. rewrite H.
  pose proof (pass_legality_check_frame s Hinv move_to board_piece current_turn
                false (placed s Hinv _ _ H)) as Hs.
  destruct (pass_legality_check move_to board_piece current_turn false s)
    as [r s']. simpl in Hl, Hs. subst r s'. reflexivity.
Qed.

(** Every run of [move_piece] is one of: an exception or [False] with the
    object untouched (and no exception when both squares are on the
    board), or [True] with the piece moved. *)
Lemma move_piece_cases :
  (exists r, move_piece move_from move_to current_turn s = (r, s)
             /\ r <> Ok true
             /\ (on_board move_from -> on_board move_to -> r = Ok false))
  \/ (exists q l b1 b2,
        get_location_contents s move_from = Ok (Some q)
        /\ get_movement_range (store s q) = Ok l
        /\ legality_rules s move_to q current_turn l = Ok true
        /\ on_board move_to
        /\ board_set (board s) move_to (Some q) = Ok b1
        /\ board_set b1 move_from None = Ok b2
        /\ board_complete b2
        /\ board_get b2 move_to = Ok (Some q)
        /\ board_get b2 move_from = Ok None
        /\ move_from <> move_to
        /\ (forall k, k <> move_to -> k <> move_from ->
                      board_get b2 k = board_get (board s) k)
        /\ move_piece move_from move_to current_turn s
           = (Ok true, moved s b2 q move_to current_turn)).
Proof.
  pose proof (inv_wf s Hinv) as Hwf.
  destruct (get_location_contents s move_from) as [[q |] | e] eqn:Hsrc.
  - pose proof (placed s Hinv _ _ Hsrc) as Hplace.
    destruct (pass_legality_check_shape s Hinv move_to q current_turn false Hplace)
      as [l [r [Hl [Hon [Hok Hplc]]]]].
    assert (Hrun : forall res,
              pass_legality_check move_to q current_turn false s = (res, s) ->
              res <> Ok true ->
              (on_board move_to -> exists b, res = Ok b) ->
              exists r', move_piece move_from move_to current_turn s = (r', s)
                         /\ r' <> Ok true
                         /\ (on_board move_from -> on_board move_to -> r' = Ok false)).
    { intros res Hres Hne Htot. unfold move_piece, mbind, read. rewrite Hsrc, Hres.
      destruct res as [[|] | e]; [congruence | |].
      - exists (Ok false). split; [reflexivity |]. split; [discriminate | auto].
      - exists (Raise e). split; [reflexivity |]. split; [discriminate |].
        intros _ Hto. destruct (Htot Hto) as [b Hb]. discriminate. }
    assert (Hrules_total : exists b, legality_rules s move_to q current_turn l = Ok b).
    { apply legality_rules_total; auto; [apply Hwf |].
      apply (wf_pieces s Hwf _ _ Hplace). }
    destruct r as [[|] | e].
    + left. apply (Hrun _ Hplc); [discriminate | eauto].
    + destruct (legality_rules s move_to q current_turn l) as [[|] | e] eqn:Hrules.
      * right.
        destruct (legality_rules_true _ _ _ _ _ Hrules)
          as [Hcol [Hin [[target [Htarget [Hown _]]] _]]].
        assert (Hto : on_board move_to).
        { rewrite Forall_forall in Hon. apply Hon, Hin. }
        assert (Hfrom : on_board move_from).
        { eapply board_get_ok_on_board; [apply Hwf | exact Hsrc]. }
        assert (Hne : move_from <> move_to).
        { intros E. subst move_to. unfold get_location_contents in *.
          rewrite Hsrc in Htarget. inversion Htarget; subst target.
          simpl in Hown. unfold get_color in Hown.
          destruct (color (store s q)); discriminate. }
        destruct (board_set_on_board _ (wf_complete s Hwf) move_to (Some q) Hto)
          as [b1 [E1 [C1 [G1 O1]]]].
        destruct (board_set_on_board _ C1 move_from None Hfrom)
          as [b2 [E2 [C2 [G2 O2]]]].
        exists q, l, b1, b2.
        split; [reflexivity |].
        repeat (split; [assumption |]).
        split; [rewrite (O2 _ (not_eq_sym Hne)); exact G1 |].
        split; [exact G2 |]. split; [exact Hne |].
        split; [intros k Hk1 Hk2; rewrite (O2 _ Hk2), (O1 _ Hk1); reflexivity |].
        unfold move_piece, mbind, read. rewrite Hsrc, Hplc.
        unfold write_cell, set_current_pos, gets, set_general_location, mret.
        cbn [negb board with_board store general_locations checkmate].
        rewrite E1. cbn [board with_board store general_locations checkmate].
        rewrite E2. cbn [board with_board store general_locations checkmate].
        rewrite Nat.eqb_refl. unfold moved, is_general, update_current_pos.
        cbn [kind]. destruct (kind (store s q)); reflexivity.
      * left. apply (Hrun _ Hplc); [discriminate | eauto].
      * left. destruct Hrules_total as [b Hb]. discriminate.
    + left. apply (Hrun _ Hplc); [discriminate | exact Hok].
  - left. exists (Ok false).
    split; [apply move_piece_empty, Hsrc |]. split; [discriminate | auto].
  - left. exists (Raise e). split; [| split; [discriminate |]].
    + unfold move_piece, mbind, read. rewrite Hsrc. reflexivity.
    + intros Hfrom _.
      destruct (board_get_on_board _ (wf_complete s Hwf) _ Hfrom) as [item Hitem].
      unfold get_location_contents in Hsrc. congruence.
Qed.
End MovePiece.

(** ** The General locations follow the Generals *)

(** The map entry of each colour is the one cell that holds that colour's
    General. *)
Definition generals_synced (s : JanggiBoard) : Prop :=
  forall c,
    (exists g,
        board_get (board s) (loc_get (general_locations s) c) = Ok (Some g)
        /\ kind (store s g) = General
        /\ color (store s g) = c)
    /\ (forall k q,
          board_get (board s) k = Ok (Some q) ->
          kind (store s q) = General ->
          color (store s q) = c ->
          k = loc_get (general_locations s) c).

Lemma loc_get_set (l : Locations) (c c' : Color) (k : coord) :
  loc_get (loc_set l c k) c' = if Color_eqb c' c then k else loc_get l c'.
Proof. destruct c, c'; reflexivity. Qed.

Section MovePreserves.
Variable s : JanggiBoard.
Hypothesis Hwf0 : well_formed s.
Hypothesis Hpos : positions_consistent s.
Hypothesis Hsync : generals_synced s.
Variables (move_from move_to : coord) (current_turn : Color).
Variables (q : ref) (l : list coord) (b2 : board_dict).
Hypothesis Hsrc : get_location_contents s move_from = Ok (Some q).
Hypothesis Hl : get_movement_range (store s q) = Ok l.
Hypothesis Hrules : legality_rules s move_to q current_turn l = Ok true.
Hypothesis Hto : on_board move_to.
Hypothesis C2 : board_complete b2.
Hypothesis Gto : board_get b2 move_to = Ok (Some q).
Hypothesis Gfrom : board_get b2 move_from = Ok None.
Hypothesis Hne : move_from <> move_to.
Hypothesis Gother :
  forall k, k <> move_to -> k <> move_from -> board_get b2 k = board_get (board s) k.
Hypothesis Hnocapture :
  forall t, get_location_contents s move_to = Ok (Some t) ->
            kind (store s t) <> General.

Let s' : JanggiBoard := moved s b2 q move_to current_turn.

Lemma moved_cell (k : coord) (q' : ref) :
  board_get b2 k = Ok (Some q') ->
  (k = move_to /\ q' = q)
  \/ (k <> move_to /\ k <> move_from
      /\ board_get (board s) k = Ok (Some q') /\ q' <> q).
Proof.
  intros H. destruct (coord_eqb k move_to) eqn:Et.
  - apply coord_eqb_eq in Et. subst k. rewrite Gto in H. inversion H. auto.
  - apply coord_eqb_neq in Et. destruct (coord_eqb k move_from) eqn:Ef.
    + apply coord_eqb_eq in Ef. subst k. rewrite Gfrom in H. discriminate.
    + apply coord_eqb_neq in Ef. right. rewrite (Gother _ Et Ef) in H.
      repeat split; auto. intros E. subst q'.
      apply Ef. rewrite <- (Hpos _ _ H).
      apply (Hpos _ _ Hsrc).
Qed.

Lemma moved_store_same (q' : ref) : q' <> q -> store s' q' = store s q'.
Proof.
  intros H. simpl. destruct (Nat.eqb_spec q' q); [contradiction | reflexivity].
Qed.

Lemma moved_store_piece :
  store s' q = mkPiece move_to (color (store s q)) (kind (store s q)).
Proof. simpl. rewrite Nat.eqb_refl. reflexivity. Qed.

Lemma moved_locations (c : Color) :
  loc_get (general_locations s') c
  = if is_general (store s q) && Color_eqb c current_turn then move_to
    else loc_get (general_locations s) c.
Proof.
  simpl. destruct (is_general (store s q)); simpl; [| reflexivity].
  apply loc_get_set.
Qed.

Lemma moved_invariant_wf : well_formed s' /\ positions_consistent s'.
Proof.
  destruct (legality_rules_true _ _ _ _ _ Hrules) as [Hcol [Hin [_ Hpal]]].
  pose proof Hwf0 as Hwf.
  split; [constructor |].
  - exact C2.
  - intros c. rewrite moved_locations.
    destruct (_ && _); [exact Hto | apply Hwf].
  - intros k q' Hk. simpl board in Hk.
    destruct (moved_cell _ _ Hk) as [[-> ->] | [_ [_ [Hold Hq']]]].
    + rewrite moved_store_piece. split; [exact Hto | exact Hpal].
    + rewrite (moved_store_same _ Hq'). eapply (wf_pieces s Hwf); eauto.
  - intros k q' Hk. simpl board in Hk.
    destruct (moved_cell _ _ Hk) as [[-> ->] | [_ [_ [Hold Hq']]]].
    + rewrite moved_store_piece. reflexivity.
    + rewrite (moved_store_same _ Hq'). apply (Hpos _ _ Hold).
Qed.

Lemma moved_synced : generals_synced s'.
Proof.
  destruct (legality_rules_true _ _ _ _ _ Hrules) as [Hcol _].
  assert (Hkeep : forall c g,
            board_get (board s) (loc_get (general_locations s) c) = Ok (Some g) ->
            kind (store s g) = General ->
            (g = q -> False) ->
            board_get b2 (loc_get (general_locations s) c) = Ok (Some g)
            /\ store s' g = store s g).
  { intros c g Hg Hk Hgq. split.
    - rewrite Gother; [exact Hg | |].
      + intros E. rewrite E in Hg. apply (Hnocapture g Hg Hk).
      + intros E. rewrite E in Hg. unfold get_location_contents in Hsrc.
        rewrite Hsrc in Hg. inversion Hg. auto.
    - apply moved_store_same. intros E. exact (Hgq E). }
  intros c. destruct (Hsync c) as [[g [Hg [Hgk Hgc]]] Huniq].
  rewrite moved_locations. unfold is_general.
  destruct (kind (store s q)) eqn:Ekq; cbn [andb];
    try (split;
         [ destruct (Hkeep c g Hg Hgk) as [Hcell Hst];
           [ intros E; subst g; congruence
           | exists g; simpl board; rewrite Hst; auto ]
         | intros k q' Hk Hkind Hcolor; simpl board in Hk;
           destruct (moved_cell _ _ Hk) as [[-> ->] | [_ [_ [Hold Hq']]]];
           [ rewrite moved_store_piece in Hkind; simpl in Hkind; congruence
           | rewrite (moved_store_same _ Hq') in Hkind, Hcolor;
             apply (Huniq _ _ Hold Hkind Hcolor) ] ]).
  destruct (Color_eqb c current_turn) eqn:Ec.
  - apply Color_eqb_eq in Ec. rewrite Ec in *. clear Ec. split.
    + exists q. split; [exact Gto |]. rewrite moved_store_piece.
      split; [exact Ekq | exact Hcol].
    + intros k q' Hk Hkind Hcolor. simpl board in Hk.
      destruct (moved_cell _ _ Hk) as [[-> ->] | [_ [Hkf [Hold Hq']]]];
        [reflexivity |].
      rewrite (moved_store_same _ Hq') in Hkind, Hcolor.
      exfalso. apply Hkf.
      rewrite (Huniq _ _ Hold Hkind Hcolor).
      symmetry. apply (Huniq _ _ Hsrc Ekq Hcol).
  - assert (Hcq : c <> color (store s q)).
    { intros E. rewrite E, Hcol in Ec. destruct current_turn; discriminate. }
    split.
    + destruct (Hkeep c g Hg Hgk) as [Hcell Hst];
        [intros E; subst g; congruence |].
      exists g. simpl board. rewrite Hst. auto.
    + intros k q' Hk Hkind Hcolor. simpl board in Hk.
      destruct (moved_cell _ _ Hk) as [[-> ->] | [_ [_ [Hold Hq']]]].
      * rewrite moved_store_piece in Hcolor. simpl in Hcolor. congruence.
      * rewrite (moved_store_same _ Hq') in Hkind, Hcolor.
        apply (Huniq _ _ Hold Hkind Hcolor).
Qed.

Lemma moved_invariant : invariant s'.
Proof.
  destruct moved_invariant_wf as [Hwf' Hpos'].
  constructor; [exact Hwf' | exact Hpos' |].
  intros c. destruct (moved_synced c) as [[g [Hg _]] _]. exists g. exact Hg.
Qed.
End MovePreserves.

(** A successful move that does not take a General keeps the invariant and
    keeps the General locations on the Generals. *)
Lemma move_piece_preserves (s s' : JanggiBoard) (move_from move_to : coord)
    (current_turn : Color) :
  invariant s -> generals_synced s ->
  (forall t, get_location_contents s move_to = Ok (Some t) ->
             kind (store s t) <> General) ->
  move_piece move_from move_to current_turn s = (Ok true, s') ->
  invariant s' /\ generals_synced s'.
Proof.
  intros Hinv Hsync Hcap Hmove.
  destruct (move_piece_cases s Hinv move_from move_to current_turn)
    as [[r [Hr [Hne _]]] | [q [l [b1 [b2 H]]]]].
  - rewrite Hr in Hmove. inversion Hmove. congruence.
  - destruct H as [Hsrc [Hl [Hrules [Hto [_ [_ [C2 [Gto [Gfrom [Hne [Go Hm]]]]]]]]]]].
    rewrite Hm in Hmove. inversion Hmove. subst s'. split.
    + eapply moved_invariant; eauto; apply Hinv.
    + eapply moved_synced; eauto; apply Hinv.
Qed.

(** ** Checking the invariants of a given board *)

Fixpoint list_eqb {A : Type} (eqb : A -> A -> bool) (l l' : list A) : bool :=
  match l, l' with
  | [], [] => true
  | x :: l0, y :: l0' => eqb x y && list_eqb eqb l0 l0'
  | _, _ => false
  end.

Lemma list_eqb_eq {A : Type} (eqb : A -> A -> bool) (l l' : list A) :
  (forall a b, eqb a b = true -> a = b) -> list_eqb eqb l l' = true -> l = l'.
Proof.
  intros Heq. revert l'. induction l as [| x l IH]; intros [| y l']; simpl;
    try discriminate; [reflexivity |].
  intros H. apply andb_true_iff in H. destruct H as [H1 H2].
  f_equal; auto.
Qed.

Definition completeb (b : board_dict) : bool :=
  list_eqb Z.eqb (Dict.keys b) rows
  && forallb (fun r => list_eqb Ascii.eqb (Dict.keys (snd r)) columns) b.

Definition cell_okb (s : JanggiBoard) (k : coord) : bool :=
  match board_get (board s) k with
  | Ok (Some q) => piece_okb (store s q) && coord_eqb (current_pos (store s q)) k
  | Ok None => true
  | Raise _ => false
  end.

Definition location_okb (s : JanggiBoard) (c : Color) : bool :=
  on_boardb (loc_get (general_locations s) c)
  && match board_get (board s) (loc_get (general_locations s) c) with
     | Ok (Some _) => true
     | _ => false
     end.

Definition invariantb (s : JanggiBoard) : bool :=
  completeb (board s) && forallb (location_okb s) colors
  && forallb (cell_okb s) all_squares.

Definition syncedb (s : JanggiBoard) : bool :=
  forallb (fun c =>
             match board_get (board s) (loc_get (general_locations s) c) with
             | Ok (Some g) =>
                 Kind_eqb (kind (store s g)) General && Color_eqb (color (store s g)) c
             | _ => false
             end
             && forallb (fun k =>
                           match board_get (board s) k with
                           | Ok (Some q) =>
                               implb (Kind_eqb (kind (store s q)) General
                                      && Color_eqb (color (store s q)) c)
                                     (coord_eqb k (loc_get (general_locations s) c))
                           | _ => true
                           end)
                        all_squares)
          colors.

Lemma completeb_sound (b : board_dict) : completeb b = true -> board_complete b.
Proof.
  unfold completeb. rewrite andb_true_iff. intros [Hk Hr]. split.
  - apply (list_eqb_eq Z.eqb); [intros a c; apply Z.eqb_eq | exact Hk].
  - apply Forall_forall. intros r Hin. rewrite forallb_forall in Hr.
    apply (list_eqb_eq Ascii.eqb); [intros a c; apply Ascii.eqb_eq | auto].
Qed.

Lemma colors_all (P : Color -> bool) :
  forallb P colors = true -> forall c, P c = true.
Proof.
  intros H c. rewrite forallb_forall in H. apply H. destruct c; simpl; auto.
Qed.

Lemma invariantb_sound (s : JanggiBoard) : invariantb s = true -> invariant s.
Proof.
  unfold invariantb. rewrite !andb_true_iff. intros [[Hc Hl] Hcells].
  apply completeb_sound in Hc.
  assert (Hcell : forall k q, board_get (board s) k = Ok (Some q) ->
            piece_ok (store s q) /\ current_pos (store s q) = k).
  { intros k q Hk.
    pose proof (all_squares_forall _ Hcells k
                  (board_get_ok_on_board _ Hc _ _ Hk)) as H.
    unfold cell_okb in H. rewrite Hk in H. apply andb_true_iff in H.
    destruct H as [H1 H2]. split; [apply piece_okb_iff, H1 | apply coord_eqb_eq, H2]. }
  constructor; [constructor |..].
  - exact Hc.
  - intros c. pose proof (colors_all _ Hl c) as H. unfold location_okb in H.
    apply andb_true_iff in H. apply on_boardb_iff, H.
  - intros k q Hk. apply (Hcell k q Hk).
  - intros k q Hk. apply (Hcell k q Hk).
  - intros c. pose proof (colors_all _ Hl c) as H. unfold location_okb in H.
    apply andb_true_iff in H. destruct H as [_ H].
    destruct (board_get (board s) (loc_get (general_locations s) c)) as [[g |] | e];
      try discriminate. eauto.
Qed.

Lemma syncedb_sound (s : JanggiBoard) :
  board_complete (board s) -> syncedb s = true -> generals_synced s.
Proof.
  intros Hc Hs c. pose proof (colors_all _ Hs c) as H. cbv beta in H.
  apply andb_true_iff in H. destruct H as [H1 H2]. split.
  - destruct (board_get (board s) (loc_get (general_locations s) c)) as [[g |] | e];
      try discriminate.
    apply andb_true_iff in H1. destruct H1 as [Hk Hcol].
    exists g. split; [reflexivity |].
    split; [apply Kind_eqb_eq, Hk | apply Color_eqb_eq, Hcol].
  - intros k q Hk Hkind Hcolor.
    pose proof (all_squares_forall _ H2 k (board_get_ok_on_board _ Hc _ _ Hk)) as H.
    cbv beta in H. rewrite Hk, Hkind, Hcolor in H.
    assert (E : Color_eqb c c = true) by (apply Color_eqb_eq; reflexivity).
    rewrite E in H. simpl in H. apply coord_eqb_eq, H.
Qed.

Lemma new_JanggiBoard_invariant : invariant new_JanggiBoard.
Proof. apply invariantb_sound. vm_compute. reflexivity. Qed.

Lemma new_JanggiBoard_synced : generals_synced new_JanggiBoard.
Proof.
  apply syncedb_sound; [apply new_JanggiBoard_invariant | vm_compute; reflexivity].
Qed.

(** ** The checkmate flag is only ever raised *)

(** [keeps flag m]: once [flag] holds of the object, it holds after [m],
    whatever [m] returns or raises. *)
Definition keeps {S A : Type} (flag : S -> bool) (m : SE S A) : Prop :=
  forall s, flag s = true -> flag (snd (m s)) = true.

Section Keeps.
Context {S : Type} (flag : S -> bool).

Lemma keeps_ret {A : Type} (a : A) : keeps flag (mret a).
Proof. intros s H. exact H. Qed.

Lemma keeps_raise {A : Type} (e : exn) : keeps flag (@mraise S A e).
Proof. intros s H. exact H. Qed.

Lemma keeps_read {A : Type} (f : S -> result A) : keeps flag (read f).
Proof. intros s H. exact H. Qed.

Lemma keeps_gets {A : Type} (f : S -> A) : keeps flag (gets f).
Proof. intros s H. exact H. Qed.

Lemma keeps_bind {A B : Type} (m : SE S A) (f : A -> SE S B) :
  keeps flag m -> (forall a, keeps flag (f a)) -> keeps flag (mbind m f).
Proof.
  intros Hm Hf s H. unfold mbind. specialize (Hm s H).
  destruct (m s) as [[a | e] s1]; simpl in Hm; [apply Hf, Hm | exact Hm].
Qed.

Lemma keeps_any_M {A : Type} (f : A -> SE S bool) (l : list A) :
  (forall x, keeps flag (f x)) -> keeps flag (any_M f l).
Proof.
  intros Hf. induction l as [| x l IH]; simpl.
  - apply keeps_ret.
  - apply keeps_bind; [apply Hf |]. intros [|]; [apply keeps_ret | exact IH].
Qed.
End Keeps.

Create HintDb keeps.

#[local] Hint Resolve keeps_ret keeps_raise keeps_read keeps_gets : keeps.

Ltac keeps_step :=
  first
    [ apply keeps_bind; [| intro]
    | apply keeps_any_M; intro
    | match goal with
      | |- keeps _ (if ?b then _ else _) => destruct b
      | |- keeps _ (match ?x with Some _ => _ | None => _ end) => destruct x
      end
    | solve [auto with keeps] ].

Ltac keeps_tac := repeat keeps_step.

Lemma keeps_write_cell (k : coord) (item : option ref) :
  keeps checkmate (write_cell k item).
Proof.
  intros s H. unfold write_cell. destruct (board_set (board s) k item); exact H.
Qed.

Lemma keeps_set_current_pos (piece : ref) (k : coord) :
  keeps checkmate (set_current_pos piece k).
Proof. intros s H. exact H. Qed.

Lemma keeps_set_general_location (c : Color) (k : coord) :
  keeps checkmate (set_general_location c k).
Proof. intros s H. exact H. Qed.

Lemma keeps_set_checkmate : keeps checkmate set_checkmate.
Proof. intros s H. reflexivity. Qed.

#[local] Hint Resolve keeps_write_cell keeps_set_current_pos
  keeps_set_general_location keeps_set_checkmate : keeps.

Lemma keeps_test_save_general_movement (piece : ref) (k : coord) (c : Color) :
  keeps checkmate (test_save_general_movement piece k c).
Proof. unfold test_save_general_movement. keeps_tac. Qed.

#[local] Hint Resolve keeps_test_save_general_movement : keeps.

Lemma keeps_can_friendly_break_check (general : option ref) :
  keeps checkmate (can_friendly_break_check general).
Proof. unfold can_friendly_break_check. keeps_tac. Qed.

#[local] Hint Resolve keeps_can_friendly_break_check : keeps.

Lemma keeps_pass_legality_check (k : coord) (piece : ref) (c : Color) (h : bool) :
  keeps checkmate (pass_legality_check k piece c h).
Proof. unfold pass_legality_check, check_block. keeps_tac. Qed.

#[local] Hint Resolve keeps_pass_legality_check : keeps.

Lemma keeps_move_piece (move_from move_to : coord) (c : Color) :
  keeps checkmate (move_piece move_from move_to c).
Proof. unfold move_piece. keeps_tac. Qed.

Lemma keeps_update_checkmate_status : keeps checkmate update_checkmate_status.
Proof. unfold update_checkmate_status. keeps_tac. Qed.

#[local] Hint Resolve keeps_move_piece keeps_update_checkmate_status : keeps.

Definition game_checkmate (g : JanggiGame) : bool :=
  get_checkmate_status (current_board g).

Lemma keeps_on_board_object {A : Type} (m : M A) :
  keeps checkmate m -> keeps game_checkmate (on_board_object m).
Proof.
  intros Hm g H. unfold on_board_object, game_checkmate, get_checkmate_status in *.
  specialize (Hm (current_board g) H).
  destruct (m (current_board g)) as [r b]. exact Hm.
Qed.

Lemma keeps_change_turn : keeps game_checkmate change_turn.
Proof. intros g H. exact H. Qed.

Lemma keeps_set_in_check (red blue : bool) : keeps game_checkmate (set_in_check red blue).
Proof. intros g H. exact H. Qed.

Lemma keeps_checkmate_game (loser : Color) : keeps game_checkmate (checkmate_game loser).
Proof. intros g H. exact H. Qed.

#[local] Hint Resolve keeps_change_turn keeps_set_in_check keeps_checkmate_game : keeps.

Lemma keeps_update_check_status : keeps game_checkmate update_check_status.
Proof.
  unfold update_check_status.
  keeps_tac; apply keeps_on_board_object; auto with keeps.
Qed.

#[local] Hint Resolve keeps_update_check_status : keeps.

Lemma keeps_make_move (move_from move_to : string) :
  keeps game_checkmate (make_move move_from move_to).
Proof.
  unfold make_move.
  keeps_tac; apply keeps_on_board_object; auto with keeps.
Qed.

(** The calls a client can make on a game and on its board that may write. *)
Inductive Call : Type :=
| Call_make_move (move_from move_to : string)
| Call_update_check_status
| Call_change_turn
| Call_checkmate (loser : Color)
| Call_move_piece (move_from move_to : coord) (current_turn : Color)
| Call_pass_legality_check (move_to : coord) (piece : ref) (current_turn : Color)
    (hypothetical_movement : bool)
| Call_can_friendly_break_check (general : option ref)
| Call_test_save_general_movement (friendly_piece : ref) (save_general_move : coord)
    (general_color : Color)
| Call_update_checkmate_status.

(** The game a call leaves behind, whether it returns or raises. *)
Definition after_call (c : Call) (g : JanggiGame) : JanggiGame :=
  match c with
  | Call_make_move a b => snd (make_move a b g)
  | Call_update_check_status => snd (update_check_status g)
  | Call_change_turn => snd (change_turn g)
  | Call_checkmate loser => snd (checkmate_game loser g)
  | Call_move_piece a b t => snd (on_board_object (move_piece a b t) g)
  | Call_pass_legality_check k p t h =>
      snd (on_board_object (pass_legality_check k p t h) g)
  | Call_can_friendly_break_check general =>
      snd (on_board_object (can_friendly_break_check general) g)
  | Call_test_save_general_movement p k c =>
      snd (on_board_object (test_save_general_movement p k c) g)
  | Call_update_checkmate_status => snd (on_board_object update_checkmate_status g)
  end.

Definition after_calls (cs : list Call) (g : JanggiGame) : JanggiGame :=
  fold_left (fun g c => after_call c g) cs g.

Lemma after_call_checkmate (c : Call) (g : JanggiGame) :
  game_checkmate g = true -> game_checkmate (after_call c g) = true.
Proof.
  intros H. destruct c; cbn [after_call].
  - apply (keeps_make_move move_from move_to g H).
  - apply (keeps_update_check_status g H).
  - exact H.
  - exact H.
  - apply (keeps_on_board_object _ (keeps_move_piece _ _ _) g H).
  - apply (keeps_on_board_object _ (keeps_pass_legality_check _ _ _ _) g H).
  - apply (keeps_on_board_object _ (keeps_can_friendly_break_check _) g H).
  - apply (keeps_on_board_object _ (keeps_test_save_general_movement _ _ _) g H).
  - apply (keeps_on_board_object _ keeps_update_checkmate_status g H).
Qed.

Lemma after_calls_checkmate (cs : list Call) (g : JanggiGame) :
  game_checkmate g = true -> game_checkmate (after_calls cs g) = true.
Proof.
  revert g. induction cs as [| c cs IH]; intros g H; simpl; [exact H |].
  apply IH, after_call_checkmate, H.
Qed.

(** ** Threat zones and the stuck General *)

Lemma collect_r_in {A B : Type} (f : A -> result (list B)) (l : list A) (r : list B) :
  collect_r f l = Ok r ->
  forall y, In y r <-> exists x ys, In x l /\ f x = Ok ys /\ In y ys.
Proof.
  revert r. induction l as [| x l IH]; simpl; intros r H y.
  - inversion H; subst. simpl. split; [tauto |]. intros [x [ys [[] _]]].
  - destruct (f x) as [ys |] eqn:Ex; simpl in H; [| discriminate].
    destruct (collect_r f l) as [zs |] eqn:El; simpl in H; [| discriminate].
    inversion H; subst r. rewrite in_app_iff, (IH zs eq_refl y). split.
    + intros [Hy | [x' [ys' [Hx' [Hf Hy]]]]].
      * exists x, ys. auto.
      * exists x', ys'. auto.
    + intros [x' [ys' [[-> | Hx'] [Hf Hy]]]].
      * left. congruence.
      * right. exists x', ys'. auto.
Qed.

Lemma collect_r_each {A B : Type} (f : A -> result (list B)) (l : list A) (r : list B) :
  collect_r f l = Ok r -> forall x, In x l -> exists ys, f x = Ok ys.
Proof.
  revert r. induction l as [| x0 l IH]; simpl; intros r H x Hx; [destruct Hx |].
  destruct (f x0) as [ys |] eqn:Ex; simpl in H; [| discriminate].
  destruct (collect_r f l) as [zs |] eqn:El; simpl in H; [| discriminate].
  destruct Hx as [<- | Hx]; [eauto |]. apply (IH zs eq_refl x Hx).
Qed.

Lemma collect_r_nil {A B : Type} (f : A -> result (list B)) (l : list A) (r : list B) :
  collect_r f l = Ok r ->
  (r = [] <-> forall x, In x l -> f x = Ok []).
Proof.
  revert r. induction l as [| x l IH]; simpl; intros r H.
  - inversion H. split; [intros _ x [] | reflexivity].
  - destruct (f x) as [ys |] eqn:Ex; simpl in H; [| discriminate].
    destruct (collect_r f l) as [zs |] eqn:El; simpl in H; [| discriminate].
    inversion H; subst r. split.
    + intros E. apply app_eq_nil in E. destruct E as [-> ->].
      intros x' [<- | Hx']; [exact Ex |]. apply (IH [] eq_refl); auto.
    + intros Hall. pose proof (Hall x (or_introl eq_refl)) as E.
      rewrite Ex in E. inversion E; subst ys. simpl.
      apply (IH zs eq_refl). intros x' Hx'. apply Hall. right. exact Hx'.
Qed.

(** Some piece of colour [enemy] on the grid has [location] in its raw
    movement range. *)
Definition threatens_raw (s : JanggiBoard) (enemy : Color) (location : coord) : Prop :=
  exists k q l,
    get_location_contents s k = Ok (Some q)
    /\ color (store s q) = enemy
    /\ get_movement_range (store s q) = Ok l
    /\ In location l.

(** Some piece of colour [enemy] on the grid has [location] in its raw
    movement range and passes the hypothetical legality check for it. *)
Definition threatens_legally (s : JanggiBoard) (enemy : Color) (location : coord)
  : Prop :=
  exists k q l,
    get_location_contents s k = Ok (Some q)
    /\ color (store s q) = enemy
    /\ get_movement_range (store s q) = Ok l
    /\ In location l
    /\ pass_legality_check_hypothetical s location q enemy = Ok true.

Section Zones.
Variable s : JanggiBoard.
Hypothesis Hb : board_complete (board s).

Lemma safe_general_move_check_false (enemy : Color) (location : coord) :
  safe_general_move_check s enemy location = Ok false ->
  threatens_raw s enemy location.
Proof.
  unfold safe_general_move_check.
  destruct (collect_r _ (board_items s)) as [zone |] eqn:Ez; simpl; [| discriminate].
  destruct (coord_in location zone) eqn:Ein; [| discriminate]. intros _.
  apply coord_in_In in Ein.
  apply (collect_r_in _ _ _ Ez) in Ein.
  destruct Ein as [[q |] [ys [Hitem [Hf Hy]]]].
  - destruct (Color_eqb (get_color (store s q)) enemy) eqn:Ec.
    + destruct (board_items_get s _ Hb Hitem) as [k [_ Hk]].
      exists k, q, ys. repeat split; auto. apply Color_eqb_eq, Ec.
    + inversion Hf; subst ys. destruct Hy.
  - inversion Hf; subst ys. destruct Hy.
Qed.

Lemma stuck_check_zone_in (enemy : Color) (zone : list coord) :
  stuck_check_zone s enemy = Ok zone ->
  forall location, In location zone <-> threatens_legally s enemy location.
Proof.
  intros Hz location. unfold stuck_check_zone in Hz.
  rewrite (collect_r_in _ _ _ Hz location). split.
  - intros [[q |] [ys [Hitem [Hf Hy]]]].
    + destruct (Color_eqb (get_color (store s q)) enemy) eqn:Ec.
      * destruct (get_movement_range (store s q)) as [l |] eqn:El; simpl in Hf;
          [| discriminate].
        apply (collect_r_in _ _ _ Hf) in Hy.
        destruct Hy as [m [ms [Hm [Hlegal Hin]]]].
        destruct (pass_legality_check_hypothetical s m q enemy) as [[|] |] eqn:Ep;
          simpl in Hlegal; try discriminate; inversion Hlegal; subst ms;
          simpl in Hin; [| tauto].
        destruct Hin as [<- | []].
        destruct (board_items_get s _ Hb Hitem) as [k [_ Hk]].
        exists k, q, l. repeat split; auto. apply Color_eqb_eq, Ec.
      * inversion Hf; subst ys. destruct Hy.
    + inversion Hf; subst ys. destruct Hy.
  - intros [k [q [l [Hk [Hc [Hl [Hin Hp]]]]]]].
    pose proof (board_get_items s k _ Hk) as Hitem.
    destruct (collect_r_each _ _ _ Hz _ Hitem) as [ys Hys].
    exists (Some q), ys. split; [exact Hitem |]. split; [exact Hys |].
    cbv beta in Hys. unfold get_color in Hys. rewrite Hc in Hys.
    assert (E : Color_eqb enemy enemy = true) by (apply Color_eqb_eq; reflexivity).
    rewrite E, Hl in Hys. simpl in Hys.
    apply (collect_r_in _ _ _ Hys). exists location, [location].
    split; [exact Hin |]. rewrite Hp. simpl. auto.
Qed.
End Zones.

(** [is_general_stuck] answers [True] exactly when every destination of the
    General is in the check zone of the first loop or is refused by the
    hypothetical legality check. *)
Lemma is_general_stuck_spec (s : JanggiBoard) (g : ref) (enemy : Color)
    (l : list coord) (b : bool) :
  board_complete (board s) ->
  get_movement_range (store s g) = Ok l ->
  is_general_stuck s (Some g) enemy = Ok b ->
  (b = true <->
   forall option, In option l ->
     threatens_legally s enemy option
     \/ pass_legality_check_hypothetical s option g (color (store s g)) = Ok false).
Proof.
  intros Hb Hl H. unfold is_general_stuck in H. rewrite Hl in H. simpl in H.
  destruct (stuck_check_zone s enemy) as [zone |] eqn:Ez; simpl in H; [| discriminate].
  match type of H with
  | rbind ?c _ = _ => destruct c as [esc |] eqn:Ee; simpl in H; [| discriminate]
  end.
  pose proof (collect_r_nil _ _ _ Ee) as Hnil.
  assert (Hb' : b = true <-> esc = []).
  { destruct esc; simpl in H; inversion H; split; congruence. }
  rewrite Hb', Hnil. clear Hb' Hnil H.
  split.
  - intros Hall option Hopt. specialize (Hall option Hopt). simpl in Hall.
    destruct (coord_in option zone) eqn:Ec; simpl in Hall.
    + left. apply (stuck_check_zone_in s Hb enemy zone Ez), coord_in_In, Ec.
    + right. unfold get_color in Hall.
      destruct (pass_legality_check_hypothetical s option g (color (store s g)))
        as [[|] |]; simpl in Hall; try discriminate. reflexivity.
  - intros Hall option Hopt. simpl.
    destruct (coord_in option zone) eqn:Ec; simpl; [reflexivity |].
    destruct (Hall option Hopt) as [Hz | Hp].
    + apply (stuck_check_zone_in s Hb enemy zone Ez), coord_in_In in Hz. congruence.
    + unfold get_color. rewrite Hp. reflexivity.
Qed.

(** ** Games played from the starting position *)

Inductive played : JanggiGame -> Prop :=
| played_new : played new_JanggiGame
| played_move (move_from move_to : string) (g g' : JanggiGame) :
    played g -> make_move move_from move_to g = (Ok true, g') -> played g'.

(** Plays the moves in turn; [None] as soon as one is not accepted. *)
Fixpoint play (moves : list (string * string)) (g : JanggiGame) : option JanggiGame :=
  match moves with
  | [] => Some g
  | (move_from, move_to) :: moves' =>
      match make_move move_from move_to g with
      | (Ok true, g') => play moves' g'
      | _ => None
      end
  end.

Lemma play_played (moves : list (string * string)) (g g' : JanggiGame) :
  played g -> play moves g = Some g' -> played g'.
Proof.
  revert g. induction moves as [| [a b] moves IH]; simpl; intros g Hg H.
  - inversion H; subst. exact Hg.
  - destruct (make_move a b g) as [[[|] | e] g1] eqn:E; try discriminate.
    apply (IH g1); [| exact H]. eapply played_move; eauto.
Qed.

Definition game_after (moves : list (string * string)) : JanggiGame :=
  match play moves new_JanggiGame with
  | Some g => g
  | None => new_JanggiGame
  end.

(** Whatever the moves, [game_after] is a game played from the start. *)
Lemma game_after_played (moves : list (string * string)) :
  played (game_after moves).
Proof.
  unfold game_after.
  destruct (play moves new_JanggiGame) as [g |] eqn:E; [| apply played_new].
  apply (play_played moves new_JanggiGame); [apply played_new | exact E].
Qed.

(** Blue brings a Guard in front of its General, Red brings a Chariot to
    (9, a): the Guard on (9, d) is all that stands between them. *)
Definition shielding_moves : list (string * string) :=
  [("d10", "d9"); ("a4", "b4"); ("e9", "e9"); ("a1", "a7"); ("e9", "e9");
   ("a7", "a9")].

Definition shielded_game : JanggiGame := game_after shielding_moves.

(** Blue then steps the Guard back to (10, d). *)
Definition exposed_game : JanggiGame :=
  game_after (shielding_moves ++ [("d9", "d10")]).

(** Blue walls its General in on (10, e) behind a Horse on (9, e), flanked by
    two Chariots and the two Guards; Red brings a Cannon to (8, e), which
    checks over the Horse.  No Blue piece can answer. *)
Definition mating_moves : list (string * string) :=
  [("e9", "e10"); ("c1", "d3"); ("a10", "a9"); ("b3", "e3"); ("a9", "d9");
   ("e2", "e2"); ("i10", "i9"); ("e2", "e2"); ("i9", "f9"); ("e2", "e2");
   ("h10", "g8"); ("e2", "e2"); ("g8", "e9"); ("e4", "d4"); ("e10", "e10");
   ("e3", "e8")].

Definition mated_game : JanggiGame := game_after mating_moves.

Lemma shielded_game_played : played shielded_game.
Proof.
  apply (play_played shielding_moves new_JanggiGame); [apply played_new |].
  vm_compute. reflexivity.
Qed.

Lemma exposed_game_played : played exposed_game.
Proof.
  apply (play_played (shielding_moves ++ [("d9", "d10")]) new_JanggiGame);
    [apply played_new |].
  vm_compute. reflexivity.
Qed.

(** ** Coordinates in algebraic notation *)

(** Modelled from the spec: a coordinate string is the column letter
    followed by the row number 1 to 10 in one or two digits. *)
Definition coordinate_string (k : coord) : string :=
  String (snd k)
    (if fst k <? 10 then String (ascii_of_N (48 + Z.to_N (fst k))) EmptyString
     else "10").

Definition pass_checkb (k : coord) : bool :=
  match input_validation (coordinate_string k) (coordinate_string k),
        parse_coordinate (coordinate_string k) with
  | Ok true, Ok k' => coord_eqb k' k
  | _, _ => false
  end.

Lemma pass_check_all : forallb pass_checkb all_squares = true.
Proof. vm_compute. reflexivity. Qed.

Lemma coordinate_string_valid (k : coord) :
  on_board k ->
  input_validation (coordinate_string k) (coordinate_string k) = Ok true
  /\ parse_coordinate (coordinate_string k) = Ok k.
Proof.
  intros Hk. pose proof (all_squares_forall _ pass_check_all k Hk) as H.
  unfold pass_checkb in H.
  destruct (input_validation _ _) as [[|] |]; try discriminate.
  destruct (parse_coordinate _) as [k' |]; try discriminate.
  apply coord_eqb_eq in H. subst k'. auto.
Qed.



(** ** A position with a blocked threat *)

(** The board on which the listed pieces stand; the piece at position [n]
    of the list is the object with reference [n]. *)
Definition store_of (pieces : list BoardPiece) (r : ref) : BoardPiece :=
  nth r pieces (mkPiece (0, "a"%char) RED Soldier).

Fixpoint standing_at (pieces : list BoardPiece) (n : nat) (k : coord) : option ref :=
  match pieces with
  | [] => None
  | p :: rest => if coord_eqb (current_pos p) k then Some n
                 else standing_at rest (S n) k
  end.

Definition board_of (pieces : list BoardPiece) : board_dict :=
  map (fun r => (r, map (fun c => (c, standing_at pieces 0 (r, c))) columns)) rows.

(** A Blue General in the corner (10, d) next to its Guard; a Red Chariot on
    (9, a) whose way along row 9 is barred by a Blue Horse on (9, b). *)
Definition barred_chariot : JanggiBoard :=
  let pieces :=
    [mkPiece (10, "d"%char) BLUE General;
     mkPiece (10, "e"%char) BLUE Guard;
     mkPiece (9, "b"%char) BLUE Horse;
     mkPiece (9, "a"%char) RED Chariot;
     mkPiece (2, "e"%char) RED General] in
  mkBoard (board_of pieces) (store_of pieces)
    (mkLocations (10, "d"%char) (2, "e"%char)) false.

Lemma barred_chariot_invariant : invariant barred_chariot.
Proof. apply invariantb_sound. vm_compute. reflexivity. Qed.

(** The condition of the spec for a stuck General: every destination in the
    General's range is in the unfiltered threat zone of the enemy or fails
    the hypothetical legality check. *)
Definition stuck_by_raw_zone (s : JanggiBoard) (g : ref) (enemy : Color) : Prop :=
  forall l, get_movement_range (store s g) = Ok l ->
  forall option, In option l ->
    threatens_raw s enemy option
    \/ pass_legality_check_hypothetical s option g (color (store s g)) = Ok false.

(** * The claims *)

(** C1. On a well-formed board, for a piece that stands on the cell it
    records and any destination square of the board,
    [test_save_general_movement] returns, and returns with the object exactly
    as it was before the call: the two simulation writes are undone whether
    the check is cleared ([checked = false]) or remains ([checked = true]). *)
Theorem test_save_general_movement_restores_grid (s : JanggiBoard)
    (friendly_piece : ref) (save_general_move : coord) (general_color : Color) :
  well_formed s ->
  get_location_contents s (get_current_pos (store s friendly_piece))
  = Ok (Some friendly_piece) ->
  on_board save_general_move ->
  exists b1 b2 checked,
    board_set (board s) save_general_move (Some friendly_piece) = Ok b1
    /\ board_set b1 (get_current_pos (store s friendly_piece)) None = Ok b2
    /\ get_general_check_status (with_board s b2) general_color = Ok checked
    /\ test_save_general_movement friendly_piece save_general_move general_color s
       = (Ok (negb checked), s).
Proof.
  intros Hwf Hplace Hto.
  apply test_save_general_movement_runs; assumption.
Qed.

Lemma test_save_general_movement_restores_grid_witness :
  exists b1 b2 checked,
    board_set (board new_JanggiBoard) (6, "a"%char) (Some 54%nat) = Ok b1
    /\ board_set b1 (get_current_pos (store new_JanggiBoard 54%nat)) None = Ok b2
    /\ get_general_check_status (with_board new_JanggiBoard b2) BLUE = Ok checked
    /\ test_save_general_movement 54%nat (6, "a"%char) BLUE new_JanggiBoard
       = (Ok (negb checked), new_JanggiBoard).
Proof.
  apply (test_save_general_movement_restores_grid new_JanggiBoard 54%nat
           (6, "a"%char) BLUE).
  - apply inv_wf, invariantb_sound. vm_compute. reflexivity.
  - vm_compute. reflexivity.
  - apply on_boardb_iff. vm_compute. reflexivity.
Defined.

(** C3. On a board that satisfies the invariant, [move_piece] returns
    [False] and leaves the object (grid, recorded positions, General
    locations, flag) exactly as it was when the source square is empty and
    when the legality check returns [False]; whenever the object differs
    after the call, the call returned [True]; and with both squares on the
    board the call always returns a boolean. *)
Theorem move_piece_failure_mutates_nothing (s : JanggiBoard)
    (move_from move_to : coord) (current_turn : Color) :
  invariant s ->
  (get_location_contents s move_from = Ok None ->
   move_piece move_from move_to current_turn s = (Ok false, s))
  /\ (forall board_piece,
        get_location_contents s move_from = Ok (Some board_piece) ->
        fst (pass_legality_check move_to board_piece current_turn false s) = Ok false ->
        move_piece move_from move_to current_turn s = (Ok false, s))
  /\ (forall r s',
        move_piece move_from move_to current_turn s = (r, s') ->
        s' <> s -> r = Ok true)
  /\ (on_board move_from -> on_board move_to ->
      exists b s', move_piece move_from move_to current_turn s = (Ok b, s')).
Proof.
  intros Hinv. split; [apply move_piece_empty |].
  split; [intros q; apply move_piece_illegal; exact Hinv |].
  destruct (move_piece_cases s Hinv move_from move_to current_turn)
    as [[r [Hr [Hne Hfalse]]] | [q [l [b1 [b2 H]]]]].
  - split.
    + intros r' s' Hm Hs. rewrite Hr in Hm. inversion Hm. congruence.
    + intros Hf Ht. exists false, s. rewrite Hr, (Hfalse Hf Ht). reflexivity.
  - destruct H as [_ [_ [_ [_ [_ [_ [_ [_ [_ [_ [_ Hm]]]]]]]]]]]. split.
    + intros r' s' Hm'. rewrite Hm in Hm'. inversion Hm'. reflexivity.
    + intros _ _. eauto.
Qed.

Lemma move_piece_failure_mutates_nothing_witness :
  (get_location_contents new_JanggiBoard (5, "a"%char) = Ok None ->
   move_piece (5, "a"%char) (6, "a"%char) BLUE new_JanggiBoard
   = (Ok false, new_JanggiBoard))
  /\ (forall board_piece,
        get_location_contents new_JanggiBoard (5, "a"%char) = Ok (Some board_piece) ->
        fst (pass_legality_check (6, "a"%char) board_piece BLUE false new_JanggiBoard)
        = Ok false ->
        move_piece (5, "a"%char) (6, "a"%char) BLUE new_JanggiBoard
        = (Ok false, new_JanggiBoard))
  /\ (forall r s',
        move_piece (5, "a"%char) (6, "a"%char) BLUE new_JanggiBoard = (r, s') ->
        s' <> new_JanggiBoard -> r = Ok true)
  /\ (on_board (5, "a"%char) -> on_board (6, "a"%char) ->
      exists b s',
        move_piece (5, "a"%char) (6, "a"%char) BLUE new_JanggiBoard = (Ok b, s')).
Proof.
  apply (move_piece_failure_mutates_nothing new_JanggiBoard (5, "a"%char)
           (6, "a"%char) BLUE).
  apply invariantb_sound. vm_compute. reflexivity.
Defined.

Lemma legality_rules_cannon (s : JanggiBoard) (move_to : coord) (piece target : ref)
    (current_turn : Color) (l : list coord) :
  kind (store s piece) = Cannon ->
  get_location_contents s move_to = Ok (Some target) ->
  kind (store s target) = Cannon ->
  legality_rules s move_to piece current_turn l = Ok false.
Proof.
  intros Hp Ht Hk. unfold legality_rules.
  destruct (negb (Color_eqb _ _)); [reflexivity |].
  destruct (negb (coord_in _ _)); [reflexivity |].
  rewrite Ht. cbn [rbind occupied_by].
  destruct (Color_eqb _ _); [reflexivity |].
  pose proof (contains_kind (store s piece) Cannon) as H1.
  pose proof (contains_kind (store s target) Cannon) as H2.
  simpl kind_name in H1, H2. rewrite H1, H2, Hp, Hk. reflexivity.
Qed.

(** C5. On a board that satisfies the invariant, a move of a Cannon onto a
    square occupied by a Cannon of either colour is refused: the legality
    check, real or hypothetical, returns [False], and so does [move_piece],
    whatever stands between the two squares and whoever is to move; the
    object is left untouched. *)
Theorem cannon_never_takes_cannon (s : JanggiBoard) (move_from move_to : coord)
    (piece target : ref) (current_turn : Color) (hypothetical_movement : bool) :
  invariant s ->
  get_location_contents s move_from = Ok (Some piece) ->
  kind (store s piece) = Cannon ->
  get_location_contents s move_to = Ok (Some target) ->
  kind (store s target) = Cannon ->
  pass_legality_check move_to piece current_turn hypothetical_movement s
  = (Ok false, s)
  /\ move_piece move_from move_to current_turn s = (Ok false, s).
Proof.
  intros Hinv Hsrc Hp Ht Hk.
  assert (Hto : on_board move_to).
  { eapply board_get_ok_on_board; [apply Hinv | exact Ht]. }
  assert (Hplc : forall h,
            pass_legality_check move_to piece current_turn h s = (Ok false, s)).
  { intros h.
    destruct (pass_legality_check_shape s Hinv move_to piece current_turn h
                (placed s Hinv _ _ Hsrc)) as [l [r [Hl [_ [Hok ->]]]]].
    destruct (Hok Hto) as [[|] ->]; [reflexivity |].
    rewrite (legality_rules_cannon s move_to piece target current_turn l Hp Ht Hk).
    reflexivity. }
  split; [apply Hplc |].
  apply (move_piece_illegal s Hinv move_from move_to current_turn piece Hsrc).
  rewrite Hplc. reflexivity.
Qed.

Lemma cannon_never_takes_cannon_witness :
  pass_legality_check (3, "b"%char) 64%nat BLUE false new_JanggiBoard
  = (Ok false, new_JanggiBoard)
  /\ move_piece (8, "b"%char) (3, "b"%char) BLUE new_JanggiBoard
     = (Ok false, new_JanggiBoard).
Proof.
  apply (cannon_never_takes_cannon new_JanggiBoard (8, "b"%char) (3, "b"%char)
           64%nat 19%nat BLUE false).
  - apply invariantb_sound. vm_compute. reflexivity.
  - vm_compute. reflexivity.
  - vm_compute. reflexivity.
  - vm_compute. reflexivity.
  - vm_compute. reflexivity.
Defined.

(** The column index of a General or Guard is not tested against the end of
    the alphabet, as it is for a Horse, an Elephant or a Soldier: a General
    put on column i, where none stands in play, raises IndexError. *)
Lemma General_range_raises_on_column_i :
  on_board (5, "i"%char)
  /\ get_movement_range (mkPiece (5, "i"%char) BLUE General) = Raise IndexError
  /\ ~ range_on_board (mkPiece (5, "i"%char) BLUE General).
Proof.
  split; [apply on_boardb_iff; reflexivity |].
  split; [reflexivity |].
  intros [l [H _]]. vm_compute in H. discriminate.
Qed.

(** C7. The map of General locations is not kept on the Generals when a
    General is taken, which the legality check does not prevent: in a game
    played from the start, on a board whose map is in sync, Red's Chariot
    takes the Blue General on (9, e); [move_piece] returns [True] and the
    Blue entry of the map still reads (9, e), a square that now holds the
    Chariot, so the map is no longer in sync. *)
Lemma general_capture_leaves_stale_location :
  played exposed_game
  /\ invariant (current_board exposed_game)
  /\ generals_synced (current_board exposed_game)
  /\ exists s',
       move_piece (9, "a"%char) (9, "e"%char) RED (current_board exposed_game)
       = (Ok true, s')
       /\ loc_get (general_locations s') BLUE = (9, "e"%char)
       /\ (exists q, get_location_contents s' (9, "e"%char) = Ok (Some q)
                     /\ store s' q = mkPiece (9, "e"%char) RED Chariot)
       /\ ~ generals_synced s'.
Proof.
  split; [apply exposed_game_played |].
  assert (Hinv : invariant (current_board exposed_game)).
  { apply invariantb_sound. vm_compute. reflexivity. }
  split; [exact Hinv |].
  split; [apply syncedb_sound; [apply Hinv | vm_compute; reflexivity] |].
  exists (snd (move_piece (9, "a"%char) (9, "e"%char) RED (current_board exposed_game))).
  split; [vm_compute; reflexivity |].
  split; [vm_compute; reflexivity |].
  split; [exists 0%nat; split; vm_compute; reflexivity |].
  intros Hs. destruct (Hs BLUE) as [[g [Hg [Hk _]]] _].
  vm_compute in Hg. inversion Hg; subst g. vm_compute in Hk. discriminate.
Qed.

(** After the capture the game goes on with nobody in check; Blue passes,
    and when the Chariot leaves (9, e) the stale entry points at an empty
    cell: [update_checkmate_status] calls a method on [None] and [make_move]
    raises AttributeError. *)
Lemma stale_location_crashes_make_move :
  fst (make_move "a9" "e9" exposed_game) = Ok true
  /\ get_game_state (snd (make_move "a9" "e9" exposed_game)) = UNFINISHED
  /\ fst (make_move "a10" "a10" (snd (make_move "a9" "e9" exposed_game))) = Ok true
  /\ fst (make_move "e9" "e8"
            (snd (make_move "a10" "a10" (snd (make_move "a9" "e9" exposed_game)))))
     = Raise AttributeError.
Proof. repeat split; vm_compute; reflexivity. Qed.

(** X23. On a board that satisfies the invariant and whose General
    locations are on the Generals, after every successful [move_piece] that
    does not take a General, the map entry of each colour is again the one
    cell that holds that colour's General. *)
Theorem general_locations_follow_generals (s s' : JanggiBoard)
    (move_from move_to : coord) (current_turn : Color) :
  invariant s -> generals_synced s ->
  (forall t, get_location_contents s move_to = Ok (Some t) ->
             kind (store s t) <> General) ->
  move_piece move_from move_to current_turn s = (Ok true, s') ->
  generals_synced s'.
Proof.
  intros Hinv Hsync Hcap Hmove.
  apply (move_piece_preserves s s' move_from move_to current_turn); assumption.
Qed.

Lemma general_locations_follow_generals_witness :
  generals_synced
    (snd (move_piece (9, "e"%char) (8, "e"%char) BLUE new_JanggiBoard)).
Proof.
  apply (general_locations_follow_generals new_JanggiBoard _
           (9, "e"%char) (8, "e"%char) BLUE).
  - apply invariantb_sound. vm_compute. reflexivity.
  - apply syncedb_sound; [apply completeb_sound |]; vm_compute; reflexivity.
  - intros t Ht. vm_compute in Ht. discriminate.
  - vm_compute. reflexivity.
Defined.

(** C2. [make_move] on the starting position raises instead of returning
    [False] on malformed coordinates that its input validation lets through:
    row 0 (KeyError from the grid), an empty source string (IndexError from
    the validation itself), a row that is not a number (ValueError from
    [int]) and an upper-case column (KeyError from the grid). *)
Theorem make_move_raises_on_malformed_input :
  make_move "a0" "a1" new_JanggiGame = (Raise KeyError, new_JanggiGame)
  /\ make_move "" "a1" new_JanggiGame = (Raise IndexError, new_JanggiGame)
  /\ make_move "ab" "a1" new_JanggiGame = (Raise ValueError, new_JanggiGame)
  /\ make_move "A7" "A6" new_JanggiGame = (Raise KeyError, new_JanggiGame).
Proof. repeat split; vm_compute; reflexivity. Qed.

(** C4, as stated, fails on [barred_chariot]: every destination of the Blue
    General is in the raw range of the Red Chariot or refused by the
    legality check, so the condition of the claim holds, yet
    [is_general_stuck] answers [False], because the Chariot cannot legally
    reach (9, d) and (9, e) past the Horse. *)
Lemma is_general_stuck_ignores_blocked_threat :
  invariant barred_chariot
  /\ is_general_stuck barred_chariot (Some 0%nat) RED = Ok false
  /\ stuck_by_raw_zone barred_chariot 0%nat RED
  /\ ~ (is_general_stuck barred_chariot (Some 0%nat) RED = Ok true
        <-> stuck_by_raw_zone barred_chariot 0%nat RED).
Proof.
  assert (Hraw : stuck_by_raw_zone barred_chariot 0%nat RED).
  { intros l Hl option Hopt. vm_compute in Hl. inversion Hl; subst l. clear Hl.
    pose proof barred_chariot_invariant as Hinv.
    simpl in Hopt.
    repeat (destruct Hopt as [<- | Hopt];
            [first [ right; vm_compute; reflexivity
                   | left; apply safe_general_move_check_false;
                     [apply Hinv | vm_compute; reflexivity] ] |]).
    destruct Hopt. }
  split; [apply barred_chariot_invariant |].
  split; [vm_compute; reflexivity |].
  split; [exact Hraw |].
  intros [_ H]. specialize (H Hraw). vm_compute in H. discriminate.
Qed.

(** C4, amended. On a well-formed board, for a General that stands on the
    grid, [is_general_stuck] returns, and returns [True] iff every raw
    destination in the General's movement range is either a destination
    that some enemy piece on the grid has in its range and passes the
    hypothetical legality check for (the legality-filtered threat zone), or
    fails the hypothetical legality check for the General. *)
Theorem is_general_stuck_iff (s : JanggiBoard) (general : ref) (enemy : Color) :
  well_formed s ->
  get_location_contents s (get_current_pos (store s general)) = Ok (Some general) ->
  exists b l,
    is_general_stuck s (Some general) enemy = Ok b
    /\ get_movement_range (store s general) = Ok l
    /\ (b = true <->
        forall option, In option l ->
          threatens_legally s enemy option
          \/ pass_legality_check_hypothetical s option general
               (get_color (store s general)) = Ok false).
Proof.
  intros Hwf Hplace.
  pose proof (wf_pieces s Hwf _ _ Hplace) as Hp.
  destruct (is_general_stuck_total s Hwf general enemy Hp) as [b Hb].
  destruct (piece_ok_range _ Hp) as [l [Hl _]].
  exists b, l. split; [exact Hb |]. split; [exact Hl |].
  apply (is_general_stuck_spec s general enemy l b (wf_complete s Hwf) Hl Hb).
Qed.

Lemma is_general_stuck_iff_witness :
  exists b l,
    is_general_stuck barred_chariot (Some 0%nat) RED = Ok b
    /\ get_movement_range (store barred_chariot 0%nat) = Ok l
    /\ (b = true <->
        forall option, In option l ->
          threatens_legally barred_chariot RED option
          \/ pass_legality_check_hypothetical barred_chariot option 0%nat
               (get_color (store barred_chariot 0%nat)) = Ok false).
Proof.
  apply (is_general_stuck_iff barred_chariot 0%nat RED).
  - apply inv_wf, invariantb_sound. vm_compute. reflexivity.
  - vm_compute. reflexivity.
Defined.



(** C9. The checkmate flag starts [False]; [update_checkmate_status] never
    lowers a raised flag, so it can only change it from [False] to [True];
    and once [get_checkmate_status] is [True] it stays [True] after any
    sequence of calls on the game and its board, whether they return or
    raise. *)
Theorem checkmate_flag_monotonic (s : JanggiBoard) (g : JanggiGame)
    (calls : list Call) :
  get_checkmate_status s = true ->
  get_checkmate_status (current_board g) = true ->
  get_checkmate_status new_JanggiBoard = false
  /\ get_checkmate_status (snd (update_checkmate_status s)) = true
  /\ get_checkmate_status (current_board (after_calls calls g)) = true.
Proof.
  intros Hs Hg. split; [reflexivity |].
  split; [apply (keeps_update_checkmate_status s Hs) |].
  apply (after_calls_checkmate calls g Hg).
Qed.

Lemma checkmate_flag_monotonic_witness :
  let s := snd (set_checkmate new_JanggiBoard) in
  let g := mkGame s UNFINISHED BLUE (mkChecks false false) in
  let calls := [Call_make_move "a7" "a6"; Call_update_checkmate_status;
                Call_move_piece (4, "a"%char) (5, "a"%char) RED] in
  get_checkmate_status new_JanggiBoard = false
  /\ get_checkmate_status (snd (update_checkmate_status s)) = true
  /\ get_checkmate_status (current_board (after_calls calls g)) = true.
Proof.
  intros s g calls.
  apply (checkmate_flag_monotonic s g calls); vm_compute; reflexivity.
Defined.

(** C10. When the General of the player to move is not in check, the real
    legality check is the hypothetical one: no check-related rule is
    applied.  So a move can expose the mover's own General: in a game played
    from the start, Blue is not in check, [move_piece] accepts Blue's Guard
    stepping from (9, d) to (10, d), and right after it
    [get_general_check_status] is [True] for Blue. *)
Theorem unchecked_mover_may_expose_general :
  (forall s move_to piece turn,
      get_general_check_status s turn = Ok false ->
      pass_legality_check move_to piece turn false s
      = (pass_legality_check_hypothetical s move_to piece turn, s))
  /\ (exists g s',
        played g
        /\ get_current_turn g = BLUE
        /\ get_general_check_status (current_board g) BLUE = Ok false
        /\ move_piece (9, "d"%char) (10, "d"%char) BLUE (current_board g)
           = (Ok true, s')
        /\ get_general_check_status s' BLUE = Ok true).
Proof.
  split.
  - intros s move_to piece turn H.
    unfold pass_legality_check, pass_legality_check_hypothetical, check_block,
      mbind, read, gets, mret.
    destruct (get_movement_range (store s piece)) as [l | e]; [| reflexivity].
    cbn [rbind].
    destruct (get_location_contents s (loc_get (general_locations s) turn))
      as [general | e]; [| reflexivity].
    cbn [rbind negb]. rewrite H. cbn [andb]. rewrite H. reflexivity.
  - exists shielded_game.
    exists (snd (move_piece (9, "d"%char) (10, "d"%char) BLUE
                   (current_board shielded_game))).
    split; [apply shielded_game_played |].
    repeat split; vm_compute; reflexivity.
Qed.

Lemma unchecked_mover_may_expose_general_witness :
  pass_legality_check (10, "d"%char) 84%nat BLUE false (current_board shielded_game)
  = (pass_legality_check_hypothetical (current_board shielded_game) (10, "d"%char)
       84%nat BLUE,
     current_board shielded_game).
Proof.
  apply (proj1 unchecked_mover_may_expose_general).
  vm_compute. reflexivity.
Defined.

(** * Further properties of the code *)

(** ** The shape of the movement ranges *)

(** The index of a column letter in the alphabet, -1 for any other
    character. *)
Definition column_number (c : ascii) : Z :=
  match Py.index alphabet c with
  | Ok i => i
  | Raise _ => -1
  end.

(** A check of every destination of every piece that stands on a square. *)
Definition every_destination (P : BoardPiece -> coord -> bool) : bool :=
  forallb (fun p => match get_movement_range p with
                    | Ok l => forallb (P p) l
                    | Raise _ => true
                    end)
          pieces_on_squares.

Lemma every_destination_sound (P : BoardPiece -> coord -> bool) :
  every_destination P = true ->
  forall p l m,
    on_board (current_pos p) -> get_movement_range p = Ok l -> In m l ->
    P p m = true.
Proof.
  intros H p l m Hp Hl Hm.
  pose proof (pieces_forall _ H p Hp) as Hc. cbv beta in Hc.
  rewrite Hl in Hc. rewrite forallb_forall in Hc. apply Hc, Hm.
Qed.

Definition row_step (p : BoardPiece) (m : coord) : Z :=
  fst m - fst (current_pos p).

Definition column_step (p : BoardPiece) (m : coord) : Z :=
  column_number (snd m) - column_number (snd (current_pos p)).

Definition soldier_stepb (p : BoardPiece) (m : coord) : bool :=
  negb (Kind_eqb (kind p) Soldier)
  || ((row_step p m =? 0) && (Z.abs (column_step p m) =? 1))
  || ((row_step p m =? y_movement_direction p) && (Z.abs (column_step p m) <=? 1)).

Lemma soldier_step_all : every_destination soldier_stepb = true.
Proof. vm_compute. reflexivity. Qed.

(** X1. A Soldier never retreats: from any board square each destination in
    its range is one column to the side on the same row, or one row forward
    (row + 1 for RED, row - 1 for BLUE) at most one column to the side. *)
Theorem Soldier_never_retreats (p : BoardPiece) (l : list coord) (m : coord) :
  on_board (current_pos p) ->
  kind p = Soldier ->
  get_movement_range p = Ok l ->
  In m l ->
  (row_step p m = 0 /\ Z.abs (column_step p m) = 1)
  \/ (row_step p m = y_movement_direction p /\ Z.abs (column_step p m) <= 1).
Proof.
  intros Hp Hk Hl Hm.
  pose proof (every_destination_sound _ soldier_step_all p l m Hp Hl Hm) as H.
  unfold soldier_stepb in H. rewrite Hk in H. cbn [Kind_eqb negb orb] in H.
  apply orb_true_iff in H.
  destruct H as [H | H]; apply andb_true_iff in H; destruct H as [H1 H2].
  - left. split; [apply Z.eqb_eq, H1 | apply Z.eqb_eq, H2].
  - right. split; [apply Z.eqb_eq, H1 | apply Z.leb_le, H2].
Qed.

Lemma Soldier_never_retreats_witness :
  (row_step (mkPiece (7, "c"%char) BLUE Soldier) (6, "c"%char) = 0
   /\ Z.abs (column_step (mkPiece (7, "c"%char) BLUE Soldier) (6, "c"%char)) = 1)
  \/ (row_step (mkPiece (7, "c"%char) BLUE Soldier) (6, "c"%char)
      = y_movement_direction (mkPiece (7, "c"%char) BLUE Soldier)
      /\ Z.abs (column_step (mkPiece (7, "c"%char) BLUE Soldier) (6, "c"%char)) <= 1).
Proof.
  apply (Soldier_never_retreats (mkPiece (7, "c"%char) BLUE Soldier)
           [(6, "c"%char); (7, "b"%char); (7, "d"%char)] (6, "c"%char)).
  - apply on_boardb_iff. vm_compute. reflexivity.
  - reflexivity.
  - vm_compute. reflexivity.
  - simpl. tauto.
Defined.

Definition jump_stepb (p : BoardPiece) (m : coord) : bool :=
  let ns := Z.abs (row_step p m) in
  let ew := Z.abs (column_step p m) in
  match kind p with
  | Horse => ((ns =? 2) && (ew =? 1)) || ((ns =? 1) && (ew =? 2))
  | Elephant => ((ns =? 3) && (ew =? 2)) || ((ns =? 2) && (ew =? 3))
  | _ => true
  end.

Lemma jump_step_all : every_destination jump_stepb = true.
Proof. vm_compute. reflexivity. Qed.

(** X2. From any board square every destination of a Horse is a (2,1) or a
    (1,2) jump away and every destination of an Elephant a (3,2) or a (2,3)
    jump away, counted in rows and columns. *)
Theorem Horse_and_Elephant_jumps (p : BoardPiece) (l : list coord) (m : coord) :
  on_board (current_pos p) ->
  get_movement_range p = Ok l ->
  In m l ->
  (kind p = Horse ->
   (Z.abs (row_step p m) = 2 /\ Z.abs (column_step p m) = 1)
   \/ (Z.abs (row_step p m) = 1 /\ Z.abs (column_step p m) = 2))
  /\ (kind p = Elephant ->
      (Z.abs (row_step p m) = 3 /\ Z.abs (column_step p m) = 2)
      \/ (Z.abs (row_step p m) = 2 /\ Z.abs (column_step p m) = 3)).
Proof.
  intros Hp Hl Hm.
  pose proof (every_destination_sound _ jump_step_all p l m Hp Hl Hm) as H.
  unfold jump_stepb in H. cbv zeta in H.
  split; intros Hk; rewrite Hk in H; apply orb_true_iff in H;
    destruct H as [H | H]; apply andb_true_iff in H; destruct H as [H1 H2];
    apply Z.eqb_eq in H1, H2; auto.
Qed.

Lemma Horse_and_Elephant_jumps_witness :
  (kind (mkPiece (10, "c"%char) BLUE Horse) = Horse ->
   (Z.abs (row_step (mkPiece (10, "c"%char) BLUE Horse) (8, "d"%char)) = 2
    /\ Z.abs (column_step (mkPiece (10, "c"%char) BLUE Horse) (8, "d"%char)) = 1)
   \/ (Z.abs (row_step (mkPiece (10, "c"%char) BLUE Horse) (8, "d"%char)) = 1
       /\ Z.abs (column_step (mkPiece (10, "c"%char) BLUE Horse) (8, "d"%char)) = 2))
  /\ (kind (mkPiece (10, "c"%char) BLUE Horse) = Elephant ->
      (Z.abs (row_step (mkPiece (10, "c"%char) BLUE Horse) (8, "d"%char)) = 3
       /\ Z.abs (column_step (mkPiece (10, "c"%char) BLUE Horse) (8, "d"%char)) = 2)
      \/ (Z.abs (row_step (mkPiece (10, "c"%char) BLUE Horse) (8, "d"%char)) = 2
          /\ Z.abs (column_step (mkPiece (10, "c"%char) BLUE Horse) (8, "d"%char)) = 3)).
Proof.
  apply (Horse_and_Elephant_jumps (mkPiece (10, "c"%char) BLUE Horse)
           [(8, "d"%char); (8, "b"%char); (9, "e"%char); (9, "a"%char)]
           (8, "d"%char)).
  - apply on_boardb_iff. vm_compute. reflexivity.
  - vm_compute. reflexivity.
  - simpl. tauto.
Defined.

Definition palace_corner_pair (a b : coord) : bool :=
  in_palace a && in_palace b
  && (Z.abs (fst a - fst b) =? 2)
  && (Z.abs (column_number (snd a) - column_number (snd b)) =? 2).

Definition line_stepb (p : BoardPiece) (m : coord) : bool :=
  match kind p with
  | Chariot | Cannon =>
      negb (coord_eqb m (current_pos p))
      && ((fst m =? fst (current_pos p))
          || Ascii.eqb (snd m) (snd (current_pos p))
          || palace_corner_pair (current_pos p) m)
  | _ => negb (coord_eqb m (current_pos p))
  end.

Lemma line_step_all : every_destination line_stepb = true.
Proof. vm_compute. reflexivity. Qed.

(** X3. No piece has the square it stands on in its movement range; and
    every destination of a Chariot or Cannon is on its row, on its column,
    or the opposite corner of the palace it stands in a corner of. *)
Theorem range_excludes_own_square (p : BoardPiece) (l : list coord) (m : coord) :
  on_board (current_pos p) ->
  get_movement_range p = Ok l ->
  In m l ->
  m <> current_pos p
  /\ (kind p = Chariot \/ kind p = Cannon ->
      fst m = fst (current_pos p)
      \/ snd m = snd (current_pos p)
      \/ palace_corner_pair (current_pos p) m = true).
Proof.
  intros Hp Hl Hm.
  pose proof (every_destination_sound _ line_step_all p l m Hp Hl Hm) as H.
  unfold line_stepb in H. split.
  - apply coord_eqb_neq.
    destruct (kind p); try (apply negb_true_iff; exact H);
      apply andb_true_iff in H; destruct H as [H _]; apply negb_true_iff, H.
  - intros [Hk | Hk]; rewrite Hk in H; apply andb_true_iff in H;
      destruct H as [_ H]; rewrite !orb_true_iff in H;
      destruct H as [[H | H] | H];
      [ left; apply Z.eqb_eq, H | right; left; apply Ascii.eqb_eq, H | auto
      | left; apply Z.eqb_eq, H | right; left; apply Ascii.eqb_eq, H | auto ].
Qed.

Lemma range_excludes_own_square_witness :
  (10, "f"%char) <> current_pos (mkPiece (8, "d"%char) RED Chariot)
  /\ (kind (mkPiece (8, "d"%char) RED Chariot) = Chariot
      \/ kind (mkPiece (8, "d"%char) RED Chariot) = Cannon ->
      fst (10, "f"%char) = fst (current_pos (mkPiece (8, "d"%char) RED Chariot))
      \/ snd (10, "f"%char) = snd (current_pos (mkPiece (8, "d"%char) RED Chariot))
      \/ palace_corner_pair (current_pos (mkPiece (8, "d"%char) RED Chariot))
           (10, "f"%char) = true).
Proof.
  destruct (get_movement_range (mkPiece (8, "d"%char) RED Chariot)) as [l | e] eqn:E;
    [| vm_compute in E; discriminate].
  apply (range_excludes_own_square (mkPiece (8, "d"%char) RED Chariot) l
           (10, "f"%char)).
  - apply on_boardb_iff. vm_compute. reflexivity.
  - exact E.
  - vm_compute in E. inversion E. simpl. tauto.
Defined.

(** ** The board between calls *)

(** The state that every reachable board is in: a well-formed grid whose
    pieces record the cell they stand on. *)
Definition sound (s : JanggiBoard) : Prop :=
  well_formed s /\ positions_consistent s.

Section Frames.
Variable s : JanggiBoard.
Hypothesis Hwf : well_formed s.
Hypothesis Hpos : positions_consistent s.

Lemma raises_frame {A : Type} (m : M A) (e : exn) :
  m s = (Raise e, s) -> lands False m s.
Proof. intros H. exists (Raise e). split; [exact H | intros []]. Qed.

Lemma can_friendly_break_check_frame (general : option ref) :
  lands False (can_friendly_break_check general) s.
Proof.
  destruct general as [g |]; [| apply (raises_frame _ AttributeError); reflexivity].
  unfold can_friendly_break_check.
  apply lands_bind; [apply lands_gets |]. intros general_color _.
  apply lands_bind; [apply lands_gets |]. intros general_location _.
  apply lands_bind; [apply lands_gets |]. intros keys _.
  apply lands_any_M. intros key _.
  apply lands_bind; [apply lands_read; intros [] |].
  intros [q |] Hitem; [| apply lands_ret].
  apply read_value in Hitem.
  destruct (negb (Nat.eqb q g)); [| apply lands_ret].
  apply lands_bind; [apply lands_gets |]. intros item_color _.
  destruct (Color_eqb item_color general_color); [| apply lands_ret].
  apply lands_bind; [apply lands_read; intros [] |]. intros l _.
  apply lands_any_M. intros potential_move _.
  destruct (negb (coord_eqb potential_move general_location)); [| apply lands_ret].
  apply lands_bind; [apply lands_read; intros [] |].
  intros [|] _; [| apply lands_ret].
  apply (lands_weaken (on_board potential_move)); [intros [] |].
  apply test_save_general_movement_lands; [exact Hwf |].
  unfold get_location_contents in Hitem. rewrite (Hpos _ _ Hitem). exact Hitem.
Qed.

Lemma pass_legality_check_weak_frame (move_to : coord) (piece : ref)
    (current_turn : Color) (hypothetical_movement : bool) :
  board_get (board s) (current_pos (store s piece)) = Ok (Some piece) ->
  lands False
    (pass_legality_check move_to piece current_turn hypothetical_movement) s.
Proof.
  intros Hplace. unfold pass_legality_check, check_block.
  apply lands_bind; [apply lands_read; intros [] |]. intros l _.
  apply lands_bind; [apply lands_read; intros [] |]. intros general _.
  apply lands_bind.
  - destruct (negb hypothetical_movement); [| apply lands_ret].
    apply lands_bind; [apply lands_gets |]. intros piece_color _.
    apply lands_bind; [apply lands_read; intros [] |]. intros in_check _.
    destruct (in_check && negb (ref_is general piece)).
    + apply lands_bind; [apply can_friendly_break_check_frame |].
      intros can_break _. destruct (negb can_break); [apply lands_ret |].
      apply lands_bind.
      { apply (lands_weaken (on_board move_to)); [intros [] |].
        apply test_save_general_movement_lands; assumption. }
      intros saves _. destruct (negb saves); apply lands_ret.
    + apply lands_bind; [apply lands_read; intros [] |].
      intros [|] _; [| apply lands_ret].
      apply lands_bind; [apply lands_read; intros [] |].
      intros safe _. destruct (negb safe); apply lands_ret.
  - intros [|] _; [apply lands_ret | apply lands_read; intros []].
Qed.

(** A [True] from the real legality check is a [True] from the rules on the
    board as it was before the call. *)
Lemma pass_legality_check_true (move_to : coord) (piece : ref)
    (current_turn : Color) (s' : JanggiBoard) :
  board_get (board s) (current_pos (store s piece)) = Ok (Some piece) ->
  pass_legality_check move_to piece current_turn false s = (Ok true, s') ->
  s' = s
  /\ exists l, get_movement_range (store s piece) = Ok l
               /\ legality_rules s move_to piece current_turn l = Ok true.
Proof.
  intros Hplace H.
  destruct (pass_legality_check_weak_frame move_to piece current_turn false Hplace)
    as [r [Hr _]].
  rewrite Hr in H. inversion H; subst r s'. split; [reflexivity |].
  clear H. revert Hr.
  unfold pass_legality_check, mbind, read.
  destruct (get_movement_range (store s piece)) as [l | e]; [| discriminate].
  destruct (get_location_contents s (loc_get (general_locations s) current_turn))
    as [general | e]; [| discriminate].
  cbn [negb].
  destruct (check_block move_to piece current_turn general s) as [[[|] | e] s1];
    try discriminate.
  unfold mret. intros H. inversion H. subst s1.
  exists l. split; [reflexivity |]. congruence.
Qed.

(** [move_piece] either leaves the object untouched and does not return
    [True], or returns [True] and leaves the piece moved. *)
Lemma move_piece_outcomes (move_from move_to : coord) (current_turn : Color) :
  (exists r, move_piece move_from move_to current_turn s = (r, s) /\ r <> Ok true)
  \/ (exists q l b2,
        get_location_contents s move_from = Ok (Some q)
        /\ get_movement_range (store s q) = Ok l
        /\ legality_rules s move_to q current_turn l = Ok true
        /\ on_board move_to
        /\ board_complete b2
        /\ board_get b2 move_to = Ok (Some q)
        /\ board_get b2 move_from = Ok None
        /\ move_from <> move_to
        /\ (forall k, k <> move_to -> k <> move_from ->
                      board_get b2 k = board_get (board s) k)
        /\ move_piece move_from move_to current_turn s
           = (Ok true, moved s b2 q move_to current_turn)).
Proof.
  destruct (get_location_contents s move_from) as [[q |] | e] eqn:Hsrc.
  - assert (Hplace : board_get (board s) (current_pos (store s q)) = Ok (Some q)).
    { unfold get_location_contents in Hsrc. rewrite (Hpos _ _ Hsrc). exact Hsrc. }
    destruct (pass_legality_check_weak_frame move_to q current_turn false Hplace)
      as [r [Hr _]].
    destruct r as [[|] | e].
    + right.
      destruct (pass_legality_check_true _ _ _ _ Hplace Hr) as [_ [l [Hl Hrules]]].
      destruct (legality_rules_true _ _ _ _ _ Hrules)
        as [Hcol [Hin [[target [Htarget [Hown _]]] _]]].
      destruct (piece_ok_range _ (wf_pieces s Hwf _ _ Hplace)) as [l' [Hl' Hon]].
      assert (l' = l) by congruence. subst l'.
      assert (Hto : on_board move_to).
      { rewrite Forall_forall in Hon. apply Hon, Hin. }
      assert (Hfrom : on_board move_from).
      { eapply board_get_ok_on_board; [apply Hwf | exact Hsrc]. }
      assert (Hne : move_from <> move_to).
      { intros E. subst move_to. unfold get_location_contents in *.
        rewrite Hsrc in Htarget. inversion Htarget; subst target.
        simpl in Hown. unfold get_color in Hown.
        destruct (color (store s q)); discriminate. }
      destruct (board_set_on_board _ (wf_complete s Hwf) move_to (Some q) Hto)
        as [b1 [E1 [C1 [G1 O1]]]].
      destruct (board_set_on_board _ C1 move_from None Hfrom)
        as [b2 [E2 [C2 [G2 O2]]]].
      exists q, l, b2.
      split; [reflexivity |].
      repeat (split; [assumption |]).
      split; [rewrite (O2 _ (not_eq_sym Hne)); exact G1 |].
      split; [exact G2 |]. split; [exact Hne |].
      split; [intros k Hk1 Hk2; rewrite (O2 _ Hk2), (O1 _ Hk1); reflexivity |].
      unfold move_piece, mbind, read. rewrite Hsrc, Hr.
      unfold write_cell, set_current_pos, gets, set_general_location, mret.
      cbn [negb board with_board store general_locations checkmate].
      rewrite E1. cbn [board with_board store general_locations checkmate].
      rewrite E2. cbn [board with_board store general_locations checkmate].
      rewrite Nat.eqb_refl. unfold moved, is_general, update_current_pos.
      cbn [kind]. destruct (kind (store s q)); reflexivity.
    + left. exists (Ok false). split; [| discriminate].
      unfold move_piece, mbind, read. rewrite Hsrc, Hr. reflexivity.
    + left. exists (Raise e). split; [| discriminate].
      unfold move_piece, mbind, read. rewrite Hsrc, Hr. reflexivity.
  - left. exists (Ok false). split; [| discriminate].
    unfold move_piece, mbind, read. rewrite Hsrc. reflexivity.
  - left. exists (Raise e). split; [| discriminate].
    unfold move_piece, mbind, read. rewrite Hsrc. reflexivity.
Qed.

Lemma move_piece_sound (move_from move_to : coord) (current_turn : Color) :
  sound (snd (move_piece move_from move_to current_turn s)).
Proof.
  destruct (move_piece_outcomes move_from move_to current_turn)
    as [[r [Hr _]] | [q [l [b2 H]]]].
  - rewrite Hr. split; assumption.
  - destruct H as [Hsrc [Hl [Hrules [Hto [C2 [Gto [Gfrom [Hne [Go Hm]]]]]]]]].
    rewrite Hm. eapply moved_invariant_wf; eauto.
Qed.
End Frames.

(** Two objects that differ at most in the checkmate flag. *)
Definition same_position (s s' : JanggiBoard) : Prop :=
  board s' = board s
  /\ store s' = store s
  /\ general_locations s' = general_locations s.

Lemma same_position_refl (s : JanggiBoard) : same_position s s.
Proof. repeat split. Qed.

Lemma same_position_trans (s1 s2 s3 : JanggiBoard) :
  same_position s1 s2 -> same_position s2 s3 -> same_position s1 s3.
Proof.
  intros [B1 [S1 L1]] [B2 [S2 L2]]. repeat split; congruence.
Qed.

Lemma same_position_sound (s s' : JanggiBoard) :
  same_position s s' -> sound s -> sound s'.
Proof.
  intros [B [S L]] [[Hc Hl Hp] Hpos]. split; [constructor |].
  - rewrite B. exact Hc.
  - intros c. rewrite L. apply Hl.
  - intros k q. rewrite B, S. apply Hp.
  - intros k q. rewrite B, S. apply Hpos.
Qed.

(** [steady m]: run on a sound board, [m] changes at most the flag, whether
    it returns or raises. *)
Definition steady {A : Type} (m : M A) : Prop :=
  forall s, sound s -> same_position s (snd (m s)).

Lemma steady_ret {A : Type} (a : A) : steady (mret a).
Proof. intros s _. apply same_position_refl. Qed.

Lemma steady_read {A : Type} (f : JanggiBoard -> result A) : steady (read f).
Proof. intros s _. apply same_position_refl. Qed.

Lemma steady_gets {A : Type} (f : JanggiBoard -> A) : steady (gets f).
Proof. intros s _. apply same_position_refl. Qed.

Lemma steady_set_checkmate : steady set_checkmate.
Proof. intros s _. repeat split. Qed.

Lemma steady_bind {A B : Type} (m : M A) (f : A -> M B) :
  steady m -> (forall a, steady (f a)) -> steady (mbind m f).
Proof.
  intros Hm Hf s Hs. unfold mbind. specialize (Hm s Hs).
  destruct (m s) as [[a | e] s1]; simpl in Hm; [| exact Hm].
  apply (same_position_trans s s1); [exact Hm |].
  apply Hf. apply (same_position_sound s s1); assumption.
Qed.

Lemma steady_can_friendly_break_check (general : option ref) :
  steady (can_friendly_break_check general).
Proof.
  intros s [Hwf Hpos].
  destruct (can_friendly_break_check_frame s Hwf Hpos general) as [r [-> _]].
  apply same_position_refl.
Qed.

Create HintDb steady.

#[local] Hint Resolve steady_ret steady_read steady_gets steady_set_checkmate
  steady_can_friendly_break_check : steady.

Ltac steady_step :=
  first
    [ apply steady_bind; [| intro]
    | match goal with
      | |- steady (if ?b then _ else _) => destruct b
      end
    | solve [auto with steady] ].

Lemma steady_update_checkmate_status : steady update_checkmate_status.
Proof. unfold update_checkmate_status. repeat steady_step. Qed.

(** [preserves P m]: [P] of the object before [m] gives [P] of the object
    after it, whether [m] returns or raises. *)
Definition preserves {S A : Type} (P : S -> Prop) (m : SE S A) : Prop :=
  forall s, P s -> P (snd (m s)).

Section Preserves.
Context {S : Type} (P : S -> Prop).

Lemma preserves_ret {A : Type} (a : A) : preserves P (mret a).
Proof. intros s H. exact H. Qed.

Lemma preserves_read {A : Type} (f : S -> result A) : preserves P (read f).
Proof. intros s H. exact H. Qed.

Lemma preserves_gets {A : Type} (f : S -> A) : preserves P (gets f).
Proof. intros s H. exact H. Qed.

Lemma preserves_bind {A B : Type} (m : SE S A) (f : A -> SE S B) :
  preserves P m -> (forall a, preserves P (f a)) -> preserves P (mbind m f).
Proof.
  intros Hm Hf s H. unfold mbind. specialize (Hm s H).
  destruct (m s) as [[a | e] s1]; simpl in Hm; [apply Hf, Hm | exact Hm].
Qed.
End Preserves.

Definition game_sound (g : JanggiGame) : Prop := sound (current_board g).

Lemma preserves_on_board_object {A : Type} (m : M A) :
  preserves sound m -> preserves game_sound (on_board_object m).
Proof.
  intros Hm g H. unfold on_board_object, game_sound in *.
  specialize (Hm (current_board g) H).
  destruct (m (current_board g)) as [r b]. exact Hm.
Qed.

Lemma preserves_move_piece (move_from move_to : coord) (c : Color) :
  preserves sound (move_piece move_from move_to c).
Proof. intros s [Hwf Hpos]. apply move_piece_sound; assumption. Qed.

Lemma preserves_update_checkmate_status : preserves sound update_checkmate_status.
Proof.
  intros s H. apply (same_position_sound s); [| exact H].
  apply steady_update_checkmate_status, H.
Qed.

Lemma preserves_change_turn : preserves game_sound change_turn.
Proof. intros g H. exact H. Qed.

Lemma preserves_set_in_check (red blue : bool) :
  preserves game_sound (set_in_check red blue).
Proof. intros g H. exact H. Qed.

Lemma preserves_checkmate_game (loser : Color) :
  preserves game_sound (checkmate_game loser).
Proof. intros g H. exact H. Qed.

Create HintDb preserves.

#[local] Hint Resolve preserves_ret preserves_read preserves_gets
  preserves_change_turn preserves_set_in_check preserves_checkmate_game
  : preserves.

Ltac preserves_step :=
  first
    [ apply preserves_bind; [| intro]
    | match goal with
      | |- preserves _ (if ?b then _ else _) => destruct b
      end
    | solve [auto with preserves]
    | apply preserves_on_board_object;
      first [ apply preserves_move_piece
            | apply preserves_update_checkmate_status
            | apply preserves_read ] ].

Lemma preserves_update_check_status : preserves game_sound update_check_status.
Proof. unfold update_check_status. repeat preserves_step. Qed.

#[local] Hint Resolve preserves_update_check_status : preserves.

Lemma preserves_make_move (move_from move_to : string) :
  preserves game_sound (make_move move_from move_to).
Proof. unfold make_move. repeat preserves_step. Qed.

Lemma new_JanggiBoard_sound : sound new_JanggiBoard.
Proof.
  split; [apply new_JanggiBoard_invariant | apply new_JanggiBoard_invariant].
Qed.

Lemma played_sound (g : JanggiGame) : played g -> game_sound g.
Proof.
  induction 1 as [| a b g g' Hg IH Hm].
  - apply new_JanggiBoard_sound.
  - pose proof (preserves_make_move a b g IH) as H. rewrite Hm in H. exact H.
Qed.

(** ** The movement ranges stay on the board *)

(** C6. For every piece at a position it occupies on the board,
    [get_movement_range] returns a list, and each coordinate of the list has
    a row from 1 to 10 and a column from a to i: this holds of every piece
    that stands on the grid in a game played from the start, and of every
    piece on any board square it may stand on, which for a General or a
    Guard is a square of a palace. *)
Theorem movement_range_on_board :
  (forall (g : JanggiGame) (k : coord) (q : ref),
      played g ->
      get_location_contents (current_board g) k = Ok (Some q) ->
      exists l,
        get_movement_range (store (current_board g) q) = Ok l
        /\ Forall on_board l)
  /\ (forall p : BoardPiece,
        on_board (current_pos p) ->
        (palace_kind (kind p) = true -> in_palace (current_pos p) = true) ->
        exists l, get_movement_range p = Ok l /\ Forall on_board l).
Proof.
  split.
  - intros g k q Hg Hq.
    destruct (played_sound g Hg) as [Hwf _].
    apply piece_ok_range. exact (wf_pieces _ Hwf k q Hq).
  - intros p Hpos Hpal. apply piece_ok_range. split; assumption.
Qed.

Lemma movement_range_on_board_witness :
  exists l,
    get_movement_range (store (current_board exposed_game) 76%nat) = Ok l
    /\ Forall on_board l.
Proof.
  apply (proj1 movement_range_on_board exposed_game (9, "e"%char) 76%nat).
  - apply game_after_played.
  - vm_compute. reflexivity.
Defined.

(** ** What a successful move does *)

(** X4. On a sound board a [move_piece] that returns [True] has moved the
    piece of the source cell: the destination cell holds it, the source cell
    is empty, every other cell is as before, the piece records the
    destination and keeps its colour and class, every other piece object is
    as before, and the checkmate flag is untouched. *)
Theorem move_piece_effect (s s' : JanggiBoard) (move_from move_to : coord)
    (current_turn : Color) :
  sound s ->
  move_piece move_from move_to current_turn s = (Ok true, s') ->
  exists q,
    get_location_contents s move_from = Ok (Some q)
    /\ get_location_contents s' move_to = Ok (Some q)
    /\ get_location_contents s' move_from = Ok None
    /\ (forall k, k <> move_to -> k <> move_from ->
                  get_location_contents s' k = get_location_contents s k)
    /\ store s' q = mkPiece move_to (color (store s q)) (kind (store s q))
    /\ (forall r, r <> q -> store s' r = store s r)
    /\ checkmate s' = checkmate s.
Proof.
  intros [Hwf Hpos] Hmove.
  destruct (move_piece_outcomes s Hwf Hpos move_from move_to current_turn)
    as [[r [Hr Hne]] | [q [l [b2 H]]]].
  - rewrite Hr in Hmove. inversion Hmove. congruence.
  - destruct H as [Hsrc [_ [_ [_ [_ [Gto [Gfrom [_ [Go Hm]]]]]]]]].
    rewrite Hm in Hmove. inversion Hmove. subst s'. clear Hmove.
    exists q. unfold get_location_contents. cbn [moved board store checkmate].
    repeat split; auto.
    + rewrite Nat.eqb_refl. reflexivity.
    + intros r Hr. destruct (Nat.eqb_spec r q); [contradiction | reflexivity].
Qed.

Lemma move_piece_effect_witness :
  exists q,
    get_location_contents new_JanggiBoard (7, "a"%char) = Ok (Some q)
    /\ get_location_contents
         (snd (move_piece (7, "a"%char) (6, "a"%char) BLUE new_JanggiBoard))
         (6, "a"%char) = Ok (Some q)
    /\ get_location_contents
         (snd (move_piece (7, "a"%char) (6, "a"%char) BLUE new_JanggiBoard))
         (7, "a"%char) = Ok None
    /\ (forall k, k <> (6, "a"%char) -> k <> (7, "a"%char) ->
                  get_location_contents
                    (snd (move_piece (7, "a"%char) (6, "a"%char) BLUE new_JanggiBoard))
                    k
                  = get_location_contents new_JanggiBoard k)
    /\ store (snd (move_piece (7, "a"%char) (6, "a"%char) BLUE new_JanggiBoard)) q
       = mkPiece (6, "a"%char) (color (store new_JanggiBoard q))
           (kind (store new_JanggiBoard q))
    /\ (forall r, r <> q ->
          store (snd (move_piece (7, "a"%char) (6, "a"%char) BLUE new_JanggiBoard)) r
          = store new_JanggiBoard r)
    /\ checkmate (snd (move_piece (7, "a"%char) (6, "a"%char) BLUE new_JanggiBoard))
       = checkmate new_JanggiBoard.
Proof.
  apply (move_piece_effect new_JanggiBoard _ (7, "a"%char) (6, "a"%char) BLUE).
  - split; apply invariantb_sound; vm_compute; reflexivity.
  - vm_compute. reflexivity.
Defined.

(** X5. On a sound board a [move_piece] that returns [True] moved a piece of
    the colour to move, to a square of its raw movement range other than its
    own, which was empty or held a piece of the other colour, and not a
    Cannon onto a Cannon. *)
Theorem move_piece_accepts_only_legal (s s' : JanggiBoard)
    (move_from move_to : coord) (current_turn : Color) :
  sound s ->
  move_piece move_from move_to current_turn s = (Ok true, s') ->
  exists q l,
    get_location_contents s move_from = Ok (Some q)
    /\ get_color (store s q) = current_turn
    /\ get_movement_range (store s q) = Ok l
    /\ In move_to l
    /\ move_to <> move_from
    /\ (forall t, get_location_contents s move_to = Ok (Some t) ->
                  get_color (store s t) <> current_turn
                  /\ ~ (kind (store s q) = Cannon /\ kind (store s t) = Cannon)).
Proof.
  intros [Hwf Hpos] Hmove.
  destruct (move_piece_outcomes s Hwf Hpos move_from move_to current_turn)
    as [[r [Hr Hne]] | [q [l [b2 H]]]].
  - rewrite Hr in Hmove. inversion Hmove. congruence.
  - destruct H as [Hsrc [Hl [Hrules [_ [_ [_ [_ [Hne _]]]]]]]].
    destruct (legality_rules_true _ _ _ _ _ Hrules)
      as [Hcol [Hin [[target [Htarget [Hown Hcannon]]] _]]].
    exists q, l.
    split; [exact Hsrc |]. split; [exact Hcol |]. split; [exact Hl |].
    split; [exact Hin |]. split; [apply not_eq_sym, Hne |].
    intros t Ht. rewrite Htarget in Ht. inversion Ht; subst target.
    cbn [occupied_by] in Hown, Hcannon. split.
    + intros Hc. unfold get_color in *. rewrite Hcol, Hc in Hown.
      destruct current_turn; discriminate.
    + intros [Hq Hk].
      pose proof (contains_kind (store s q) Cannon) as H1.
      pose proof (contains_kind (store s t) Cannon) as H2.
      simpl kind_name in H1, H2. rewrite H1, H2, Hq, Hk in Hcannon. discriminate.
Qed.

Lemma move_piece_accepts_only_legal_witness :
  exists q l,
    get_location_contents new_JanggiBoard (7, "a"%char) = Ok (Some q)
    /\ get_color (store new_JanggiBoard q) = BLUE
    /\ get_movement_range (store new_JanggiBoard q) = Ok l
    /\ In (6, "a"%char) l
    /\ (6, "a"%char) <> (7, "a"%char)
    /\ (forall t, get_location_contents new_JanggiBoard (6, "a"%char) = Ok (Some t) ->
                  get_color (store new_JanggiBoard t) <> BLUE
                  /\ ~ (kind (store new_JanggiBoard q) = Cannon
                        /\ kind (store new_JanggiBoard t) = Cannon)).
Proof.
  apply (move_piece_accepts_only_legal new_JanggiBoard
           (snd (move_piece (7, "a"%char) (6, "a"%char) BLUE new_JanggiBoard))
           (7, "a"%char) (6, "a"%char) BLUE).
  - split; apply invariantb_sound; vm_compute; reflexivity.
  - vm_compute. reflexivity.
Defined.

(** X6. In every game played from the start by accepted [make_move] calls the
    board is sound: the grid has its 90 cells, every piece on it stands on a
    board square (a General or Guard inside a palace) and records the cell
    it stands on, and both General locations are board squares. *)
Theorem played_games_are_sound (g : JanggiGame) :
  played g ->
  well_formed (current_board g) /\ positions_consistent (current_board g).
Proof. intros H. apply (played_sound g H). Qed.

Lemma played_games_are_sound_witness :
  well_formed (current_board exposed_game)
  /\ positions_consistent (current_board exposed_game).
Proof.
  apply (played_games_are_sound exposed_game).
  apply (play_played (shielding_moves ++ [("d9", "d10")]) new_JanggiGame);
    [apply played_new |].
  vm_compute. reflexivity.
Defined.

Definition same_palaceb (p : BoardPiece) (m : coord) : bool :=
  implb (palace_kind (kind p) && in_palace (current_pos p) && in_palace m)
        (Bool.eqb (coord_in (current_pos p) blue_palace) (coord_in m blue_palace)
         && Bool.eqb (coord_in (current_pos p) red_palace) (coord_in m red_palace)).

Lemma same_palace_all : every_destination same_palaceb = true.
Proof. vm_compute. reflexivity. Qed.

(** X7. On a sound board a General or Guard that [move_piece] moves stays in
    the palace it stands in: source and destination are both squares of the
    blue palace or both squares of the red palace. *)
Theorem General_and_Guard_stay_in_palace (s s' : JanggiBoard)
    (move_from move_to : coord) (current_turn : Color) (q : ref) :
  sound s ->
  move_piece move_from move_to current_turn s = (Ok true, s') ->
  get_location_contents s move_from = Ok (Some q) ->
  palace_kind (kind (store s q)) = true ->
  (coord_in move_from blue_palace = true /\ coord_in move_to blue_palace = true)
  \/ (coord_in move_from red_palace = true /\ coord_in move_to red_palace = true).
Proof.
  intros [Hwf Hpos] Hmove Hq Hk.
  destruct (move_piece_outcomes s Hwf Hpos move_from move_to current_turn)
    as [[r [Hr Hne]] | [q' [l [b2 H]]]].
  - rewrite Hr in Hmove. inversion Hmove. congruence.
  - destruct H as [Hsrc [Hl [Hrules _]]].
    assert (q' = q) by congruence. subst q'.
    destruct (legality_rules_true _ _ _ _ _ Hrules) as [_ [Hin [_ Hpal]]].
    pose proof (wf_pieces s Hwf _ _ Hq) as [Hon Hfrom].
    pose proof (every_destination_sound _ same_palace_all _ l move_to Hon Hl Hin)
      as Hsame.
    unfold same_palaceb in Hsame.
    rewrite Hk, (Hfrom Hk), (Hpal Hk) in Hsame. cbn [andb implb] in Hsame.
    apply andb_true_iff in Hsame. destruct Hsame as [Hb Hr].
    apply Bool.eqb_prop in Hb, Hr.
    rewrite (Hpos _ _ Hq) in Hb, Hr.
    pose proof (Hpal Hk) as Hto. unfold in_palace in Hto.
    apply orb_true_iff in Hto. destruct Hto as [Hto | Hto].
    + left. split; congruence.
    + right. split; congruence.
Qed.

Lemma General_and_Guard_stay_in_palace_witness :
  (coord_in (9, "e"%char) blue_palace = true
   /\ coord_in (8, "e"%char) blue_palace = true)
  \/ (coord_in (9, "e"%char) red_palace = true
      /\ coord_in (8, "e"%char) red_palace = true).
Proof.
  apply (General_and_Guard_stay_in_palace new_JanggiBoard
           (snd (move_piece (9, "e"%char) (8, "e"%char) BLUE new_JanggiBoard))
           (9, "e"%char) (8, "e"%char) BLUE 76%nat).
  - split; apply invariantb_sound; vm_compute; reflexivity.
  - vm_compute. reflexivity.
  - vm_compute. reflexivity.
  - vm_compute. reflexivity.
Defined.

Lemma piece_eta (p : BoardPiece) :
  mkPiece (current_pos p) (color p) (kind p) = p.
Proof. destruct p. reflexivity. Qed.

Lemma loc_set_back (l : Locations) (c : Color) (a b : coord) :
  loc_get l c = a -> loc_set (loc_set l c b) c a = l.
Proof. destruct l, c; simpl; intros <-; reflexivity. Qed.

(** X8. On a sound board whose General locations are on the Generals, moving
    a piece to an empty square and moving it back, both moves accepted,
    restores the object: the grid, every piece object, the General locations
    and the checkmate flag are as before the two calls. *)
Theorem move_and_back_restores (s s1 s2 : JanggiBoard) (a b : coord)
    (current_turn : Color) :
  sound s -> generals_synced s ->
  get_location_contents s b = Ok None ->
  move_piece a b current_turn s = (Ok true, s1) ->
  move_piece b a current_turn s1 = (Ok true, s2) ->
  board s2 = board s
  /\ (forall r, store s2 r = store s r)
  /\ general_locations s2 = general_locations s
  /\ checkmate s2 = checkmate s.
Proof.
  intros [Hwf Hpos] Hsync Hempty H1 H2.
  destruct (move_piece_outcomes s Hwf Hpos a b current_turn)
    as [[r [Hr Hne]] | [q [l [b2 H]]]].
  { rewrite Hr in H1. inversion H1. congruence. }
  destruct H as [Hsrc [Hl [Hrules [Hto [C2 [Gto [Gfrom [Hne [Go Hm]]]]]]]]].
  rewrite Hm in H1. inversion H1. subst s1. clear H1.
  destruct (moved_invariant_wf s Hwf Hpos a b current_turn q l b2
              Hsrc Hrules Hto C2 Gto Gfrom Go) as [Hwf1 Hpos1].
  destruct (move_piece_outcomes _ Hwf1 Hpos1 b a current_turn)
    as [[r [Hr Hne']] | [q' [l' [b3 H]]]].
  { rewrite Hr in H2. inversion H2. congruence. }
  destruct H as [Hsrc' [_ [_ [_ [C3 [Gto' [Gfrom' [_ [Go' Hm']]]]]]]]].
  rewrite Hm' in H2. inversion H2. subst s2. clear H2.
  unfold get_location_contents in Hsrc'. cbn [moved board] in Hsrc', Go'.
  assert (q' = q) by congruence. subst q'.
  destruct (legality_rules_true _ _ _ _ _ Hrules) as [Hcol _].
  split; [| split; [| split; [| reflexivity]]].
  - cbn [moved board]. symmetry. apply board_ext; [apply Hwf | exact C3 |].
    intros k Hk. destruct (coord_eqb k a) eqn:Ea.
    + apply coord_eqb_eq in Ea. subst k. rewrite Gto'. exact Hsrc.
    + apply coord_eqb_neq in Ea. destruct (coord_eqb k b) eqn:Eb.
      * apply coord_eqb_eq in Eb. subst k. rewrite Gfrom'. exact Hempty.
      * apply coord_eqb_neq in Eb. rewrite (Go' _ Ea Eb), (Go _ Eb Ea). reflexivity.
  - intros r. cbn [moved store].
    destruct (Nat.eqb_spec r q) as [-> | Hr]; [| reflexivity].
    unfold update_current_pos. cbn [color kind].
    rewrite <- (Hpos _ _ Hsrc) at 1. apply piece_eta.
  - cbn [moved store general_locations]. rewrite Nat.eqb_refl.
    unfold is_general, update_current_pos. cbn [kind].
    destruct (kind (store s q)) eqn:Ek; try reflexivity.
    apply loc_set_back. symmetry.
    destruct (Hsync current_turn) as [_ Huniq].
    apply (Huniq a q Hsrc Ek Hcol).
Qed.

Lemma move_and_back_restores_witness :
  let s1 := snd (move_piece (10, "a"%char) (9, "a"%char) BLUE new_JanggiBoard) in
  let s2 := snd (move_piece (9, "a"%char) (10, "a"%char) BLUE s1) in
  board s2 = board new_JanggiBoard
  /\ (forall r, store s2 r = store new_JanggiBoard r)
  /\ general_locations s2 = general_locations new_JanggiBoard
  /\ checkmate s2 = checkmate new_JanggiBoard.
Proof.
  intros s1 s2.
  apply (move_and_back_restores new_JanggiBoard s1 s2 (10, "a"%char) (9, "a"%char)
           BLUE).
  - split; apply invariantb_sound; vm_compute; reflexivity.
  - apply syncedb_sound; [apply completeb_sound |]; vm_compute; reflexivity.
  - vm_compute. reflexivity.
  - vm_compute. reflexivity.
  - vm_compute. reflexivity.
Defined.

(** ** Check detection *)

Lemma any_r_true {A : Type} (f : A -> result bool) (l : list A) (b : bool) :
  any_r f l = Ok b -> (b = true <-> exists x, In x l /\ f x = Ok true).
Proof.
  revert b. induction l as [| x l IH]; simpl; intros b H.
  - inversion H. split; [discriminate | intros [x [[] _]]].
  - destruct (f x) as [[|] | e] eqn:Ex; simpl in H; try discriminate.
    + inversion H. split; [intros _; exists x; auto | reflexivity].
    + rewrite (IH b H). split.
      * intros [y [Hy Hf]]. exists y. auto.
      * intros [y [[<- | Hy] Hf]]; [congruence | exists y; auto].
Qed.

Lemma any_r_found {A : Type} (f : A -> result bool) (l : list A) :
  (forall x, In x l -> exists b, f x = Ok b) ->
  (exists x, In x l /\ f x = Ok true) ->
  any_r f l = Ok true.
Proof.
  intros Htot Hex. destruct (any_r_total f l Htot) as [b Hb].
  rewrite Hb. f_equal. apply (any_r_true f l b Hb), Hex.
Qed.

Lemma opposite_neq (c c' : Color) :
  negb (Color_eqb c' c) = true <-> c' = opposite c.
Proof. destruct c, c'; simpl; split; congruence. Qed.

Lemma get_general_check_status_spec (s : JanggiBoard) (c : Color) (b : bool) :
  board_complete (board s) ->
  get_general_check_status s c = Ok b ->
  (b = true <->
   threatens_legally s (opposite c) (loc_get (general_locations s) c)).
Proof.
  intros Hb H. unfold get_general_check_status in H.
  replace (match c with BLUE => RED | RED => BLUE end) with (opposite c) in H
    by (destruct c; reflexivity).
  rewrite (any_r_true _ _ _ H). clear H. split.
  - intros [[q |] [Hitem Hf]]; [| discriminate].
    destruct (negb (Color_eqb (get_color (store s q)) c)) eqn:Ec; [| discriminate].
    apply opposite_neq in Ec.
    destruct (get_movement_range (store s q)) as [l |] eqn:El; [| discriminate].
    cbn [rbind] in Hf.
    pose proof (proj1 (any_r_true _ _ true Hf) eq_refl) as Hm. clear Hf.
    cbv beta in Hm. destruct Hm as [m [Hin Hp]].
    destruct (coord_eqb m (loc_get (general_locations s) c)) eqn:Em; [| discriminate].
    apply coord_eqb_eq in Em. subst m.
    destruct (board_items_get s _ Hb Hitem) as [k [_ Hk]].
    exists k, q, l. repeat split; auto.
  - intros [k [q [l [Hk [Hc [Hl [Hin Hp]]]]]]].
    exists (Some q). split; [eapply board_get_items; eauto |].
    unfold get_color. rewrite (proj2 (opposite_neq c _) Hc), Hl. cbn [rbind].
    apply any_r_found.
    + intros m _. destruct (coord_eqb m _) eqn:Em; [| eauto].
      apply coord_eqb_eq in Em. subst m. eauto.
    + exists (loc_get (general_locations s) c). split; [exact Hin |].
      rewrite coord_eqb_refl. exact Hp.
Qed.

(** X9. On a grid with its 90 cells, when [get_general_check_status]
    returns, it returns [True] iff some piece of the other colour on the
    grid has the General location of the colour in its movement range and
    passes the hypothetical legality check for that square. *)
Theorem get_general_check_status_iff (s : JanggiBoard) (general_color : Color)
    (b : bool) :
  board_complete (board s) ->
  get_general_check_status s general_color = Ok b ->
  (b = true <->
   exists k q l,
     get_location_contents s k = Ok (Some q)
     /\ color (store s q) = opposite general_color
     /\ get_movement_range (store s q) = Ok l
     /\ In (loc_get (general_locations s) general_color) l
     /\ pass_legality_check_hypothetical s
          (loc_get (general_locations s) general_color) q (opposite general_color)
        = Ok true).
Proof. apply get_general_check_status_spec. Qed.

Lemma get_general_check_status_iff_witness :
  true = true <->
  exists k q l,
    get_location_contents (current_board exposed_game) k = Ok (Some q)
    /\ color (store (current_board exposed_game) q) = opposite BLUE
    /\ get_movement_range (store (current_board exposed_game) q) = Ok l
    /\ In (loc_get (general_locations (current_board exposed_game)) BLUE) l
    /\ pass_legality_check_hypothetical (current_board exposed_game)
         (loc_get (general_locations (current_board exposed_game)) BLUE) q
         (opposite BLUE)
       = Ok true.
Proof.
  apply (get_general_check_status_iff (current_board exposed_game) BLUE true).
  - apply completeb_sound. vm_compute. reflexivity.
  - vm_compute. reflexivity.
Defined.

(** X10. On a grid with its 90 cells, when [safe_general_move_check]
    returns, it returns [False] iff some piece of the opposing colour on the
    grid has the square in its raw movement range; occupancy, paths and
    legality are not looked at. *)
Theorem safe_general_move_check_iff (s : JanggiBoard) (opposing_color : Color)
    (move_to : coord) (b : bool) :
  board_complete (board s) ->
  safe_general_move_check s opposing_color move_to = Ok b ->
  (b = false <->
   exists k q l,
     get_location_contents s k = Ok (Some q)
     /\ color (store s q) = opposing_color
     /\ get_movement_range (store s q) = Ok l
     /\ In move_to l).
Proof.
  intros Hb H. split.
  - intros ->. apply (safe_general_move_check_false s Hb _ _ H).
  - intros [k [q [l [Hk [Hc [Hl Hin]]]]]].
    unfold safe_general_move_check in H.
    destruct (collect_r _ (board_items s)) as [zone |] eqn:Ez; [| discriminate].
    cbn [rbind] in H.
    assert (Hz : In move_to zone).
    { apply (collect_r_in _ _ _ Ez). exists (Some q), l.
      split; [eapply board_get_items; eauto |]. split; [| exact Hin].
      unfold get_color. rewrite Hc.
      assert (E : Color_eqb opposing_color opposing_color = true)
        by (apply Color_eqb_eq; reflexivity).
      rewrite E. exact Hl. }
    apply coord_in_In in Hz. rewrite Hz in H. congruence.
Qed.

Lemma safe_general_move_check_iff_witness :
  false = false <->
  exists k q l,
    get_location_contents barred_chariot k = Ok (Some q)
    /\ color (store barred_chariot q) = RED
    /\ get_movement_range (store barred_chariot q) = Ok l
    /\ In (9, "d"%char) l.
Proof.
  apply (safe_general_move_check_iff barred_chariot RED (9, "d"%char) false).
  - apply completeb_sound. vm_compute. reflexivity.
  - vm_compute. reflexivity.
Defined.

(** ** Checkmate detection *)

(** X11. On a board that satisfies the invariant, [can_friendly_break_check]
    leaves the object exactly as it found it, however many moves it
    simulates; it returns a boolean for a General object and raises
    AttributeError for [None]. *)
Theorem can_friendly_break_check_restores (s : JanggiBoard) (general : option ref) :
  invariant s ->
  exists r,
    can_friendly_break_check general s = (r, s)
    /\ match general with
       | Some _ => exists b, r = Ok b
       | None => r = Raise AttributeError
       end.
Proof.
  intros Hinv. destruct general as [g |].
  - destruct (can_friendly_break_check_lands s Hinv g) as [r [Hr Hok]].
    exists r. split; [exact Hr | apply Hok; exact I].
  - exists (Raise AttributeError). split; reflexivity.
Qed.

Lemma can_friendly_break_check_restores_witness :
  exists r,
    can_friendly_break_check (Some 76%nat) (current_board exposed_game)
    = (r, current_board exposed_game)
    /\ exists b, r = Ok b.
Proof.
  apply (can_friendly_break_check_restores (current_board exposed_game)
           (Some 76%nat)).
  apply invariantb_sound. vm_compute. reflexivity.
Defined.

Lemma same_position_invariant (s s' : JanggiBoard) :
  same_position s s' -> invariant s -> invariant s'.
Proof.
  intros Hsp [Hwf Hpos Hocc].
  destruct (same_position_sound s s' Hsp (conj Hwf Hpos)) as [Hwf' Hpos'].
  constructor; [exact Hwf' | exact Hpos' |].
  destruct Hsp as [B [_ L]]. intros c. rewrite B, L. apply Hocc.
Qed.

Lemma mbind_ok {S A B : Type} (m : SE S A) (f : A -> SE S B) (s s1 : S) (a : A) :
  m s = (Ok a, s1) -> mbind m f s = f a s1.
Proof. intros H. unfold mbind. rewrite H. reflexivity. Qed.

Lemma mbind_ext {S A B : Type} (m : SE S A) (f g : A -> SE S B) (s : S) :
  (forall a s', f a s' = g a s') -> mbind m f s = mbind m g s.
Proof.
  intros H. unfold mbind. destruct (m s) as [[a | e] s']; [apply H | reflexivity].
Qed.

Lemma mbind_unit_ret {S : Type} (m : SE S unit) (s : S) :
  mbind m (fun _ => mret tt) s = m s.
Proof.
  unfold mbind, mret. destruct (m s) as [[[] | e] s']; reflexivity.
Qed.

(** One half of [update_checkmate_status]: the stuck test, the search for a
    saving move and the raising of the flag. *)
Lemma mate_test_runs (s : JanggiBoard) (g : ref) (enemy : Color) (k : coord) :
  invariant s ->
  board_get (board s) k = Ok (Some g) ->
  exists s1,
    same_position s s1
    /\ (checkmate s = true -> checkmate s1 = true)
    /\ forall (B : Type) (rest : M B),
         (stuck <~ read (fun s0 => is_general_stuck s0 (Some g) enemy) ;;
          mated <~ (if stuck
                    then (b <~ can_friendly_break_check (Some g) ;; mret (negb b))
                    else mret false) ;;
          _ <~ (if mated then set_checkmate else mret tt) ;;
          rest) s
         = rest s1.
Proof.
  intros Hinv Hg.
  destruct (is_general_stuck_total s (inv_wf s Hinv) g enemy
              (wf_pieces s (inv_wf s Hinv) _ _ Hg)) as [stuck Hstuck].
  destruct (can_friendly_break_check_lands s Hinv g) as [r [Hr Hok]].
  destruct (Hok I) as [can_break ->].
  destruct stuck.
  - destruct can_break.
    + exists s. split; [apply same_position_refl |]. split; [auto |].
      intros B rest.
      rewrite (mbind_ok _ _ s s true) by (unfold read; rewrite Hstuck; reflexivity).
      rewrite (mbind_ok _ _ s s false)
        by (rewrite (mbind_ok _ _ s s true Hr); reflexivity).
      reflexivity.
    + exists (snd (set_checkmate s)).
      split; [repeat split |]. split; [reflexivity |].
      intros B rest.
      rewrite (mbind_ok _ _ s s true) by (unfold read; rewrite Hstuck; reflexivity).
      rewrite (mbind_ok _ _ s s true)
        by (rewrite (mbind_ok _ _ s s false Hr); reflexivity).
      reflexivity.
  - exists s. split; [apply same_position_refl |]. split; [auto |].
    intros B rest.
    rewrite (mbind_ok _ _ s s false) by (unfold read; rewrite Hstuck; reflexivity).
    reflexivity.
Qed.

Lemma update_checkmate_status_runs (s : JanggiBoard) :
  invariant s ->
  exists s', update_checkmate_status s = (Ok tt, s')
             /\ same_position s s'
             /\ (checkmate s = true -> checkmate s' = true).
Proof.
  intros Hinv.
  destruct (inv_occupied s Hinv RED) as [gr Hgr].
  destruct (inv_occupied s Hinv BLUE) as [gb Hgb].
  unfold update_checkmate_status.
  rewrite (mbind_ok _ _ s s (Some gr))
    by (unfold read, get_location_contents; rewrite Hgr; reflexivity).
  rewrite (mbind_ok _ _ s s (Some gb))
    by (unfold read, get_location_contents; rewrite Hgb; reflexivity).
  destruct (mate_test_runs s gr BLUE _ Hinv Hgr) as [s1 [Hsp1 [Hf1 Hrun1]]].
  rewrite Hrun1.
  pose proof (same_position_invariant s s1 Hsp1 Hinv) as Hinv1.
  assert (Hgb1 : board_get (board s1) (loc_get (general_locations s) BLUE)
                 = Ok (Some gb)).
  { destruct Hsp1 as [B _]. rewrite B. exact Hgb. }
  destruct (mate_test_runs s1 gb RED _ Hinv1 Hgb1) as [s2 [Hsp2 [Hf2 Hrun2]]].
  specialize (Hrun2 unit (mret tt)).
  change (mret tt s2) with (@Ok unit tt, s2) in Hrun2.
  exists s2. split; [| split].
  - rewrite <- Hrun2.
    apply mbind_ext. intros stuck s3. apply mbind_ext. intros mated s4.
    symmetry. apply mbind_unit_ret.
  - apply (same_position_trans s s1 s2); assumption.
  - auto.
Qed.

(** X12. On a board that satisfies the invariant [update_checkmate_status]
    returns, and changes nothing but the checkmate flag, which it may only
    raise: the grid, the piece objects and the General locations are as
    before. *)
Theorem update_checkmate_status_touches_flag_only (s : JanggiBoard) :
  invariant s ->
  exists s',
    update_checkmate_status s = (Ok tt, s')
    /\ board s' = board s
    /\ store s' = store s
    /\ general_locations s' = general_locations s
    /\ (checkmate s = true -> checkmate s' = true).
Proof.
  intros Hinv.
  destruct (update_checkmate_status_runs s Hinv) as [s' [Hrun [[B [S L]] Hf]]].
  exists s'. auto.
Qed.

Lemma update_checkmate_status_touches_flag_only_witness :
  exists s',
    update_checkmate_status (current_board exposed_game) = (Ok tt, s')
    /\ board s' = board (current_board exposed_game)
    /\ store s' = store (current_board exposed_game)
    /\ general_locations s' = general_locations (current_board exposed_game)
    /\ (checkmate (current_board exposed_game) = true -> checkmate s' = true).
Proof.
  apply (update_checkmate_status_touches_flag_only (current_board exposed_game)).
  apply invariantb_sound. vm_compute. reflexivity.
Defined.

(** ** The game *)

(** X13. For every board square, the string made of its column letter
    followed by its row number passes the input validation of [make_move]
    and [parse_coordinate] turns it back into the square. *)
Theorem parse_coordinate_round_trip (k : coord) :
  on_board k ->
  input_validation (coordinate_string k) (coordinate_string k) = Ok true
  /\ parse_coordinate (coordinate_string k) = Ok k.
Proof. apply coordinate_string_valid. Qed.

Lemma parse_coordinate_round_trip_witness :
  input_validation (coordinate_string (10, "i"%char)) (coordinate_string (10, "i"%char))
  = Ok true
  /\ parse_coordinate (coordinate_string (10, "i"%char)) = Ok (10, "i"%char).
Proof.
  apply (parse_coordinate_round_trip (10, "i"%char)).
  apply on_boardb_iff. vm_compute. reflexivity.
Defined.

(** X14. A finished game is final: once the game state is RED_WON or
    BLUE_WON, [make_move] never returns [True] and leaves the game (board,
    state, turn, check flags) exactly as it was, whatever the two strings. *)
Theorem finished_game_is_final (g : JanggiGame) (move_from move_to : string) :
  get_game_state g <> UNFINISHED ->
  snd (make_move move_from move_to g) = g
  /\ fst (make_move move_from move_to g) <> Ok true.
Proof.
  intros Hst. unfold make_move, mbind, read, gets, mret.
  destruct (input_validation move_from move_to) as [[|] | e]; cbn [negb fst snd].
  - destruct (get_game_state g); [contradiction | |]; cbn; split;
      [reflexivity | discriminate | reflexivity | discriminate].
  - split; [reflexivity | discriminate].
  - split; [reflexivity | discriminate].
Qed.

Lemma finished_game_is_final_witness :
  snd (make_move "e10" "d10" mated_game) = mated_game
  /\ fst (make_move "e10" "d10" mated_game) <> Ok true.
Proof.
  apply (finished_game_is_final mated_game "e10" "d10").
  vm_compute. discriminate.
Defined.

Lemma on_board_object_meta {A : Type} (m : M A) (g : JanggiGame) :
  game_state (snd (on_board_object m g)) = game_state g
  /\ current_turn (snd (on_board_object m g)) = current_turn g
  /\ in_check (snd (on_board_object m g)) = in_check g.
Proof.
  unfold on_board_object. destruct (m (current_board g)) as [r b]. auto.
Qed.

Lemma preserves_turn_on_board_object {A : Type} (m : M A) (t : Color) :
  preserves (fun g => current_turn g = t) (on_board_object m).
Proof.
  intros g H. destruct (on_board_object_meta m g) as [_ [E _]]. congruence.
Qed.

Lemma update_check_status_turn (g : JanggiGame) :
  current_turn (snd (update_check_status g)) = current_turn g.
Proof.
  assert (H : preserves (fun g' => current_turn g' = current_turn g)
                update_check_status).
  { unfold update_check_status.
    repeat first
      [ apply preserves_bind; [| intro]
      | match goal with
        | |- preserves _ (if ?b then _ else _) => destruct b
        end
      | apply preserves_turn_on_board_object
      | apply preserves_gets
      | apply preserves_ret
      | (intros g0 H0; exact H0) ]. }
  apply H. reflexivity.
Qed.

(** X15. The turn alternates with the accepted moves only: when [make_move]
    returns [True] the turn has passed to the other colour, and when it
    returns [False] the turn is whose it was. *)
Theorem make_move_turn (g g' : JanggiGame) (move_from move_to : string)
    (accepted : bool) :
  make_move move_from move_to g = (Ok accepted, g') ->
  get_current_turn g'
  = if accepted then opposite (get_current_turn g) else get_current_turn g.
Proof.
  unfold make_move, mbind, read, gets, mret, get_current_turn.
  destruct (input_validation move_from move_to) as [[|] | e]; cbn [negb];
    [| intros H; inversion H; reflexivity | discriminate].
  destruct (negb (GameState_eqb (get_game_state g) UNFINISHED));
    [intros H; inversion H; reflexivity |].
  destruct (String.eqb move_from move_to && negb (is_in_check g (current_turn g))).
  { unfold change_turn. intros H. inversion H. cbn [current_turn].
    destruct (current_turn g); reflexivity. }
  destruct (parse_coordinate move_from) as [pf | e]; [| discriminate].
  destruct (parse_coordinate move_to) as [pt | e]; [| discriminate].
  pose proof (on_board_object_meta (move_piece pf pt (current_turn g)) g)
    as [_ [Ht _]].
  destruct (on_board_object (move_piece pf pt (current_turn g)) g)
    as [[[|] | e] g1]; cbn [snd] in Ht.
  - unfold change_turn.
    match goal with
    | |- context [update_check_status ?g2] =>
        pose proof (update_check_status_turn g2) as Hu;
        destruct (update_check_status g2) as [[[] | e] g3]
    end; [| discriminate].
    intros H. inversion H. subst. cbn [snd current_turn] in Hu.
    rewrite Hu, Ht. destruct (current_turn g); reflexivity.
  - intros H. inversion H. subst. exact Ht.
  - discriminate.
Qed.

Lemma make_move_turn_witness :
  get_current_turn (snd (make_move "a7" "a6" new_JanggiGame))
  = if true then opposite (get_current_turn new_JanggiGame)
    else get_current_turn new_JanggiGame.
Proof.
  apply (make_move_turn new_JanggiGame _ "a7" "a6" true).
  vm_compute. reflexivity.
Defined.

(** The two check flags are not both raised. *)
Definition checks_exclusive (g : JanggiGame) : bool :=
  negb (check_BLUE (in_check g) && check_RED (in_check g)).

Lemma keeps_exclusive_on_board_object {A : Type} (m : M A) :
  keeps checks_exclusive (on_board_object m).
Proof.
  intros g H. unfold checks_exclusive in *.
  destruct (on_board_object_meta m g) as [_ [_ E]]. rewrite E. exact H.
Qed.

Lemma keeps_exclusive_change_turn : keeps checks_exclusive change_turn.
Proof. intros g H. exact H. Qed.

Lemma keeps_exclusive_checkmate_game (loser : Color) :
  keeps checks_exclusive (checkmate_game loser).
Proof. intros g H. exact H. Qed.

Lemma keeps_exclusive_set_in_check (red blue : bool) :
  negb (blue && red) = true -> keeps checks_exclusive (set_in_check red blue).
Proof. intros E g _. exact E. Qed.

Lemma keeps_exclusive_update_check_status :
  keeps checks_exclusive update_check_status.
Proof.
  unfold update_check_status.
  repeat first
    [ apply keeps_bind; [| intro]
    | match goal with
      | |- keeps _ (if ?b then _ else _) => destruct b
      end
    | apply keeps_exclusive_on_board_object
    | apply keeps_exclusive_checkmate_game
    | apply keeps_exclusive_set_in_check; reflexivity
    | apply keeps_gets
    | apply keeps_ret ].
Qed.

Lemma keeps_exclusive_make_move (move_from move_to : string) :
  keeps checks_exclusive (make_move move_from move_to).
Proof.
  unfold make_move.
  repeat first
    [ apply keeps_exclusive_update_check_status
    | apply keeps_exclusive_on_board_object
    | apply keeps_exclusive_change_turn
    | apply keeps_bind; [| intro]
    | match goal with
      | |- keeps _ (if ?b then _ else _) => destruct b
      end
    | apply keeps_read
    | apply keeps_gets
    | apply keeps_ret ].
Qed.

(** X16. The check flags are mutually exclusive: [update_check_status] only
    ever writes (RED, not BLUE), (BLUE, not RED) or neither, so in every game
    played from the start, and after any further [make_move] call on it
    whether it returns or raises, at most one player is flagged in check. *)
Theorem check_flags_exclusive (g : JanggiGame) (move_from move_to : string) :
  played g ->
  ~ (is_in_check g RED = true /\ is_in_check g BLUE = true)
  /\ ~ (is_in_check (snd (make_move move_from move_to g)) RED = true
        /\ is_in_check (snd (make_move move_from move_to g)) BLUE = true).
Proof.
  intros Hg.
  assert (H : checks_exclusive g = true).
  { induction Hg as [| a b g g' Hg IH Hm]; [reflexivity |].
    pose proof (keeps_exclusive_make_move a b g IH) as H. rewrite Hm in H. exact H. }
  pose proof (keeps_exclusive_make_move move_from move_to g H) as H'.
  unfold checks_exclusive, is_in_check in *.
  split; intros [E1 E2]; rewrite E1, E2 in *; discriminate.
Qed.

Lemma check_flags_exclusive_witness :
  ~ (is_in_check exposed_game RED = true /\ is_in_check exposed_game BLUE = true)
  /\ ~ (is_in_check (snd (make_move "a9" "e9" exposed_game)) RED = true
        /\ is_in_check (snd (make_move "a9" "e9" exposed_game)) BLUE = true).
Proof.
  apply (check_flags_exclusive exposed_game "a9" "e9").
  apply (play_played (shielding_moves ++ [("d9", "d10")]) new_JanggiGame);
    [apply played_new |].
  vm_compute. reflexivity.
Defined.

(** The game is unfinished or the board's checkmate flag is raised. *)
Definition won_by_checkmate (g : JanggiGame) : bool :=
  GameState_eqb (game_state g) UNFINISHED || game_checkmate g.

Lemma keeps_won_on_board_object {A : Type} (m : M A) :
  keeps checkmate m -> keeps won_by_checkmate (on_board_object m).
Proof.
  intros Hm g H. unfold won_by_checkmate in *.
  destruct (on_board_object_meta m g) as [E _]. rewrite E.
  apply orb_true_iff in H. apply orb_true_iff. destruct H as [H | H]; [auto |].
  right. apply (keeps_on_board_object m Hm g H).
Qed.

Lemma keeps_won_declare (loser : Color) :
  keeps won_by_checkmate
    (game_over <~ gets (fun g => get_checkmate_status (current_board g)) ;;
     if game_over then checkmate_game loser else mret tt).
Proof.
  intros g H. unfold mbind, gets, checkmate_game, mret.
  destruct (get_checkmate_status (current_board g)) eqn:E; [| exact H].
  unfold won_by_checkmate, game_checkmate. cbn [snd current_board].
  rewrite E. apply orb_true_r.
Qed.

Lemma keeps_won_simple (m : G unit) :
  (forall g, current_board (snd (m g)) = current_board g
             /\ game_state (snd (m g)) = game_state g) ->
  keeps won_by_checkmate m.
Proof.
  intros Hm g H. destruct (Hm g) as [B S].
  unfold won_by_checkmate, game_checkmate in *. rewrite B, S. exact H.
Qed.

Lemma keeps_won_update_check_status : keeps won_by_checkmate update_check_status.
Proof.
  unfold update_check_status.
  apply keeps_bind; [apply keeps_won_on_board_object, keeps_read |].
  intros [|].
  - apply keeps_bind; [apply keeps_won_simple; intros g; split; reflexivity |].
    intros _.
    apply keeps_bind;
      [apply keeps_won_on_board_object, keeps_update_checkmate_status |].
    intros _. apply keeps_won_declare.
  - apply keeps_bind; [apply keeps_won_on_board_object, keeps_read |].
    intros [|].
    + apply keeps_bind; [apply keeps_won_simple; intros g; split; reflexivity |].
      intros _.
      apply keeps_bind;
        [apply keeps_won_on_board_object, keeps_update_checkmate_status |].
      intros _. apply keeps_won_declare.
    + apply keeps_won_simple. intros g. split; reflexivity.
Qed.

Lemma keeps_won_make_move (move_from move_to : string) :
  keeps won_by_checkmate (make_move move_from move_to).
Proof.
  unfold make_move.
  repeat first
    [ apply keeps_won_update_check_status
    | apply keeps_won_on_board_object, keeps_move_piece
    | apply keeps_bind; [| intro]
    | match goal with
      | |- keeps _ (if ?b then _ else _) => destruct b
      end
    | (apply keeps_won_simple; intros g0; split; reflexivity)
    | apply keeps_read
    | apply keeps_gets
    | apply keeps_ret ].
Qed.

(** X17. A game only ends by checkmate: in every game played from the
    start, if the game state is RED_WON or BLUE_WON then the checkmate flag
    of the board is raised. *)
Theorem game_won_only_by_checkmate (g : JanggiGame) :
  played g ->
  get_game_state g <> UNFINISHED ->
  get_checkmate_status (current_board g) = true.
Proof.
  intros Hg Hst.
  assert (H : won_by_checkmate g = true).
  { clear Hst. induction Hg as [| a b g g' Hg IH Hm]; [reflexivity |].
    pose proof (keeps_won_make_move a b g IH) as H. rewrite Hm in H. exact H. }
  unfold won_by_checkmate in H. apply orb_true_iff in H.
  destruct H as [H | H]; [| exact H].
  unfold get_game_state in Hst. destruct (game_state g); try discriminate.
  contradiction.
Qed.

Lemma game_won_only_by_checkmate_witness :
  get_checkmate_status (current_board mated_game) = true.
Proof.
  apply (game_won_only_by_checkmate mated_game).
  - apply game_after_played.
  - vm_compute. discriminate.
Defined.

(** ** The check flags and the board *)

Lemma get_general_check_status_same_position (s s' : JanggiBoard) (c : Color) :
  same_position s s' ->
  get_general_check_status s' c = get_general_check_status s c.
Proof.
  destruct s as [b st gl cm], s' as [b' st' gl' cm'].
  unfold same_position. cbn [board store general_locations].
  intros [-> [-> ->]]. reflexivity.
Qed.

(** The flag of RED is the check status of RED; the flag of BLUE is the
    check status of BLUE unless RED is in check. *)
Definition flags_describe_board (g : JanggiGame) : Prop :=
  get_general_check_status (current_board g) RED = Ok (is_in_check g RED)
  /\ exists blue,
       get_general_check_status (current_board g) BLUE = Ok blue
       /\ is_in_check g BLUE = negb (is_in_check g RED) && blue.

Lemma snd_mbind_ret {S A B : Type} (m : SE S A) (b : B) (s : S) :
  snd (mbind m (fun _ => mret b) s) = snd (m s).
Proof. unfold mbind, mret. destruct (m s) as [[a | e] s1]; reflexivity. Qed.

Lemma declare_after_checkmate_test (loser : Color) (g : JanggiGame) :
  game_sound g ->
  let g' := snd ((_ <~ on_board_object update_checkmate_status ;;
                  game_over <~ gets (fun g => get_checkmate_status (current_board g)) ;;
                  if game_over then checkmate_game loser else mret tt) g) in
  same_position (current_board g) (current_board g') /\ in_check g' = in_check g.
Proof.
  intros Hs. destruct g as [cb st tn ic]. unfold game_sound in Hs. cbn in Hs.
  pose proof (steady_update_checkmate_status cb Hs) as Hsp.
  unfold mbind, on_board_object, gets, checkmate_game, mret. cbn [current_board].
  destruct (update_checkmate_status cb) as [[[] | e] cb']; cbn in Hsp |- *.
  - destruct (get_checkmate_status cb'); cbn; split; auto.
  - split; auto.
Qed.

Lemma update_check_status_flags (g : JanggiGame) :
  game_sound g -> flags_describe_board (snd (update_check_status g)).
Proof.
  intros Hs. destruct g as [cb st tn ic].
  pose proof Hs as [Hwf Hpos]. cbn in Hwf, Hpos.
  destruct (get_general_check_status_total cb Hwf RED) as [red Hred].
  destruct (get_general_check_status_total cb Hwf BLUE) as [blue Hblue].
  unfold update_check_status.
  unfold mbind at 1. unfold on_board_object at 1, read at 1. cbn [current_board].
  rewrite Hred. cbn [game_state current_turn in_check].
  destruct red.
  - unfold mbind at 1. unfold set_in_check at 1.
    cbn [current_board game_state current_turn in_check].
    destruct (declare_after_checkmate_test RED (mkGame cb st tn (mkChecks false true)) Hs)
      as [Hsp Hic].
    cbn [current_board in_check] in Hsp, Hic.
    unfold flags_describe_board, is_in_check. rewrite Hic.
    rewrite !(get_general_check_status_same_position cb _ _ Hsp), Hred.
    split; [reflexivity |]. exists blue. split; [exact Hblue | reflexivity].
  - unfold mbind at 1. unfold on_board_object at 1, read at 1. cbn [current_board].
    rewrite Hblue. cbn [game_state current_turn in_check].
    destruct blue.
    + unfold mbind at 1. unfold set_in_check at 1.
      cbn [current_board game_state current_turn in_check].
      destruct (declare_after_checkmate_test BLUE (mkGame cb st tn (mkChecks true false)) Hs)
        as [Hsp Hic].
      cbn [current_board in_check] in Hsp, Hic.
      unfold flags_describe_board, is_in_check. rewrite Hic.
      rewrite !(get_general_check_status_same_position cb _ _ Hsp), Hred.
      split; [reflexivity |]. exists true. split; [exact Hblue | reflexivity].
    + unfold set_in_check, flags_describe_board, is_in_check. cbn.
      split; [exact Hred |]. exists false. split; [exact Hblue | reflexivity].
Qed.

Definition describes (g : JanggiGame) : Prop :=
  game_sound g /\ flags_describe_board g.

Lemma describes_change_turn : preserves describes change_turn.
Proof. intros [cb st tn ic] H. exact H. Qed.

Lemma describes_move (move_from move_to : coord) (turn : Color) :
  preserves describes
    (move_made <~ on_board_object (move_piece move_from move_to turn) ;;
     if move_made then
       _ <~ change_turn ;;
       _ <~ update_check_status ;;
       mret true
     else mret false).
Proof.
  intros g [Hs Hf]. destruct g as [cb st tn ic].
  pose proof Hs as [Hwf Hpos]. cbn in Hwf, Hpos.
  pose proof (move_piece_sound cb Hwf Hpos move_from move_to turn) as Hs1.
  unfold mbind at 1. unfold on_board_object at 1.
  cbn [current_board game_state current_turn in_check].
  destruct (move_piece_outcomes cb Hwf Hpos move_from move_to turn)
    as [[r [Hr Hne]] | [q [l [b2 H]]]].
  - rewrite Hr. destruct r as [[|] | e]; [congruence | |]; split; assumption.
  - destruct H as [_ [_ [_ [_ [_ [_ [_ [_ [_ Hm]]]]]]]]].
    rewrite Hm in Hs1 |- *. cbn [snd] in Hs1.
    unfold mbind at 1. unfold change_turn at 1.
    cbn [current_board game_state current_turn in_check].
    rewrite snd_mbind_ret.
    split.
    + apply preserves_update_check_status. exact Hs1.
    + apply update_check_status_flags. exact Hs1.
Qed.

Lemma describes_make_move (move_from move_to : string) :
  preserves describes (make_move move_from move_to).
Proof.
  unfold make_move.
  repeat first
    [ apply describes_move
    | apply describes_change_turn
    | apply preserves_bind; [| intro]
    | match goal with
      | |- preserves _ (if ?b then _ else _) => destruct b
      end
    | apply preserves_read
    | apply preserves_gets
    | apply preserves_ret ].
Qed.

(** X18. In every game played from the start the check flags describe the
    board: RED is flagged exactly when [get_general_check_status] is [True]
    for RED, and BLUE exactly when it is [True] for BLUE and [False] for RED
    (when both Generals are threatened only RED is flagged). *)
Theorem check_flags_describe_board (g : JanggiGame) :
  played g ->
  get_general_check_status (current_board g) RED = Ok (is_in_check g RED)
  /\ exists blue,
       get_general_check_status (current_board g) BLUE = Ok blue
       /\ is_in_check g BLUE = negb (is_in_check g RED) && blue.
Proof.
  intros Hg.
  assert (H : describes g).
  { induction Hg as [| a b g g' Hg IH Hm].
    - split; [apply new_JanggiBoard_sound |].
      split; [vm_compute; reflexivity |].
      exists false. split; vm_compute; reflexivity.
    - pose proof (describes_make_move a b g IH) as H. rewrite Hm in H. exact H. }
  exact (proj2 H).
Qed.

Lemma check_flags_describe_board_witness :
  get_general_check_status (current_board exposed_game) RED
  = Ok (is_in_check exposed_game RED)
  /\ exists blue,
       get_general_check_status (current_board exposed_game) BLUE = Ok blue
       /\ is_in_check exposed_game BLUE
          = negb (is_in_check exposed_game RED) && blue.
Proof.
  apply (check_flags_describe_board exposed_game), game_after_played.
Defined.

(** ** The squares between two squares *)

(** The squares [pieces_in_orthogonal_path] reads, in the order of its loops. *)
Definition path_squares (move_from move_to : coord) : list coord :=
  if fst move_from =? fst move_to then
    match Py.index alphabet (snd move_from), Py.index alphabet (snd move_to) with
    | Ok from_index, Ok to_index =>
        (if Py.char_ltb (snd move_from) (snd move_to)
         then map (fun column => (fst move_from, column))
                (Py.slice alphabet (from_index + 1) to_index)
         else [])
        ++ (if Py.char_ltb (snd move_to) (snd move_from)
            then map (fun column => (fst move_from, column))
                   (Py.slice_rev alphabet (from_index - 1) to_index)
            else [])
    | _, _ => []
    end
  else if Ascii.eqb (snd move_from) (snd move_to) then
    (if fst move_from >? fst move_to
     then map (fun row => (row, snd move_from))
            (Py.range_down (fst move_from - 1) (fst move_to))
     else [])
    ++ (if fst move_from <? fst move_to
        then map (fun row => (row, snd move_from))
               (Py.range_up (fst move_from + 1) (fst move_to))
        else [])
  else if Ascii.eqb (snd move_from) "d" || Ascii.eqb (snd move_from) "f" then
    if fst move_from <=? 3 then [(2, "e"%char)] else [(9, "e"%char)]
  else [].

Definition occupied (s : JanggiBoard) (k : coord) : bool :=
  match get_location_contents s k with
  | Ok (Some _) => true
  | _ => false
  end.

Definition cannon_at (s : JanggiBoard) (k : coord) : bool :=
  match get_location_contents s k with
  | Ok (Some q) => Kind_eqb (kind (store s q)) Cannon
  | _ => false
  end.

(** [b] is [rows] rows and [cols] columns away from [a]. *)
Definition away (rows cols : Z) (a b : coord) : bool :=
  (Z.abs (fst b - fst a) =? rows)
  && (Z.abs (column_number (snd b) - column_number (snd a)) =? cols).

(** [k] lies strictly between [a] and [b]: on the row or on the column
    that joins them, or, when they are opposite corners of a palace, on its
    centre. *)
Definition strictly_between (a b k : coord) : bool :=
  if fst a =? fst b then
    if fst k =? fst a then
      (column_number (snd a) <? column_number (snd k))
        && (column_number (snd k) <? column_number (snd b))
      || (column_number (snd b) <? column_number (snd k))
           && (column_number (snd k) <? column_number (snd a))
    else false
  else if Ascii.eqb (snd a) (snd b) then
    if Ascii.eqb (snd k) (snd a) then
      (fst a <? fst k) && (fst k <? fst b) || (fst b <? fst k) && (fst k <? fst a)
    else false
  else if palace_corner_pair a b then away 1 1 a k && away 1 1 k b
  else false.

Definition squares_between (a b : coord) : list coord :=
  filter (strictly_between a b) all_squares.

(** One row, one column, or opposite corners of a palace. *)
Definition same_line (a b : coord) : bool :=
  (fst a =? fst b) || Ascii.eqb (snd a) (snd b) || palace_corner_pair a b.

Definition path_squares_okb (a b : coord) : bool :=
  if same_line a b then
    let between := squares_between a b in
    if list_eqb coord_eqb (path_squares a b) between then true
    else list_eqb coord_eqb (path_squares a b) (rev between)
  else true.

Lemma path_squares_all :
  forallb (fun a => forallb (path_squares_okb a) all_squares) all_squares = true.
Proof. vm_compute. reflexivity. Qed.

Lemma path_squares_between (a b : coord) :
  on_board a -> on_board b -> same_line a b = true ->
  path_squares a b = squares_between a b
  \/ path_squares a b = rev (squares_between a b).
Proof.
  intros Ha Hb Hl.
  pose proof (all_squares_forall _ path_squares_all a Ha) as H. cbv beta in H.
  pose proof (all_squares_forall _ H b Hb) as H'.
  unfold path_squares_okb in H'. rewrite Hl in H'. cbv zeta in H'.
  destruct (list_eqb coord_eqb (path_squares a b) (squares_between a b)) eqn:E;
    [left; exact (list_eqb_eq coord_eqb _ _ (fun x y => proj1 (coord_eqb_eq x y)) E)
    | right; exact (list_eqb_eq coord_eqb _ _ (fun x y => proj1 (coord_eqb_eq x y)) H')].
Qed.

Lemma collect_r_app {A B : Type} (f : A -> result (list B)) (l1 l2 : list A) :
  collect_r f (l1 ++ l2)
  = (xs <- collect_r f l1 ;; ys <- collect_r f l2 ;; Ok (xs ++ ys)).
Proof.
  induction l1 as [| x l1 IH]; simpl.
  - destruct (collect_r f l2); reflexivity.
  - destruct (f x) as [ys | e]; simpl; [| reflexivity].
    rewrite IH. destruct (collect_r f l1) as [zs | e]; simpl; [| reflexivity].
    destruct (collect_r f l2) as [ws | e]; simpl; [| reflexivity].
    rewrite app_assoc. reflexivity.
Qed.

Lemma collect_r_map {A B C : Type} (g : A -> B) (f : B -> result (list C)) (l : list A) :
  collect_r f (map g l) = collect_r (fun x => f (g x)) l.
Proof.
  induction l as [| x l IH]; simpl; [reflexivity |]. rewrite IH. reflexivity.
Qed.

Lemma collect_r_if {A B : Type} (f : A -> result (list B)) (c : bool) (l : list A) :
  (if c then collect_r f l else Ok []) = collect_r f (if c then l else []).
Proof. destruct c; reflexivity. Qed.

Lemma pieces_in_orthogonal_path_reads (s : JanggiBoard) (move_from move_to : coord)
    (searching_for : string) :
  on_board move_from -> on_board move_to ->
  pieces_in_orthogonal_path s move_from move_to searching_for
  = (found <- collect_r (found_at s) (path_squares move_from move_to) ;;
     if String.eqb searching_for "ANY" then Ok (Count (Z.of_nat (List.length found)))
     else if existsb (Py.contains "CANNON") found then Ok PTrue
     else Ok PNone).
Proof.
  intros [_ Hfc] [_ Htc].
  destruct (index_columns _ Hfc) as [i [Hi _]].
  destruct (index_columns _ Htc) as [j [Hj _]].
  unfold pieces_in_orthogonal_path, path_squares. f_equal.
  destruct (fst move_from =? fst move_to).
  - rewrite Hi, Hj. cbn [rbind].
    rewrite collect_r_app, !collect_r_if.
    destruct (Py.char_ltb (snd move_from) (snd move_to)),
             (Py.char_ltb (snd move_to) (snd move_from));
      rewrite ?collect_r_map; reflexivity.
  - destruct (Ascii.eqb (snd move_from) (snd move_to)).
    + rewrite collect_r_app, !collect_r_if.
      destruct (fst move_from >? fst move_to), (fst move_from <? fst move_to);
        rewrite ?collect_r_map; reflexivity.
    + destruct (Ascii.eqb (snd move_from) "d" || Ascii.eqb (snd move_from) "f");
        [| reflexivity].
      destruct (fst move_from <=? 3); simpl;
        match goal with
        | |- ?x = _ => destruct x; simpl; rewrite ?app_nil_r; reflexivity
        end.
Qed.

Lemma collect_found (s : JanggiBoard) (l : list coord) :
  board_complete (board s) ->
  (forall k, In k l -> on_board k) ->
  exists found,
    collect_r (found_at s) l = Ok found
    /\ List.length found = List.length (filter (occupied s) l)
    /\ existsb (Py.contains "CANNON") found = existsb (cannon_at s) l.
Proof.
  intros Hb. induction l as [| k l IH]; intros Hl.
  - exists []. repeat split.
  - destruct IH as [found [Hf [Hn Hc]]]; [intros x Hx; apply Hl; right; exact Hx |].
    destruct (contents_on_board s Hb k (Hl k (or_introl eq_refl))) as [item Hitem].
    cbn [collect_r filter existsb]. unfold found_at at 1, occupied at 1, cannon_at at 1.
    rewrite Hitem, Hf. destruct item as [q |]; cbn [rbind].
    + eexists. split; [reflexivity |]. split.
      * simpl. rewrite Hn. reflexivity.
      * pose proof (contains_kind (store s q) Cannon) as Hck.
        cbn [kind_name] in Hck. cbn [app existsb]. rewrite Hc, Hck. reflexivity.
    + eexists. split; [reflexivity |]. split; [simpl; exact Hn | simpl; exact Hc].
Qed.

Lemma filter_both {A : Type} (f g : A -> bool) (l : list A) :
  filter g (filter f l) = filter (fun x => f x && g x) l.
Proof.
  induction l as [| x l IH]; simpl; [reflexivity |].
  destruct (f x); simpl; [destruct (g x); rewrite IH; reflexivity | exact IH].
Qed.

Lemma filter_reversed_length {A : Type} (f : A -> bool) (l : list A) :
  List.length (filter f (rev l)) = List.length (filter f l).
Proof.
  induction l as [| x l IH]; simpl; [reflexivity |].
  rewrite filter_app, length_app, IH. simpl.
  destruct (f x); simpl; lia.
Qed.

Lemma existsb_reversed {A : Type} (f : A -> bool) (l : list A) :
  existsb f (rev l) = existsb f l.
Proof.
  induction l as [| x l IH]; simpl; [reflexivity |].
  rewrite existsb_app, IH. simpl. rewrite orb_false_r. apply orb_comm.
Qed.

Lemma existsb_through_filter {A : Type} (f g : A -> bool) (l : list A) :
  existsb (fun x => f x && g x) l = existsb g (filter f l).
Proof.
  induction l as [| x l IH]; simpl; [reflexivity |].
  rewrite IH. destruct (f x); reflexivity.
Qed.

Lemma path_found (s : JanggiBoard) (a b : coord) :
  board_complete (board s) ->
  on_board a -> on_board b -> same_line a b = true ->
  exists found,
    collect_r (found_at s) (path_squares a b) = Ok found
    /\ List.length found
       = List.length (filter (fun k => strictly_between a b k && occupied s k)
                        all_squares)
    /\ existsb (Py.contains "CANNON") found
       = existsb (fun k => strictly_between a b k && cannon_at s k) all_squares.
Proof.
  intros Hb Ha Hb' Hl.
  assert (Hon : forall k, In k (path_squares a b) -> on_board k).
  { intros k Hk. apply on_board_squares.
    destruct (path_squares_between _ _ Ha Hb' Hl) as [E | E]; rewrite E in Hk.
    - apply filter_In in Hk. apply Hk.
    - apply in_rev in Hk. apply filter_In in Hk. apply Hk. }
  destruct (collect_found s _ Hb Hon) as [found [Hfound [Hn Hc]]].
  exists found. split; [exact Hfound |]. split.
  - rewrite Hn, <- filter_both. fold (squares_between a b).
    destruct (path_squares_between _ _ Ha Hb' Hl) as [E | E]; rewrite E;
      [reflexivity | apply filter_reversed_length].
  - rewrite Hc, existsb_through_filter. fold (squares_between a b).
    destruct (path_squares_between _ _ Ha Hb' Hl) as [E | E]; rewrite E;
      [reflexivity | apply existsb_reversed].
Qed.

Lemma same_line_cases (a b : coord) :
  fst a = fst b \/ snd a = snd b \/ palace_corner_pair a b = true ->
  same_line a b = true.
Proof.
  unfold same_line. rewrite !orb_true_iff, Z.eqb_eq, Ascii.eqb_eq. tauto.
Qed.

(** X19. Between two board squares of one row or one column, or two opposite
    corners of a palace, [pieces_in_orthogonal_path] counts the occupied
    squares that lie strictly between the two, the end squares left out;
    asked for a piece type it answers [True] when a Cannon of either colour
    stands strictly between them, and [None], not [False], when none does. *)
Theorem pieces_in_orthogonal_path_counts (s : JanggiBoard) (move_from move_to : coord) :
  board_complete (board s) ->
  on_board move_from -> on_board move_to ->
  fst move_from = fst move_to \/ snd move_from = snd move_to
  \/ palace_corner_pair move_from move_to = true ->
  pieces_in_orthogonal_path s move_from move_to "ANY"
  = Ok (Count (Z.of_nat (List.length
         (filter (fun k => strictly_between move_from move_to k && occupied s k)
                 all_squares))))
  /\ (forall searching_for,
         searching_for <> "ANY" ->
         pieces_in_orthogonal_path s move_from move_to searching_for
         = Ok (if existsb (fun k => strictly_between move_from move_to k
                                    && cannon_at s k) all_squares
               then PTrue else PNone)).
Proof.
  intros Hb Hf Ht Hline.
  destruct (path_found s _ _ Hb Hf Ht (same_line_cases _ _ Hline))
    as [found [Hfound [Hn Hc]]].
  split.
  - rewrite (pieces_in_orthogonal_path_reads s _ _ _ Hf Ht), Hfound.
    cbn [rbind]. change (String.eqb "ANY" "ANY") with true. cbv iota.
    rewrite Hn. reflexivity.
  - intros searching_for Hne.
    rewrite (pieces_in_orthogonal_path_reads s _ _ _ Hf Ht), Hfound.
    cbn [rbind].
    destruct (String.eqb_spec searching_for "ANY") as [E | _]; [contradiction |].
    rewrite Hc. destruct (existsb _ all_squares); reflexivity.
Qed.

Lemma pieces_in_orthogonal_path_counts_witness :
  pieces_in_orthogonal_path new_JanggiBoard (3, "b"%char) (10, "b"%char) "ANY"
  = Ok (Count (Z.of_nat (List.length
         (filter (fun k => strictly_between (3, "b"%char) (10, "b"%char) k
                           && occupied new_JanggiBoard k)
                 all_squares))))
  /\ (forall searching_for,
         searching_for <> "ANY" ->
         pieces_in_orthogonal_path new_JanggiBoard (3, "b"%char) (10, "b"%char)
           searching_for
         = Ok (if existsb (fun k => strictly_between (3, "b"%char) (10, "b"%char) k
                                    && cannon_at new_JanggiBoard k) all_squares
               then PTrue else PNone)).
Proof.
  apply (pieces_in_orthogonal_path_counts new_JanggiBoard (3, "b"%char) (10, "b"%char)).
  - apply completeb_sound. vm_compute. reflexivity.
  - apply on_boardb_iff. reflexivity.
  - apply on_boardb_iff. reflexivity.
  - right. left. reflexivity.
Defined.

(** ** The legs of the Horse and of the Elephant *)

(** The square [is_horse_path_blocked] reads. *)
Definition horse_leg (move_from move_to : coord) : result coord :=
  move_from_column_index <- Py.index alphabet (snd move_from) ;;
  move_to_column_index <- Py.index alphabet (snd move_to) ;;
  let north_south := fst move_to - fst move_from in
  let east_west := move_to_column_index - move_from_column_index in
  if Z.abs north_south =? 2 then
    if north_south >? 0 then Ok (fst move_from + 1, snd move_from)
    else Ok (fst move_from - 1, snd move_from)
  else
    if east_west >? 0 then
      column <- Py.getitem alphabet (move_from_column_index + 1) ;;
      Ok (fst move_from, column)
    else
      column <- Py.getitem alphabet (move_from_column_index - 1) ;;
      Ok (fst move_from, column).

(** The two squares [is_elephant_path_blocked] reads. *)
Definition elephant_legs (move_from move_to : coord) : result (coord * coord) :=
  move_from_column_index <- Py.index alphabet (snd move_from) ;;
  move_to_column_index <- Py.index alphabet (snd move_to) ;;
  let north_south := fst move_to - fst move_from in
  let east_west := move_to_column_index - move_from_column_index in
  if Z.abs north_south =? 3 then
    if north_south >? 0 then
      if east_west >? 0 then
        column <- Py.getitem alphabet (move_from_column_index + 1) ;;
        Ok ((fst move_from + 1, snd move_from), (fst move_from + 2, column))
      else
        column <- Py.getitem alphabet (move_from_column_index - 1) ;;
        Ok ((fst move_from + 1, snd move_from), (fst move_from + 2, column))
    else
      if east_west >? 0 then
        column <- Py.getitem alphabet (move_from_column_index + 1) ;;
        Ok ((fst move_from - 1, snd move_from), (fst move_from - 2, column))
      else
        column <- Py.getitem alphabet (move_from_column_index - 1) ;;
        Ok ((fst move_from - 1, snd move_from), (fst move_from - 2, column))
  else
    if east_west >? 0 then
      column1 <- Py.getitem alphabet (move_from_column_index + 1) ;;
      if north_south >? 0 then
        column2 <- Py.getitem alphabet (move_from_column_index + 2) ;;
        Ok ((fst move_from, column1), (fst move_from + 1, column2))
      else
        column2 <- Py.getitem alphabet (move_from_column_index + 2) ;;
        Ok ((fst move_from, column1), (fst move_from - 1, column2))
    else
      column1 <- Py.getitem alphabet (move_from_column_index - 1) ;;
      if north_south >? 0 then
        column2 <- Py.getitem alphabet (move_from_column_index - 2) ;;
        Ok ((fst move_from, column1), (fst move_from + 1, column2))
      else
        column2 <- Py.getitem alphabet (move_from_column_index - 2) ;;
        Ok ((fst move_from, column1), (fst move_from - 1, column2)).

(** One orthogonal step from the Horse, one diagonal step from its
    destination. *)
Definition on_horse_path (move_from move_to k : coord) : bool :=
  (away 1 0 move_from k || away 0 1 move_from k) && away 1 1 k move_to.

(** One orthogonal step from the Elephant and two diagonal steps from its
    destination, or one orthogonal and one diagonal step from the Elephant
    and one diagonal step from its destination. *)
Definition on_elephant_path (move_from move_to k : coord) : bool :=
  (away 1 0 move_from k || away 0 1 move_from k) && away 2 2 k move_to
  || (away 2 1 move_from k || away 1 2 move_from k) && away 1 1 k move_to.

Definition horse_legb (p : BoardPiece) (m : coord) : bool :=
  if Kind_eqb (kind p) Horse then
    match horse_leg (current_pos p) m with
    | Ok k => list_eqb coord_eqb (filter (on_horse_path (current_pos p) m) all_squares) [k]
    | Raise _ => false
    end
  else true.

Definition elephant_legsb (p : BoardPiece) (m : coord) : bool :=
  if Kind_eqb (kind p) Elephant then
    match elephant_legs (current_pos p) m with
    | Ok (k1, k2) =>
        let path := filter (on_elephant_path (current_pos p) m) all_squares in
        list_eqb coord_eqb path [k1; k2] || list_eqb coord_eqb path [k2; k1]
    | Raise _ => false
    end
  else true.

Lemma horse_leg_all : every_destination horse_legb = true.
Proof. vm_compute. reflexivity. Qed.

Lemma elephant_legs_all : every_destination elephant_legsb = true.
Proof. vm_compute. reflexivity. Qed.

Lemma is_horse_path_blocked_reads (s : JanggiBoard) (horse : ref) (move_to k : coord) :
  horse_leg (get_current_pos (store s horse)) move_to = Ok k ->
  is_horse_path_blocked s horse move_to
  = (item <- get_location_contents s k ;;
     Ok (match item with None => false | Some _ => true end)).
Proof.
  unfold horse_leg, is_horse_path_blocked.
  destruct (Py.index alphabet (snd (get_current_pos (store s horse)))) as [i | e];
    [| discriminate].
  destruct (Py.index alphabet (snd move_to)) as [j | e]; [| discriminate].
  cbn [rbind]. cbv zeta.
  destruct (Z.abs _ =? 2).
  - destruct (_ >? 0); intros H; inversion H; reflexivity.
  - destruct (_ >? 0);
      match goal with
      | |- context [Py.getitem alphabet ?x] =>
          destruct (Py.getitem alphabet x) as [c | e]; [| discriminate]
      end; intros H; inversion H; reflexivity.
Qed.

Lemma is_elephant_path_blocked_reads (s : JanggiBoard) (elephant : ref)
    (move_to k1 k2 : coord) :
  elephant_legs (get_current_pos (store s elephant)) move_to = Ok (k1, k2) ->
  is_elephant_path_blocked s elephant move_to
  = (first <- get_location_contents s k1 ;;
     second <- get_location_contents s k2 ;;
     Ok (existsb (fun item => match item with Some _ => true | None => false end)
           [first; second])).
Proof.
  unfold elephant_legs, is_elephant_path_blocked.
  destruct (Py.index alphabet (snd (get_current_pos (store s elephant)))) as [i | e];
    [| discriminate].
  destruct (Py.index alphabet (snd move_to)) as [j | e]; [| discriminate].
  cbn [rbind]. cbv zeta.
  destruct (Z.abs _ =? 3).
  - destruct (fst move_to - _ >? 0), (j - i >? 0);
      match goal with
      | |- context [Py.getitem alphabet ?x] =>
          destruct (Py.getitem alphabet x) as [c | e]; [| discriminate]
      end; cbn [rbind]; intros H; inversion H; subst;
      destruct (get_location_contents s _) as [first | e]; cbn [rbind];
      try reflexivity;
      destruct (get_location_contents s _) as [second | e]; reflexivity.
  - destruct (j - i >? 0), (fst move_to - _ >? 0);
      repeat match goal with
      | |- context [Py.getitem alphabet ?x] =>
          destruct (Py.getitem alphabet x) as [? | ?]; [| discriminate]; cbn [rbind]
      end; intros H; inversion H; subst;
      destruct (get_location_contents s _) as [first | e]; cbn [rbind];
      try reflexivity;
      destruct (get_location_contents s _) as [second | e]; reflexivity.
Qed.

Section Legs.
Variable s : JanggiBoard.
Hypothesis Hb : board_complete (board s).
Variables (piece : ref) (l : list coord) (move_to : coord).
Hypothesis Hpos : on_board (current_pos (store s piece)).
Hypothesis Hl : get_movement_range (store s piece) = Ok l.
Hypothesis Hin : In move_to l.

Lemma horse_blocked_spec :
  kind (store s piece) = Horse ->
  is_horse_path_blocked s piece move_to
  = Ok (existsb (fun k => on_horse_path (current_pos (store s piece)) move_to k
                          && occupied s k) all_squares).
Proof.
  intros Hk.
  pose proof (every_destination_sound _ horse_leg_all _ _ _ Hpos Hl Hin) as H.
  unfold horse_legb in H. rewrite Hk in H. cbn [Kind_eqb] in H. cbv iota in H.
  destruct (horse_leg (current_pos (store s piece)) move_to) as [k | e] eqn:E;
    [| discriminate].
  apply (list_eqb_eq coord_eqb) in H; [| intros x y; apply coord_eqb_eq].
  rewrite (is_horse_path_blocked_reads s piece move_to k E).
  rewrite existsb_through_filter, H. cbn [existsb]. rewrite orb_false_r.
  assert (Hon : on_board k).
  { apply on_board_squares.
    apply (proj1 (filter_In (on_horse_path (current_pos (store s piece)) move_to)
                    k all_squares)).
    rewrite H. left. reflexivity. }
  destruct (contents_on_board s Hb k Hon) as [item Hitem].
  unfold occupied. rewrite Hitem. destruct item; reflexivity.
Qed.

Lemma elephant_blocked_spec :
  kind (store s piece) = Elephant ->
  is_elephant_path_blocked s piece move_to
  = Ok (existsb (fun k => on_elephant_path (current_pos (store s piece)) move_to k
                          && occupied s k) all_squares).
Proof.
  intros Hk.
  pose proof (every_destination_sound _ elephant_legs_all _ _ _ Hpos Hl Hin) as H.
  unfold elephant_legsb in H. rewrite Hk in H. cbn [Kind_eqb] in H. cbv iota in H.
  destruct (elephant_legs (current_pos (store s piece)) move_to) as [[k1 k2] | e] eqn:E;
    [| discriminate].
  cbv zeta in H.
  rewrite (is_elephant_path_blocked_reads s piece move_to k1 k2 E).
  rewrite existsb_through_filter.
  assert (Hon : forall k, In k [k1; k2] -> on_board k).
  { intros k Hk'. apply on_board_squares.
    apply (proj1 (filter_In (on_elephant_path (current_pos (store s piece)) move_to)
                    k all_squares)).
    apply orb_true_iff in H.
    destruct H as [H | H];
      (apply (list_eqb_eq coord_eqb) in H; [| intros x y; apply coord_eqb_eq]);
      rewrite H; simpl in Hk' |- *; tauto. }
  destruct (contents_on_board s Hb k1 (Hon k1 (or_introl eq_refl))) as [i1 H1].
  destruct (contents_on_board s Hb k2 (Hon k2 (or_intror (or_introl eq_refl))))
    as [i2 H2].
  rewrite H1, H2. cbn [rbind existsb].
  apply orb_true_iff in H.
  destruct H as [H | H];
    (apply (list_eqb_eq coord_eqb) in H; [| intros x y; apply coord_eqb_eq]);
    rewrite H; cbn [existsb]; unfold occupied; rewrite H1, H2;
    destruct i1, i2; reflexivity.
Qed.
End Legs.

(** X20. For a Horse on a board square and a destination of its range,
    [is_horse_path_blocked] is [True] iff the square one orthogonal step from
    the Horse and one diagonal step from the destination is occupied; for an
    Elephant, [is_elephant_path_blocked] is [True] iff one of the two squares
    of its path is: the square one orthogonal step from it and two diagonal
    steps from the destination, or the square one diagonal step further. *)
Theorem blocked_iff_leg_occupied (s : JanggiBoard) (piece : ref) (l : list coord)
    (move_to : coord) :
  board_complete (board s) ->
  on_board (get_current_pos (store s piece)) ->
  get_movement_range (store s piece) = Ok l ->
  In move_to l ->
  (kind (store s piece) = Horse ->
   is_horse_path_blocked s piece move_to
   = Ok (existsb (fun k => on_horse_path (get_current_pos (store s piece)) move_to k
                           && occupied s k) all_squares))
  /\ (kind (store s piece) = Elephant ->
      is_elephant_path_blocked s piece move_to
      = Ok (existsb (fun k => on_elephant_path (get_current_pos (store s piece))
                                move_to k
                              && occupied s k) all_squares)).
Proof.
  intros Hb Hpos Hl Hin. unfold get_current_pos in *. split; intros Hk.
  - apply (horse_blocked_spec s Hb piece l move_to Hpos Hl Hin Hk).
  - apply (elephant_blocked_spec s Hb piece l move_to Hpos Hl Hin Hk).
Qed.

Lemma blocked_iff_leg_occupied_witness :
  (kind (store new_JanggiBoard 2%nat) = Horse ->
   is_horse_path_blocked new_JanggiBoard 2%nat (3, "d"%char)
   = Ok (existsb (fun k => on_horse_path
                             (get_current_pos (store new_JanggiBoard 2%nat))
                             (3, "d"%char) k
                           && occupied new_JanggiBoard k) all_squares))
  /\ (kind (store new_JanggiBoard 2%nat) = Elephant ->
      is_elephant_path_blocked new_JanggiBoard 2%nat (3, "d"%char)
      = Ok (existsb (fun k => on_elephant_path
                                (get_current_pos (store new_JanggiBoard 2%nat))
                                (3, "d"%char) k
                              && occupied new_JanggiBoard k) all_squares)).
Proof.
  apply (blocked_iff_leg_occupied new_JanggiBoard 2%nat
           [(3, "d"%char); (3, "b"%char); (2, "e"%char); (2, "a"%char)]
           (3, "d"%char)).
  - apply completeb_sound. vm_compute. reflexivity.
  - apply on_boardb_iff. reflexivity.
  - reflexivity.
  - simpl. left. reflexivity.
Defined.

(** ** The paths of accepted moves *)

Lemma legality_rules_paths (s : JanggiBoard) (move_to : coord) (piece : ref)
    (current_turn : Color) (l : list coord) :
  legality_rules s move_to piece current_turn l = Ok true ->
  (kind (store s piece) = Chariot ->
   exists n,
     pieces_in_orthogonal_path s (get_current_pos (store s piece)) move_to "ANY" = Ok n
     /\ answer_is n 0 = true)
  /\ (kind (store s piece) = Cannon ->
      exists n c,
        pieces_in_orthogonal_path s (get_current_pos (store s piece)) move_to "ANY"
        = Ok n
        /\ answer_is n 1 = true
        /\ pieces_in_orthogonal_path s (get_current_pos (store s piece)) move_to
             "CANNON" = Ok c
        /\ answer_truthy c = false)
  /\ (kind (store s piece) = Elephant ->
      is_elephant_path_blocked s piece move_to = Ok false)
  /\ (kind (store s piece) = Horse ->
      is_horse_path_blocked s piece move_to = Ok false).
Proof.
  unfold legality_rules.
  pose proof (contains_kind (store s piece) Chariot) as HCh.
  pose proof (contains_kind (store s piece) Cannon) as HCa.
  pose proof (contains_kind (store s piece) Elephant) as HEl.
  pose proof (contains_kind (store s piece) Horse) as HHo.
  cbn [kind_name] in HCh, HCa, HEl, HHo. cbv zeta.
  rewrite HCh, HCa, HEl, HHo.
  destruct (negb (Color_eqb _ _)); [discriminate |].
  destruct (negb (coord_in _ _)); [discriminate |].
  destruct (get_location_contents s move_to) as [target | e]; [| discriminate].
  cbn [rbind].
  destruct (occupied_by s target _); [discriminate |].
  destruct (occupied_by s target _); [discriminate |].
  destruct (_ && _); [discriminate |].
  destruct (Kind_eqb (kind (store s piece)) Chariot) eqn:ECh.
  - destruct (pieces_in_orthogonal_path _ _ _ "ANY") as [n | e] eqn:En;
      [| discriminate].
    cbn [rbind]. destruct (answer_is n 0) eqn:E0; [| discriminate]. cbn [negb].
    destruct (kind (store s piece)) eqn:Ek; try discriminate.
    cbn [Kind_eqb rbind]. intros _.
    split; [intros _; eauto |]. repeat split; discriminate.
  - cbn [rbind].
    destruct (Kind_eqb (kind (store s piece)) Cannon) eqn:ECa.
    + destruct (pieces_in_orthogonal_path _ _ _ "ANY") as [n | e] eqn:En;
        [| discriminate].
      cbn [rbind]. destruct (answer_is n 1) eqn:E1; [| discriminate]. cbn [negb].
      destruct (pieces_in_orthogonal_path _ _ _ "CANNON") as [c | e] eqn:Ec;
        [| discriminate].
      cbn [rbind]. destruct (answer_truthy c) eqn:Et; [discriminate |].
      destruct (kind (store s piece)) eqn:Ek; try discriminate.
      cbn [Kind_eqb rbind]. intros _.
      split; [discriminate |]. split; [intros _; eauto 6 |].
      split; discriminate.
    + cbn [rbind].
      destruct (Kind_eqb (kind (store s piece)) Elephant) eqn:EEl.
      * destruct (is_elephant_path_blocked s piece move_to) as [[|] | e];
          try discriminate.
        destruct (kind (store s piece)) eqn:Ek; try discriminate.
        cbn [Kind_eqb rbind]. intros _.
        split; [discriminate |]. split; [discriminate |].
        split; [reflexivity | discriminate].
      * cbn [rbind].
        destruct (Kind_eqb (kind (store s piece)) Horse) eqn:EHo.
        -- destruct (is_horse_path_blocked s piece move_to) as [[|] | e];
             try discriminate.
           intros _. destruct (kind (store s piece)) eqn:Ek; try discriminate.
           split; [discriminate |]. split; [discriminate |].
           split; [discriminate | reflexivity].
        -- intros _.
           destruct (kind (store s piece)) eqn:Ek; try discriminate;
             repeat split; discriminate.
Qed.

Lemma count_is (n : nat) (z : Z) (a : path_answer) :
  a = Count (Z.of_nat n) -> answer_is a z = true -> Z.of_nat n = z.
Proof. intros -> H. simpl in H. apply Z.eqb_eq, H. Qed.

(** X21. On a sound board a move that [move_piece] accepts keeps to the
    paths: a Chariot passes over empty squares only; a Cannon jumps exactly
    one piece, and that piece is not a Cannon; the leg of a Horse and the two
    path squares of an Elephant are empty. *)
Theorem accepted_move_keeps_to_paths (s s' : JanggiBoard) (move_from move_to : coord)
    (current_turn : Color) (q : ref) :
  sound s ->
  move_piece move_from move_to current_turn s = (Ok true, s') ->
  get_location_contents s move_from = Ok (Some q) ->
  (kind (store s q) = Chariot ->
   filter (fun k => strictly_between move_from move_to k && occupied s k) all_squares
   = [])
  /\ (kind (store s q) = Cannon ->
      List.length (filter (fun k => strictly_between move_from move_to k
                                    && occupied s k) all_squares) = 1%nat
      /\ existsb (fun k => strictly_between move_from move_to k && cannon_at s k)
           all_squares = false)
  /\ (kind (store s q) = Horse ->
      existsb (fun k => on_horse_path move_from move_to k && occupied s k)
        all_squares = false)
  /\ (kind (store s q) = Elephant ->
      existsb (fun k => on_elephant_path move_from move_to k && occupied s k)
        all_squares = false).
Proof.
  intros [Hwf Hpos] Hmove Hq.
  destruct (move_piece_outcomes s Hwf Hpos move_from move_to current_turn)
    as [[r [Hr Hne]] | [q' [l [b2 H]]]].
  { rewrite Hr in Hmove. inversion Hmove. congruence. }
  destruct H as [Hsrc [Hl [Hrules [Hto _]]]].
  rewrite Hq in Hsrc. inversion Hsrc; subst q'. clear Hsrc.
  pose proof (wf_complete s Hwf) as Hb.
  assert (Hfrom : on_board move_from).
  { apply (board_get_ok_on_board (board s) Hb move_from (Some q)). exact Hq. }
  assert (Hcur : current_pos (store s q) = move_from) by (apply Hpos; exact Hq).
  destruct (legality_rules_true _ _ _ _ _ Hrules) as [_ [Hin _]].
  destruct (legality_rules_paths _ _ _ _ _ Hrules) as [HCh [HCa [HEl HHo]]].
  unfold get_current_pos in HCh, HCa. rewrite Hcur in HCh, HCa.
  assert (Hcur' : on_board (current_pos (store s q))) by (rewrite Hcur; exact Hfrom).
  assert (Hline : kind (store s q) = Chariot \/ kind (store s q) = Cannon ->
                  same_line move_from move_to = true).
  { intros Hk.
    pose proof (every_destination_sound _ line_step_all _ _ _ Hcur' Hl Hin) as H.
    unfold line_stepb in H. rewrite Hcur in H. unfold same_line.
    rewrite !orb_true_iff.
    destruct Hk as [Hk | Hk]; rewrite Hk in H;
      apply andb_true_iff in H; destruct H as [_ H];
      rewrite !orb_true_iff in H;
      rewrite (Z.eqb_sym (fst move_from)), (Ascii.eqb_sym (snd move_from));
      exact H. }
  split; [| split; [| split]]; intros Hk.
  - destruct (HCh Hk) as [n [Hn H0]].
    destruct (path_found s _ _ Hb Hfrom Hto (Hline (or_introl Hk)))
      as [found [Hfound [Hlen _]]].
    rewrite (pieces_in_orthogonal_path_reads s _ _ _ Hfrom Hto), Hfound in Hn.
    cbn [rbind] in Hn. change (String.eqb "ANY" "ANY") with true in Hn.
    cbv iota in Hn. inversion Hn as [Hn']. symmetry in Hn'.
    pose proof (count_is _ _ _ Hn' H0) as Hz. rewrite Hlen in Hz.
    apply length_zero_iff_nil. lia.
  - destruct (HCa Hk) as [n [c [Hn [H1 [Hc Hcf]]]]].
    destruct (path_found s _ _ Hb Hfrom Hto (Hline (or_intror Hk)))
      as [found [Hfound [Hlen Hcan]]].
    rewrite (pieces_in_orthogonal_path_reads s _ _ "ANY" Hfrom Hto), Hfound in Hn.
    rewrite (pieces_in_orthogonal_path_reads s _ _ "CANNON" Hfrom Hto), Hfound in Hc.
    cbn [rbind] in Hn, Hc. change (String.eqb "ANY" "ANY") with true in Hn.
    change (String.eqb "CANNON" "ANY") with false in Hc.
    cbv iota in Hn, Hc. inversion Hn as [Hn']. symmetry in Hn'.
    pose proof (count_is _ _ _ Hn' H1) as Hz. rewrite Hlen in Hz.
    split; [lia |].
    rewrite <- Hcan. destruct (existsb (Py.contains "CANNON") found);
      [| reflexivity].
    inversion Hc; subst c. discriminate.
  - pose proof (horse_blocked_spec s Hb q l move_to Hcur' Hl Hin Hk) as H.
    rewrite (HHo Hk), Hcur in H. inversion H as [H']. symmetry. exact H'.
  - pose proof (elephant_blocked_spec s Hb q l move_to Hcur' Hl Hin Hk) as H.
    rewrite (HEl Hk), Hcur in H. inversion H as [H']. symmetry. exact H'.
Qed.

Lemma accepted_move_keeps_to_paths_witness :
  (kind (store new_JanggiBoard 81%nat) = Chariot ->
   filter (fun k => strictly_between (10, "a"%char) (9, "a"%char) k
                    && occupied new_JanggiBoard k) all_squares
   = [])
  /\ (kind (store new_JanggiBoard 81%nat) = Cannon ->
      List.length (filter (fun k => strictly_between (10, "a"%char) (9, "a"%char) k
                                    && occupied new_JanggiBoard k) all_squares)
      = 1%nat
      /\ existsb (fun k => strictly_between (10, "a"%char) (9, "a"%char) k
                           && cannon_at new_JanggiBoard k)
           all_squares = false)
  /\ (kind (store new_JanggiBoard 81%nat) = Horse ->
      existsb (fun k => on_horse_path (10, "a"%char) (9, "a"%char) k
                        && occupied new_JanggiBoard k)
        all_squares = false)
  /\ (kind (store new_JanggiBoard 81%nat) = Elephant ->
      existsb (fun k => on_elephant_path (10, "a"%char) (9, "a"%char) k
                        && occupied new_JanggiBoard k)
        all_squares = false).
Proof.
  apply (accepted_move_keeps_to_paths new_JanggiBoard
           (snd (move_piece (10, "a"%char) (9, "a"%char) BLUE new_JanggiBoard))
           (10, "a"%char) (9, "a"%char) BLUE 81%nat).
  - split; apply invariantb_sound; vm_compute; reflexivity.
  - vm_compute. reflexivity.
  - vm_compute. reflexivity.
Defined.

(** ** [make_move] on coordinates of the board *)

Lemma moved_occupied (s : JanggiBoard) (move_from move_to : coord)
    (current_turn : Color) (q : ref) (l : list coord) (b2 : board_dict) :
  generals_synced s ->
  get_location_contents s move_from = Ok (Some q) ->
  legality_rules s move_to q current_turn l = Ok true ->
  board_get b2 move_to = Ok (Some q) ->
  (forall k, k <> move_to -> k <> move_from ->
             board_get b2 k = board_get (board s) k) ->
  locations_occupied (moved s b2 q move_to current_turn).
Proof.
  intros Hsync Hsrc Hrules Gto Go c.
  destruct (legality_rules_true _ _ _ _ _ Hrules) as [Hcol _].
  destruct (Hsync c) as [[g [Hg [Hkind Hcolor]]] _].
  unfold moved. cbn [board general_locations].
  set (L := loc_get (if is_general (store s q)
                     then loc_set (general_locations s) current_turn move_to
                     else general_locations s) c).
  destruct (coord_eqb L move_to) eqn:Eto.
  { apply coord_eqb_eq in Eto. rewrite Eto. eauto. }
  assert (Hto : L <> move_to).
  { intros E. apply coord_eqb_eq in E. congruence. }
  assert (HL : L = loc_get (general_locations s) c).
  { unfold L. destruct (is_general (store s q)); [| reflexivity].
    rewrite loc_get_set. destruct (Color_eqb c current_turn) eqn:Ec; [| reflexivity].
    exfalso. apply Hto. unfold L. rewrite loc_get_set, Ec. reflexivity. }
  assert (Hfrom : L <> move_from).
  { intros E. rewrite HL in E. rewrite E in Hg.
    unfold get_location_contents in Hsrc. rewrite Hsrc in Hg.
    inversion Hg; subst g.
    apply Hto. unfold L.
    unfold is_general. rewrite Hkind. rewrite loc_get_set.
    rewrite Hcolor in Hcol. subst c.
    destruct current_turn; reflexivity. }
  exists g. rewrite (Go L Hto Hfrom), HL. exact Hg.
Qed.

Definition valid_pairb (a b : coord) : bool :=
  match input_validation (coordinate_string a) (coordinate_string b) with
  | Ok true => true
  | _ => false
  end.

Lemma valid_pair_all :
  forallb (fun a => forallb (valid_pairb a) all_squares) all_squares = true.
Proof. vm_compute. reflexivity. Qed.

Lemma input_validation_squares (a b : coord) :
  on_board a -> on_board b ->
  input_validation (coordinate_string a) (coordinate_string b) = Ok true.
Proof.
  intros Ha Hb.
  pose proof (all_squares_forall _ valid_pair_all a Ha) as H. cbv beta in H.
  pose proof (all_squares_forall _ H b Hb) as H'. unfold valid_pairb in H'.
  destruct (input_validation _ _) as [[|] | e]; congruence.
Qed.

Lemma update_check_status_runs (g : JanggiGame) :
  invariant (current_board g) ->
  exists g', update_check_status g = (Ok tt, g').
Proof.
  intros Hinv. destruct g as [cb st tn ic]. cbn [current_board] in Hinv.
  destruct (get_general_check_status_total cb (inv_wf _ Hinv) RED) as [red Hred].
  destruct (get_general_check_status_total cb (inv_wf _ Hinv) BLUE) as [blue Hblue].
  destruct (update_checkmate_status_runs cb Hinv) as [cb' [Hrun _]].
  unfold update_check_status.
  unfold mbind at 1. unfold on_board_object at 1, read at 1. cbn [current_board].
  rewrite Hred. cbn [game_state current_turn in_check].
  destruct red.
  - unfold mbind, set_in_check, on_board_object, gets, checkmate_game, mret.
    cbn [current_board game_state current_turn in_check]. rewrite Hrun.
    cbn [current_board]. destruct (get_checkmate_status cb'); eauto.
  - unfold mbind at 1. unfold on_board_object at 1, read at 1. cbn [current_board].
    rewrite Hblue. cbn [game_state current_turn in_check].
    destruct blue.
    + unfold mbind, set_in_check, on_board_object, gets, checkmate_game, mret.
      cbn [current_board game_state current_turn in_check]. rewrite Hrun.
      cbn [current_board]. destruct (get_checkmate_status cb'); eauto.
    + unfold set_in_check. eauto.
Qed.

(** X22. [make_move] returns a boolean and never raises when it is given
    the coordinate strings of two board squares (column letter a-i, row
    1-10) on a board that satisfies the invariant and whose General
    locations are on the Generals, whatever the game state, the turn and the
    check flags. *)
Theorem make_move_returns (g : JanggiGame) (move_from move_to : coord) :
  invariant (current_board g) ->
  generals_synced (current_board g) ->
  on_board move_from -> on_board move_to ->
  exists (accepted : bool) (g' : JanggiGame),
    make_move (coordinate_string move_from) (coordinate_string move_to) g
    = (Ok accepted, g').
Proof.
  intros Hinv Hsync Hf Ht.
  destruct (coordinate_string_valid _ Hf) as [_ Hpf].
  destruct (coordinate_string_valid _ Ht) as [_ Hpt].
  unfold make_move, mbind at 1, read at 1.
  rewrite (input_validation_squares _ _ Hf Ht). cbn [negb].
  unfold mbind at 1, gets at 1.
  destruct (negb (GameState_eqb (get_game_state g) UNFINISHED));
    [unfold mret; eauto |].
  unfold mbind at 1, gets at 1. unfold mbind at 1, gets at 1.
  destruct (_ && _); [unfold mbind, change_turn, mret; eauto |].
  unfold mbind at 1, read at 1. rewrite Hpf.
  unfold mbind at 1, read at 1. rewrite Hpt.
  unfold mbind at 1, on_board_object at 1.
  destruct (move_piece_cases (current_board g) Hinv move_from move_to
              (get_current_turn g))
    as [[r [Hr [_ Hfalse]]] | [q [l [b1 [b2 H]]]]].
  - rewrite Hr, (Hfalse Hf Ht). unfold mret. eauto.
  - destruct H as [Hsrc [Hl [Hrules [Hto [_ [_ [C2 [Gto [Gfrom [Hne [Go Hm]]]]]]]]]]].
    rewrite Hm.
    unfold mbind at 1, change_turn at 1.
    cbn [current_board game_state current_turn in_check].
    match goal with
    | |- exists a g', mbind update_check_status _ ?g2 = _ =>
        destruct (update_check_status_runs g2) as [g' Hrun]
    end.
    + cbn [current_board].
      destruct (moved_invariant_wf (current_board g) (inv_wf _ Hinv)
                  (inv_positions _ Hinv) move_from move_to (get_current_turn g)
                  q l b2 Hsrc Hrules Hto C2 Gto Gfrom Go) as [Hwf' Hpos'].
      constructor; [exact Hwf' | exact Hpos' |].
      eapply moved_occupied; eauto.
    + unfold mbind. rewrite Hrun. unfold mret. eauto.
Qed.

Lemma make_move_returns_witness :
  exists (accepted : bool) (g' : JanggiGame),
    make_move (coordinate_string (7, "a"%char)) (coordinate_string (6, "a"%char))
      new_JanggiGame
    = (Ok accepted, g').
Proof.
  apply (make_move_returns new_JanggiGame (7, "a"%char) (6, "a"%char)).
  - apply new_JanggiBoard_invariant.
  - apply new_JanggiBoard_synced.
  - apply on_boardb_iff. reflexivity.
  - apply on_boardb_iff. reflexivity.
Defined.
